(** * KnowledgeParser: segmentation, dispatch and hierarchical merge

    A shallow embedding of [novel_generator/knowledge_parser.py] and of
    [novel_generator/common.py], with the properties of the pipeline
    (segmentation, retry wrapper, context retrieval, ordered dispatch,
    hierarchical merge) stated and proved over it. *)

From Stdlib Require Import ZArith NArith Lia Ascii.
From Stdlib Require String.
From stdpp Require Import base option list strings gmap sorting.

Open Scope Z_scope.
Set Warnings "-register-all".

(** ** Python strings

    A Python [str] is a sequence of Unicode code points; [len] counts code
    points, slicing and [strip] work on them. *)

Abbreviation pystr := (list N).

Definition lit (s : string) : pystr :=
  map N_of_ascii (String.list_ascii_of_string s).

Definition len {A} (l : list A) : Z := Z.of_nat (length l).

(** [str.isspace] for one code point, the set that [str.strip()] and
    [str.split()] use. *)
Definition isspace (c : N) : bool :=
  ((9 <=? c) && (c <=? 13) || (28 <=? c) && (c <=? 32) || (c =? 133)
   || (c =? 160) || (c =? 5760) || (8192 <=? c) && (c <=? 8202)
   || (c =? 8232) || (c =? 8233) || (c =? 8239) || (c =? 8287)
   || (c =? 12288))%N.

Fixpoint lstrip (s : pystr) : pystr :=
  match s with
  | c :: s' => if isspace c then lstrip s' else s
  | [] => []
  end.

Definition rstrip (s : pystr) : pystr := reverse (lstrip (reverse s)).

Definition strip (s : pystr) : pystr := rstrip (lstrip s).

(** Truth value of a string or list: non-empty. *)
Definition truthy {A} (l : list A) : bool :=
  match l with [] => false | _ => true end.

(** Slice [s[lo:hi]] with Python's treatment of negative and
    out-of-range bounds. *)
Definition slice_bound (n i : Z) : Z :=
  if i <? 0 then Z.max 0 (i + n) else Z.min i n.

Definition slice {A} (s : list A) (lo hi : Z) : list A :=
  let lo' := slice_bound (len s) lo in
  let hi' := slice_bound (len s) hi in
  take (Z.to_nat (hi' - lo')) (drop (Z.to_nat lo') s).

(** [n] values from [start] on, [step] apart. *)
Fixpoint range_from (n : nat) (start step : Z) : list Z :=
  match n with
  | O => []
  | S n' => start :: range_from n' (start + step) step
  end.

Inductive exn :=
  | ValueError | AttributeError | TypeError | ImportError | KeyError
  | RuntimeError.

Inductive res (A : Type) :=
  | Ok (a : A)
  | Raise (e : exn).
Arguments Ok {A} a.
Arguments Raise {A} e.

#[global] Instance res_ret : MRet res := fun A a => Ok a.

#[global] Instance res_bind : MBind res := fun A B k m =>
  match m with
  | Ok a => k a
  | Raise e => Raise e
  end.

#[global] Instance res_fmap : FMap res := fun A B f m =>
  match m with
  | Ok a => Ok (f a)
  | Raise e => Raise e
  end.

Definition try_except {A} (m : res A) (handler : exn -> res A) : res A :=
  match m with
  | Ok a => Ok a
  | Raise e => handler e
  end.

(** [range(start, stop, step)]: a zero step is a [ValueError]. *)
Definition py_range (start stop step : Z) : res (list Z) :=
  if step =? 0 then Raise ValueError
  else if 0 <? step then
    Ok (range_from (Z.to_nat ((stop - start + step - 1) / step)) start step)
  else
    Ok (range_from (Z.to_nat ((start - stop - step - 1) / (- step))) start
          step).

(** Decimal digits and the format [{n:03d}]. *)
Fixpoint dec_digits (fuel : nat) (n : N) (acc : pystr) : pystr :=
  match fuel with
  | O => acc
  | S f =>
      let acc' := (48 + n mod 10)%N :: acc in
      if (n / 10 =? 0)%N then acc' else dec_digits f (n / 10)%N acc'
  end.

Definition str_of_nonneg (n : Z) : pystr :=
  dec_digits (S (N.to_nat (N.log2 (Z.to_N n)))) (Z.to_N n) [].

Definition zero_pad (width : nat) (s : pystr) : pystr :=
  replicate (width - length s)%nat 48%N ++ s.

Definition format_03d (n : Z) : pystr :=
  if n <? 0 then 45%N :: zero_pad 2 (str_of_nonneg (- n))
  else zero_pad 3 (str_of_nonneg n).

(** ** Chunks *)

Record segment := Segment {
  text : pystr;
  order : Z;
  start_pos : Z;
  end_pos : Z;
  segment_id : pystr
}.

(** ** The segmenter: [KnowledgeParser.split_text_into_segments]

    The function returns a list of chunks or lets an exception through;
    its log lines are its only other effect and are left out here. *)

Section Segmenter.

(** [jieba.cut] is the external tokenizer; [list(jieba.cut(s))] either
    yields the words of [s] or raises. *)
Variable jieba_cut : pystr -> res (list pystr).

(** The inner loop looking for a split point.  The source compares
    [total_length + len(word) > segment_size * 0.9], an integer with a
    rounded product; for segment sizes below 2^49 this is the integer
    comparison [10 * (total_length + len(word)) > 9 * segment_size]. *)
Fixpoint find_split_point (segment_size : Z) (words : list pystr)
    (total_length : Z) : Z :=
  match words with
  | [] => 0
  | word :: rest =>
      if 9 * segment_size <? 10 * (total_length + len word)
      then total_length
      else find_split_point segment_size rest (total_length + len word)
  end.

Definition seg_id (segment_count : Z) : pystr :=
  lit "seg_" ++ format_03d segment_count.

(** One iteration of the [for i in range(...)] loop of the [try] block,
    on the loop state [(segments, segment_count)]. *)
Definition smart_step (content : pystr) (segment_size : Z)
    (st : list segment * Z) (i : Z) : res (list segment * Z) :=
  let '(segments, segment_count) := st in
  let segment0 := slice content i (i + segment_size) in
  let actual_start := i in
  let actual_end0 := i + len segment0 in
  '(seg, actual_end) ←
    (if i + segment_size <? len content then
       words ← jieba_cut segment0 ;
       if 1 <? len words then
         let split_point := find_split_point segment_size words 0 in
         if 0 <? split_point
         then Ok (slice content i (i + split_point), i + split_point)
         else Ok (segment0, actual_end0)
       else Ok (segment0, actual_end0)
     else Ok (segment0, actual_end0)) ;
  if truthy (strip seg) then
    let segment_count' := segment_count + 1 in
    Ok (segments ++ [Segment (strip seg) segment_count' actual_start
                             actual_end (seg_id segment_count')],
        segment_count')
  else Ok (segments, segment_count).

Fixpoint smart_loop (content : pystr) (segment_size : Z)
    (st : list segment * Z) (starts : list Z) : res (list segment * Z) :=
  match starts with
  | [] => Ok st
  | i :: rest =>
      st' ← smart_step content segment_size st i ;
      smart_loop content segment_size st' rest
  end.

(** One iteration of the loop of the [except] block (plain slicing). *)
Definition simple_step (content : pystr) (segment_size : Z)
    (st : list segment * Z) (i : Z) : list segment * Z :=
  let '(segments, segment_count) := st in
  let seg := slice content i (i + segment_size) in
  if truthy (strip seg) then
    let segment_count' := segment_count + 1 in
    (segments ++ [Segment (strip seg) segment_count' i
                          (Z.min (i + segment_size) (len content))
                          (seg_id segment_count')],
     segment_count')
  else (segments, segment_count).

Definition simple_split (content : pystr) (segment_size : Z)
    : res (list segment) :=
  starts ← py_range 0 (len content) segment_size ;
  Ok (fst (fold_left (simple_step content segment_size) starts ([], 0))).

Definition smart_split (content : pystr) (segment_size : Z)
    : res (list segment) :=
  starts ← py_range 0 (len content) segment_size ;
  st ← smart_loop content segment_size ([], 0) starts;
  Ok (fst st).

Definition split_text_into_segments (content : pystr) (segment_size : Z)
    : res (list segment) :=
  if negb (truthy content) || negb (truthy (strip content)) then Ok []
  else if len content <=? segment_size then
    Ok [Segment content 1 0 (len content) (lit "seg_001")]
  else
    try_except (smart_split content segment_size)
               (fun _ => simple_split content segment_size).

End Segmenter.

(** A tokenizer for space-delimited text, as [jieba.cut] splits it: every
    whitespace character is a token of its own and every maximal run of
    other characters is one token. *)
Fixpoint ws_words (s : pystr) : list pystr :=
  match s with
  | [] => []
  | c :: s' =>
      if isspace c then [c] :: ws_words s'
      else
        match s' with
        | c' :: _ =>
            if isspace c' then [c] :: ws_words s'
            else
              match ws_words s' with
              | word :: rest => (c :: word) :: rest
              | [] => [[c]]
              end
        | [] => [[c]]
        end
  end.

Definition ws_cut (s : pystr) : res (list pystr) := Ok (ws_words s).

(** ** JSON values

    What [json.loads] produces and what the merge functions work on.  A
    Python [dict] keeps insertion order and has unique keys: an association
    list read by first match.  Numbers are integers here. *)

Inductive json :=
  | JNull
  | JBool (b : bool)
  | JInt (n : Z)
  | JStr (s : pystr)
  | JList (l : list json)
  | JDict (d : list (pystr * json)).

Abbreviation dict := (list (pystr * json)).

Fixpoint dict_get (key : pystr) (d : dict) : option json :=
  match d with
  | [] => None
  | (k, v) :: d' => if bool_decide (k = key) then Some v else dict_get key d'
  end.

(** [d[key] = value]: overwrite in place, or append a new key. *)
Fixpoint dict_set (key : pystr) (value : json) (d : dict) : dict :=
  match d with
  | [] => [(key, value)]
  | (k, v) :: d' =>
      if bool_decide (k = key) then (k, value) :: d'
      else (k, v) :: dict_set key value d'
  end.

Definition json_truthy (j : json) : bool :=
  match j with
  | JNull => false
  | JBool b => b
  | JInt n => negb (n =? 0)
  | JStr s => truthy s
  | JList l => truthy l
  | JDict d => truthy d
  end.

(** Python's [==] on these values: [True == 1], lists compare
    element-wise, dicts compare regardless of key order. *)
Fixpoint py_eq (a b : json) {struct a} : bool :=
  match a, b with
  | JNull, JNull => true
  | JBool x, JBool y => bool_decide (x = y)
  | JBool x, JInt n => (if x then 1 else 0) =? n
  | JInt n, JBool y => n =? (if y then 1 else 0)
  | JInt n, JInt m => n =? m
  | JStr s, JStr t => bool_decide (s = t)
  | JList l, JList m =>
      (fix go (l m : list json) : bool :=
         match l, m with
         | [], [] => true
         | x :: l', y :: m' => py_eq x y && go l' m'
         | _, _ => false
         end) l m
  | JDict d, JDict e =>
      bool_decide (length d = length e) &&
      (fix go (d : dict) : bool :=
         match d with
         | [] => true
         | (k, v) :: d' =>
             match dict_get k e with
             | Some v' => py_eq v v'
             | None => false
             end && go d'
         end) d
  | _, _ => false
  end.

(** [hash(x)] raises [TypeError] on lists and dicts. *)
Definition hashable (j : json) : bool :=
  match j with
  | JList _ | JDict _ => false
  | _ => true
  end.

(** A Python [set] of hashable values, as the list of its members. *)
Abbreviation pyset := (list json).

Definition set_mem (x : json) (s : pyset) : res bool :=
  if hashable x then Ok (existsb (py_eq x) s) else Raise TypeError.

Definition set_add (x : json) (s : pyset) : res pyset :=
  if hashable x then Ok (if existsb (py_eq x) s then s else s ++ [x])
  else Raise TypeError.

(** [x.get(key, default)]: only dicts have the method. *)
Definition get_attr (j : json) (key : pystr) (dflt : json) : res json :=
  match j with
  | JDict d => Ok (default dflt (dict_get key d))
  | _ => Raise AttributeError
  end.

(** Substring test [needle in haystack] on strings. *)
Fixpoint is_prefix (p s : pystr) : bool :=
  match p, s with
  | [], _ => true
  | a :: p', b :: s' => bool_decide (a = b) && is_prefix p' s'
  | _ :: _, [] => false
  end.

Fixpoint str_contains (needle haystack : pystr) : bool :=
  is_prefix needle haystack ||
  match haystack with
  | [] => false
  | _ :: rest => str_contains needle rest
  end.

Definition str_mem (s : pystr) (l : list pystr) : bool :=
  bool_decide (s ∈ l).

(** ** Structural merge: [_merge_dict_data], [_merge_worldview_data],
    [_merge_character_lists] *)

Section StructuralMerge.

(** Python's builtin [str], used to compare list items. *)
Variable py_str : json -> pystr.

(** [for item in value: if str(item) not in existing_items:
    merged[key].append(item)], with [existing_items] computed once
    before the loop. *)
Definition append_unseen (cur value : list json) : list json :=
  let existing_items := map py_str cur in
  cur ++ filter (fun item => negb (str_mem (py_str item) existing_items))
                value.

(** The same loop in [_merge_worldview_data], where each appended item
    is also added to [existing_items]. *)
Fixpoint append_unseen_tracking (existing_items : list pystr)
    (cur value : list json) : list json :=
  match value with
  | [] => cur
  | item :: rest =>
      if str_mem (py_str item) existing_items
      then append_unseen_tracking existing_items cur rest
      else append_unseen_tracking (py_str item :: existing_items)
                                  (cur ++ [item]) rest
  end.

(** [_merge_dict_data(base_dict, new_dict)]; the recursion follows the
    values of [new_dict].  The copy of [base_dict] is shallow in the
    source, so the lists it extends are shared with [base_dict], which
    no caller reads again. *)
Fixpoint merge_dict_items (base_dict : dict) (new_dict : json)
    {struct new_dict} : dict :=
  match new_dict with
  | JDict items =>
      (fix loop (items : dict) (merged : dict) {struct items} : dict :=
         match items with
         | [] => merged
         | (key, value) :: rest =>
             loop rest
               match dict_get key merged with
               | None => dict_set key value merged
               | Some cur =>
                   match value, cur with
                   | JDict _, JDict cur_d =>
                       dict_set key (JDict (merge_dict_items cur_d value))
                                merged
                   | JList vs, JList cur_l =>
                       dict_set key (JList (append_unseen cur_l vs)) merged
                   | _, _ => merged
                   end
               end
         end) items base_dict
  | _ => base_dict
  end.

Definition _merge_dict_data (base_dict new_dict : dict) : dict :=
  merge_dict_items base_dict (JDict new_dict).

Definition merge_worldview_key (merged : dict) (kv : pystr * json) : dict :=
  let '(key, value) := kv in
  match dict_get key merged with
  | None => dict_set key value merged
  | Some cur =>
      match value, cur with
      | JList vs, JList cur_l =>
          dict_set key
            (JList (append_unseen_tracking (map py_str cur_l) cur_l vs))
            merged
      | JDict new_d, JDict cur_d =>
          dict_set key (JDict (_merge_dict_data cur_d new_d)) merged
      | JStr v, JStr cur_s =>
          if negb (str_contains v cur_s)
          then dict_set key (JStr (cur_s ++ [10%N] ++ v)) merged
          else merged
      | _, _ => merged
      end
  end.

Definition _merge_worldview_data (base_data new_data : dict) : dict :=
  if negb (truthy base_data) then new_data
  else if negb (truthy new_data) then base_data
  else fold_left merge_worldview_key new_data base_data.

(** [{char.get("name", "") for char in base_list}] *)
Fixpoint names_of (chars : list json) (acc : pyset) : res pyset :=
  match chars with
  | [] => Ok acc
  | char :: rest =>
      name ← get_attr char (lit "name") (JStr []);
      acc' ← set_add name acc;
      names_of rest acc'
  end.

(** The inner [for i, existing_char in enumerate(merged)] loop: merge
    [new_char] into the first entry whose name equals [char_name]. *)
Fixpoint merge_into_existing (merged : list json) (char_name new_char : json)
    : res (list json) :=
  match merged with
  | [] => Ok []
  | existing_char :: rest =>
      name ← get_attr existing_char (lit "name") JNull;
      if py_eq name char_name then
        match existing_char, new_char with
        | JDict e, JDict n => Ok (JDict (_merge_dict_data e n) :: rest)
        | _, _ => Raise AttributeError
        end
      else
        rest' ← merge_into_existing rest char_name new_char;
        Ok (existing_char :: rest')
  end.

Definition merge_character (st : list json * pyset) (new_char : json)
    : res (list json * pyset) :=
  let '(merged, existing_names) := st in
  char_name ← get_attr new_char (lit "name") (JStr []);
  unseen ← (if json_truthy char_name
            then seen ← set_mem char_name existing_names; Ok (negb seen)
            else Ok false);
  if unseen : bool then
    existing_names' ← set_add char_name existing_names;
    Ok (merged ++ [new_char], existing_names')
  else
    seen ← set_mem char_name existing_names;
    if seen : bool then
      merged' ← merge_into_existing merged char_name new_char;
      Ok (merged', existing_names)
    else Ok (merged, existing_names).

Fixpoint merge_characters (st : list json * pyset) (new_list : list json)
    : res (list json * pyset) :=
  match new_list with
  | [] => Ok st
  | new_char :: rest =>
      st' ← merge_character st new_char;
      merge_characters st' rest
  end.

Definition _merge_character_lists (base_list new_list : list json)
    : res (list json) :=
  if negb (truthy base_list) then Ok new_list
  else if negb (truthy new_list) then Ok base_list
  else
    existing_names ← names_of base_list [];
    st ← merge_characters (base_list, existing_names) new_list;
    Ok (fst st).

End StructuralMerge.

(** ** Effects: the completion service, sleeping, logging

    The effectful functions run against a [world]: the events so far, in
    order.  An exception leaves the events that happened before it.  A
    log line is recorded by its level; what [print] writes is not
    recorded. *)

Inductive log_level := Info | Warning | Error.

Inductive event :=
  | EvInvoke (prompt : pystr)
  | EvSleep (seconds : Z)
  | EvLog (level : log_level).

Abbreviation world := (list event).

Definition M (A : Type) : Type := world -> res A * world.

#[global] Instance M_ret : MRet M := fun A a w => (Ok a, w).

#[global] Instance M_bind : MBind M := fun A B k m w =>
  match m w with
  | (Ok a, w') => k a w'
  | (Raise e, w') => (Raise e, w')
  end.

#[global] Instance M_fmap : FMap M := fun A B f m w =>
  match m w with
  | (Ok a, w') => (Ok (f a), w')
  | (Raise e, w') => (Raise e, w')
  end.

Definition emit (e : event) : M unit := fun w => (Ok tt, w ++ [e]).

Definition log (level : log_level) : M unit := emit (EvLog level).

Definition sleep (seconds : Z) : M unit := emit (EvSleep seconds).

Definition raise {A} (e : exn) : M A := fun w => (Raise e, w).

Definition lift {A} (r : res A) : M A := fun w => (r, w).

(** [try: body except Exception as e: handler(e)] *)
Definition catch {A} (body : M A) (handler : exn -> M A) : M A := fun w =>
  match body w with
  | (Ok a, w') => (Ok a, w')
  | (Raise e, w') => handler e w'
  end.

(** The completion service: what [llm_adapter.invoke(prompt)] answers on
    its [n]-th call (counting from 0): a text, or a raised error. *)
Inductive response :=
  | Reply (s : pystr)
  | Fail.

Definition completion_service := nat -> pystr -> response.

Definition is_invoke (e : event) : bool :=
  match e with EvInvoke _ => true | _ => false end.

Definition calls_so_far (w : world) : nat := length (filter is_invoke w).

Definition invoke (adapter : completion_service) (prompt : pystr)
    : M response :=
  fun w => (Ok (adapter (calls_so_far w) prompt), w ++ [EvInvoke prompt]).

(** ** [common.invoke_with_cleaning] *)

(** [s.replace(old, new)] for a non-empty [old]: occurrences are found
    left to right and do not overlap; [skip] counts the characters of the
    occurrence just replaced that are still to be passed over. *)
Fixpoint replace_from (old new s : pystr) (skip : nat) : pystr :=
  match s with
  | [] => []
  | c :: s' =>
      match skip with
      | S k => replace_from old new s' k
      | O =>
          if is_prefix old s
          then new ++ replace_from old new s' (length old - 1)
          else c :: replace_from old new s' 0
      end
  end.

Definition str_replace (old new s : pystr) : pystr := replace_from old new s 0.

Definition fence_json : pystr := lit "```json".
Definition fence : pystr := lit "```".

(** [result.replace("```json", "").replace("```", "").strip()] *)
Definition clean (result : pystr) : pystr :=
  strip (str_replace fence [] (str_replace fence_json [] result)).

(** The [while retry_count < max_retries] loop, by the number of attempts
    left, [remaining = max_retries - retry_count]; [result] and
    [last_error] are the loop's variables ([last_error] only as set or
    not). *)
Fixpoint retry_loop (adapter : completion_service) (prompt : pystr)
    (remaining : nat) (result : pystr) (last_error : bool) : M pystr :=
  match remaining with
  | O =>
      (if last_error then log Error else mret tt);;
      mret result
  | S remaining' =>
      r ← invoke adapter prompt;
      match r with
      | Reply raw =>
          let result' := if truthy raw then clean raw else raw in
          if truthy raw && truthy result' then
            log Info;; mret result'
          else
            log Warning;;
            (if bool_decide (0 < remaining')%nat then sleep 2 else mret tt);;
            retry_loop adapter prompt remaining' result' last_error
      | Fail =>
          log Error;;
          (if bool_decide (0 < remaining')%nat then sleep 2 else mret tt);;
          retry_loop adapter prompt remaining' result true
      end
  end.

Definition invoke_with_cleaning (adapter : completion_service)
    (prompt : pystr) (max_retries : Z) : M pystr :=
  retry_loop adapter prompt (Z.to_nat max_retries) [] false.

Definition default_max_retries : Z := 3.

(** ** Small string helpers of the parser *)

(** [sep.join(pieces)] *)
Fixpoint join (sep : pystr) (pieces : list pystr) : pystr :=
  match pieces with
  | [] => []
  | [p] => p
  | p :: rest => p ++ sep ++ join sep rest
  end.

(** [s.split()]: the maximal runs of non-whitespace characters. *)
Fixpoint split_ws (s : pystr) : list pystr :=
  match s with
  | [] => []
  | c :: s' =>
      if isspace c then split_ws s'
      else
        match s' with
        | c' :: _ =>
            if isspace c' then [c] :: split_ws s'
            else
              match split_ws s' with
              | word :: rest => (c :: word) :: rest
              | [] => [[c]]
              end
        | [] => [[c]]
        end
  end.

Definition str_of_int (n : Z) : pystr :=
  if n <? 0 then 45%N :: str_of_nonneg (- n) else str_of_nonneg n.

(** [KnowledgeParser.preprocess_text] *)
Definition preprocess_text (content : pystr) : pystr :=
  if negb (truthy content) || negb (truthy (strip content)) then []
  else join [32%N] (split_ws content).

Definition jstr (s : string) : json := JStr (lit s).
Definition jkey (s : string) (v : json) : pystr * json := (lit s, v).

(** ** Context retrieval: [extract_with_vector_context] *)

(** The similarity index: [similarity_search(query, k)] gives the page
    contents of the passages found, or raises. *)
Definition similarity_index := pystr -> Z -> res (list pystr).

Definition extract_with_vector_context (store : option similarity_index)
    (content query : pystr) (top_k : Z) : M pystr :=
  match store with
  | None => mret (slice content 0 2000)
  | Some similarity_search =>
      catch
        (results ← lift (similarity_search query top_k);
         mret (join [10%N; 10%N] results))
        (fun _ => log Warning;; mret (slice content 0 2000))
  end.

(** ** The parser and its collaborators *)

(** [prompt_definitions]: each template as the function
    [content ↦ template.format(content=content)]. *)
Record prompt_templates := {
  knowledge_worldview_extraction_prompt : pystr -> res pystr;
  knowledge_character_extraction_prompt : pystr -> res pystr;
  knowledge_plot_extraction_prompt : pystr -> res pystr
}.

(** The fields of [KnowledgeParser] the pipeline reads, and the
    scheduling of its worker threads.  The one completion service
    [self.llm_adapter] is called from the main thread and from the worker
    threads of the dispatcher, whose calls interleave: the main thread
    sees it as [llm_adapter], the worker of the chunk with order [k] as
    [worker_adapter k].  [completion_order] is the order in which
    [as_completed] hands back the submitted tasks. *)
Record KnowledgeParser := {
  llm_adapter : completion_service;
  worker_adapter : Z -> completion_service;
  vector_store : option similarity_index;
  max_concurrent_requests : Z;
  completion_order : list segment -> list segment
}.

Definition is_none (j : json) : bool :=
  match j with JNull => true | _ => false end.

Definition is_list (j : json) : bool :=
  match j with JList _ => true | _ => false end.

Definition is_dict (j : json) : bool :=
  match j with JDict _ => true | _ => false end.

Definition CHARACTERS : pystr := lit "characters".
Definition WORLDVIEW : pystr := lit "worldview".
Definition PLOT : pystr := lit "plot".

(** The category's empty value: [{} if extraction_type != "characters"
    else []]. *)
Definition empty_value (extraction_type : pystr) : json :=
  if bool_decide (extraction_type ≠ CHARACTERS) then JDict [] else JList [].

Section Parser.

Variable jieba_cut : pystr -> res (list pystr).
Variable py_str : json -> pystr.
(** [json.loads]: the decoded value, or [None] for a
    [JSONDecodeError]. *)
Variable json_loads : pystr -> option json.
(** [json.dumps(group, ensure_ascii=False, indent=2)] *)
Variable json_dumps : list json -> pystr.
(** The text of [_build_merge_prompt(group_json, extraction_type)]. *)
Variable _build_merge_prompt : pystr -> pystr -> pystr.
(** What [from prompt_definitions import ...] binds, or its
    [ImportError]. *)
Variable prompt_definitions : res prompt_templates.

Variable self : KnowledgeParser.

Definition _parse_worldview_text (text : pystr) : json :=
  JDict [jkey "raw_content" (JStr text); jkey "parsed" (JBool false)].

Definition _parse_characters_text (text : pystr) : list json :=
  [JDict [jkey "raw_content" (JStr text); jkey "parsed" (JBool false)]].

Definition _parse_plot_text (text : pystr) : json :=
  JDict [jkey "raw_content" (JStr text); jkey "parsed" (JBool false)].

(** [x["_segment_metadata"] = metadata] on a dict; other values are
    left as they are. *)
Definition tag_if_dict (metadata : json) (x : json) : json :=
  match x with
  | JDict d => JDict (dict_set (lit "_segment_metadata") metadata d)
  | _ => x
  end.

Definition full_metadata (segment_data : segment) : json :=
  JDict [jkey "order" (JInt (order segment_data));
         jkey "segment_id" (JStr (segment_id segment_data));
         jkey "start_pos" (JInt (start_pos segment_data));
         jkey "end_pos" (JInt (end_pos segment_data))].

Definition short_metadata (segment_data : segment) : json :=
  JDict [jkey "order" (JInt (order segment_data));
         jkey "segment_id" (JStr (segment_id segment_data))].

(** The closure [process_single_segment] of
    [_process_segment_concurrently]; [None] is [JNull]. *)
Definition process_single_segment (adapter : completion_service)
    (extraction_type prompt_template_name context_query : pystr)
    (segment_data : segment) : M json :=
  let segment_order := order segment_data in
  let segment_text := text segment_data in
  log Info;;
  catch
    (context ← extract_with_vector_context (vector_store self) segment_text
                 context_query 8;
     templates ← lift prompt_definitions;
     if bool_decide (prompt_template_name = lit "worldview")
        || bool_decide (prompt_template_name = lit "character")
        || bool_decide (prompt_template_name = lit "plot")
     then
       let prompt_template :=
         if bool_decide (prompt_template_name = lit "worldview")
         then knowledge_worldview_extraction_prompt templates
         else if bool_decide (prompt_template_name = lit "character")
         then knowledge_character_extraction_prompt templates
         else knowledge_plot_extraction_prompt templates in
       prompt ← lift (prompt_template
                        ([91; 27573; 33853]%N ++ str_of_int segment_order
                         ++ [93; 32]%N ++ context));
       result ← invoke_with_cleaning adapter prompt default_max_retries;
       if negb (truthy (strip result)) then
         log Warning;; mret JNull
       else
         match json_loads result with
         | Some segment_data_result =>
             if bool_decide (extraction_type = CHARACTERS) then
               match segment_data_result with
               | JList chars =>
                   log Info;;
                   mret (JList (map (tag_if_dict (full_metadata segment_data))
                                    chars))
               | _ => log Warning;; mret JNull
               end
             else
               log Info;;
               mret (tag_if_dict (full_metadata segment_data)
                                 segment_data_result)
         | None =>
             log Warning;;
             if bool_decide (extraction_type = WORLDVIEW) then
               mret (tag_if_dict (short_metadata segment_data)
                                 (_parse_worldview_text result))
             else if bool_decide (extraction_type = CHARACTERS) then
               mret (JList (map (tag_if_dict (short_metadata segment_data))
                                (_parse_characters_text result)))
             else if bool_decide (extraction_type = PLOT) then
               mret (tag_if_dict (short_metadata segment_data)
                                 (_parse_plot_text result))
             else mret JNull
         end
     else
       log Error;; mret JNull)
    (fun _ => log Error;; mret JNull).

(** *** The dispatcher: [_process_segment_concurrently] *)

(** What [future.result()] gives for the task of one chunk: the task
    runs [process_single_segment] on the worker's view of the
    completion service. *)
Definition task_result (extraction_type prompt_template_name
    context_query : pystr) (segment_data : segment) : res json :=
  fst (process_single_segment (worker_adapter self (order segment_data))
         extraction_type prompt_template_name context_query segment_data
         []).

(** The [for future in as_completed(...)] loop filling [results_dict]. *)
Definition record_result (task : segment -> res json)
    (results_dict : gmap Z json) (segment_data : segment) : gmap Z json :=
  match task segment_data with
  | Ok result =>
      if negb (is_none result)
      then <[order segment_data := result]> results_dict
      else results_dict
  | Raise _ => results_dict
  end.

(** The final loop: the chunks in their original order, those with a
    recorded result only. *)
Definition rebuild (results_dict : gmap Z json) (segments : list segment)
    : list json :=
  omap (fun segment_data => results_dict !! order segment_data) segments.

(** [ThreadPoolExecutor(max_workers=n)] raises [ValueError] unless
    [n > 0]; [completed] is the order in which the tasks finish.  The
    tasks run on the worker threads, each against the events of its own
    thread; the dispatcher's own log lines are left out. *)
Definition dispatch (max_workers : Z) (task : segment -> res json)
    (completed segments : list segment) : res (list json) :=
  if max_workers <=? 0 then Raise ValueError
  else
    let results_dict := fold_left (record_result task) completed ∅ in
    Ok (rebuild results_dict segments).

Definition _process_segment_concurrently (segments : list segment)
    (extraction_type prompt_template_name context_query : pystr)
    : res (list json) :=
  dispatch (max_concurrent_requests self)
    (task_result extraction_type prompt_template_name context_query)
    (completion_order self segments) segments.

(** *** The merger *)

Fixpoint fold_res {A B} (f : A -> B -> res A) (l : list B) (a : A)
    : res A :=
  match l with
  | [] => Ok a
  | b :: rest => a' ← f a b; fold_res f rest a'
  end.

(** [_fallback_merge_group] *)
Definition _fallback_merge_group (group : list json)
    (merge_func : json -> json -> res json) (extraction_type : pystr)
    : res json :=
  if bool_decide (extraction_type = CHARACTERS) then
    result ← fold_res
      (fun result item =>
         match item with
         | JList l => _merge_character_lists py_str result l
         | _ => Ok result
         end) group [];
    Ok (JList result)
  else
    fold_res
      (fun result item =>
         match item with
         | JDict _ => merge_func result item
         | _ => Ok result
         end) group (JDict []).

(** [_ai_merge_group]; [level] and [group_num] only reach the log. *)
Definition _ai_merge_group (group : list json)
    (merge_func : json -> json -> res json) (extraction_type : pystr)
    : M json :=
  if negb (truthy group) then mret (empty_value extraction_type)
  else
    match group with
    | [only] => mret only
    | _ =>
        log Info;;
        catch
          (let group_json := json_dumps group in
           let merge_prompt :=
             _build_merge_prompt group_json extraction_type in
           result ← invoke_with_cleaning (llm_adapter self) merge_prompt
                      default_max_retries;
           if negb (truthy (strip result)) then
             log Warning;;
             lift (_fallback_merge_group group merge_func extraction_type)
           else
             match json_loads result with
             | Some merged_data => log Info;; mret merged_data
             | None =>
                 log Warning;;
                 lift (_fallback_merge_group group merge_func
                         extraction_type)
             end)
          (fun _ =>
             log Error;;
             lift (_fallback_merge_group group merge_func extraction_type))
    end.

(** The [for i in range(0, len(current_results), group_size)] loop of
    one level. *)
Fixpoint merge_groups (current_results : list json)
    (merge_func : json -> json -> res json) (extraction_type : pystr)
    (group_size : Z) (starts : list Z) (next_level_results : list json)
    : M (list json) :=
  match starts with
  | [] => mret next_level_results
  | i :: rest =>
      let group := slice current_results i (i + group_size) in
      merged_result ← _ai_merge_group group merge_func extraction_type;
      merge_groups current_results merge_func extraction_type group_size
        rest
        (if negb (is_none merged_result)
         then next_level_results ++ [merged_result]
         else next_level_results)
  end.

(** The [while len(current_results) > 1] loop; [fuel] bounds the number
    of levels, and [None] says the bound was reached with the loop still
    running. *)
Fixpoint merge_levels (fuel : nat) (current_results : list json)
    (merge_func : json -> json -> res json) (extraction_type : pystr)
    (group_size : Z) : M (option json) :=
  if 1 <? len current_results then
    match fuel with
    | O => mret None
    | S fuel' =>
        log Info;;
        starts ← lift (py_range 0 (len current_results) group_size);
        next_level_results ←
          merge_groups current_results merge_func extraction_type
            group_size starts [];
        log Info;;
        merge_levels fuel' next_level_results merge_func extraction_type
          group_size
    end
  else
    log Info;;
    mret (Some (match current_results with
                | first :: _ => first
                | [] => empty_value extraction_type
                end)).

Definition _hierarchical_merge_results (fuel : nat) (results : list json)
    (merge_func : json -> json -> res json) (extraction_type : pystr)
    (group_size : Z) : M (option json) :=
  if negb (truthy results) then mret (Some (empty_value extraction_type))
  else
    match results with
    | [only] => mret (Some only)
    | _ => merge_levels fuel results merge_func extraction_type group_size
    end.

Definition default_group_size : Z := 4.
Definition default_segment_size : Z := 50000.

(** [self._merge_worldview_data] and [self._merge_character_lists] as
    the [merge_func] argument.  Past the two emptiness tests they use
    dict (list) methods, which other values do not have. *)
Definition worldview_merge_func (base_data new_data : json) : res json :=
  if negb (json_truthy base_data) then Ok new_data
  else if negb (json_truthy new_data) then Ok base_data
  else
    match base_data, new_data with
    | JDict b, JDict n => Ok (JDict (_merge_worldview_data py_str b n))
    | _, _ => Raise AttributeError
    end.

Definition character_merge_func (base_list new_list : json) : res json :=
  if negb (json_truthy base_list) then Ok new_list
  else if negb (json_truthy new_list) then Ok base_list
  else
    match base_list, new_list with
    | JList b, JList n => JList <$> _merge_character_lists py_str b n
    | _, _ => Raise AttributeError
    end.

(** *** The three extractions *)

Definition WORLDVIEW_QUERY : pystr :=
  [19990; 30028; 35266; 32; 22320; 29702; 32; 21382; 21490; 32; 32972;
   26223; 32; 31185; 25216; 32; 39764; 27861; 32; 31038; 20250; 32; 25991;
   21270; 32; 25919; 27835]%N.

Definition CHARACTER_QUERY : pystr :=
  [35282; 33394; 32; 20154; 29289; 32; 20027; 35282; 32; 37197; 35282; 32;
   24615; 26684; 32; 33021; 21147; 32; 20851; 31995; 32; 32972; 26223]%N.

Definition PLOT_QUERY : pystr :=
  [21095; 24773; 32; 25925; 20107; 32447; 32; 24773; 33410; 32; 20914;
   31361; 32; 39640; 28526; 32; 32467; 23616; 32; 21457; 23637; 32; 36716;
   25240]%N.

(** The merge loop of an extraction gets one unit of fuel per segment
    result, which the default group size never uses up
    ([merge_levels_terminates] below); [None] would be a loop still
    running.  The trace of an extraction holds its own log lines and the
    events of the merge; the log lines that the segmenter and the
    dispatcher write on the way are not recorded, as said there, so a
    trace is exact up to log lines only once the text is segmented. *)
Definition extract_worldview (content : pystr) : M (option json) :=
  log Info;;
  let processed_content := preprocess_text content in
  if negb (truthy processed_content) then
    log Warning;; mret (Some (JDict []))
  else
    segments ← lift (split_text_into_segments jieba_cut processed_content
                       default_segment_size);
    segment_results ← lift (_process_segment_concurrently segments
                              WORLDVIEW (lit "worldview") WORLDVIEW_QUERY);
    if negb (truthy segment_results) then
      log Warning;; mret (Some (JDict []))
    else
      log Info;;
      final_worldview ← _hierarchical_merge_results
        (length segment_results) segment_results worldview_merge_func
        WORLDVIEW default_group_size;
      log Info;;
      mret final_worldview.

Definition extract_characters (content : pystr) : M (option json) :=
  log Info;;
  let processed_content := preprocess_text content in
  if negb (truthy processed_content) then mret (Some (JList []))
  else
    segments ← lift (split_text_into_segments jieba_cut processed_content
                       default_segment_size);
    segment_results ← lift (_process_segment_concurrently segments
                              CHARACTERS (lit "character") CHARACTER_QUERY);
    if negb (truthy segment_results) then
      log Warning;; mret (Some (JList []))
    else
      log Info;;
      final_characters ← _hierarchical_merge_results
        (length segment_results) segment_results character_merge_func
        CHARACTERS default_group_size;
      log Info;;
      mret ((fun final => if is_list final then final else JList [])
              <$> final_characters).

Definition extract_plot_outline (content : pystr) : M (option json) :=
  log Info;;
  let processed_content := preprocess_text content in
  if negb (truthy processed_content) then
    log Warning;; mret (Some (JDict []))
  else
    segments ← lift (split_text_into_segments jieba_cut processed_content
                       default_segment_size);
    segment_results ← lift (_process_segment_concurrently segments
                              PLOT (lit "plot") PLOT_QUERY);
    if negb (truthy segment_results) then
      log Warning;; mret (Some (JDict []))
    else
      log Info;;
      final_plot ← _hierarchical_merge_results
        (length segment_results) segment_results worldview_merge_func
        PLOT default_group_size;
      log Info;;
      mret final_plot.

End Parser.

(** ** Further functions of [common.py] *)




Definition THINK_OPEN : pystr := lit "<think>".
Definition THINK_CLOSE : pystr := lit "</think>".

(** Where the first occurrence of [needle] in [s] ends, counted from the
    start of [s]. *)
Fixpoint find_end (needle s : pystr) : option nat :=
  if is_prefix needle s then Some (length needle)
  else
    match s with
    | [] => None
    | _ :: s' => S <$> find_end needle s'
    end.

(** [re.sub(r'<think>.*?</think>', '', text, flags=re.DOTALL)]: scanning
    from the left, an opening tag that has a closing tag after it is
    removed together with everything up to the nearest closing tag; the
    scan goes on behind it.  [skip] counts the characters of the match
    still to be passed over. *)
Fixpoint remove_think_from (s : pystr) (skip : nat) : pystr :=
  match s with
  | [] => []
  | c :: s' =>
      match skip with
      | S k => remove_think_from s' k
      | O =>
          if is_prefix THINK_OPEN s then
            match find_end THINK_CLOSE (drop (length THINK_OPEN) s) with
            | Some n => remove_think_from s' (length THINK_OPEN + n - 1)
            | None => c :: remove_think_from s' 0
            end
          else c :: remove_think_from s' 0
      end
  end.

Definition remove_think_tags (text : pystr) : pystr :=
  remove_think_from text 0.

(** ** Further methods of [KnowledgeParser] *)

Section Truncation.

Variable jieba_cut : pystr -> res (list pystr).

(** The inner [for word in words] loop of [_smart_truncate_with_jieba]:
    words are taken while they fit. *)
Fixpoint take_fitting (max_length : Z) (words : list pystr)
    (segments : list pystr) (current_length : Z) : list pystr :=
  match words with
  | [] => segments
  | word :: rest =>
      if current_length + len word <=? max_length
      then take_fitting max_length rest (segments ++ [word])
             (current_length + len word)
      else segments
  end.

(** The loop over the 500-character pieces, on the state
    [(segments, current_length)]. *)
Fixpoint truncate_loop (content : pystr) (max_length : Z) (starts : list Z)
    (segments : list pystr) (current_length : Z) : res (list pystr) :=
  match starts with
  | [] => Ok segments
  | i :: rest =>
      let segment := slice content i (i + 500) in
      if max_length <? current_length + len segment then
        words ← jieba_cut segment;
        Ok (take_fitting max_length words segments current_length)
      else
        words ← jieba_cut segment;
        truncate_loop content max_length rest (segments ++ words)
          (current_length + len segment)
  end.

(** [_smart_truncate_with_jieba]; its log lines are left out. *)
Definition _smart_truncate_with_jieba (content : pystr) (max_length : Z)
    : res pystr :=
  try_except
    (starts ← py_range 0 (len content) 500;
     segments ← truncate_loop content max_length starts [] 0;
     Ok (concat segments))
    (fun _ => Ok (slice content 0 max_length ++ lit "...")).

End Truncation.

(** [len(x)]: strings, lists and dicts have a length. *)
Definition py_len (x : json) : res Z :=
  match x with
  | JStr s => Ok (len s)
  | JList l => Ok (len l)
  | JDict d => Ok (len d)
  | _ => Raise TypeError
  end.

(** [generate_structure(worldview, characters, plot_outline,
    relationships)]; a missing [relationships] is [None]. *)
Definition generate_structure (worldview characters plot_outline
    relationships : json) : res json :=
  let relationships_or_empty :=
    if json_truthy relationships then relationships else JDict [] in
  elements ← get_attr worldview (lit "elements") (JList []);
  worldview_elements ← py_len elements;
  character_count ← py_len characters;
  points ← get_attr plot_outline (lit "plot_points") (JList []);
  plot_points ← py_len points;
  relationship_count ←
    (if json_truthy relationships then
       rels ← get_attr relationships (lit "relationships") (JList []);
       py_len rels
     else Ok 0);
  Ok (JDict
        [jkey "metadata"
           (JDict [jkey "extracted_time" (JStr []);
                   jkey "source_files" (JList []);
                   jkey "extraction_version" (jstr "1.0")]);
         jkey "worldview" worldview;
         jkey "characters" characters;
         jkey "plot_outline" plot_outline;
         jkey "relationships" relationships_or_empty;
         jkey "statistics"
           (JDict [jkey "worldview_elements" (JInt worldview_elements);
                   jkey "character_count" (JInt character_count);
                   jkey "plot_points" (JInt plot_points);
                   jkey "relationship_count" (JInt relationship_count)])]).

Section Relationships.

Variable json_loads : pystr -> option json.
(** [json.dumps(characters, ensure_ascii=False, indent=2)] *)
Variable json_dumps_value : json -> pystr.
(** [knowledge_relationship_analysis_prompt] as the function
    [text ↦ template.format(characters=text)], or the [ImportError] of
    its import. *)
Variable relationship_prompt : res (pystr -> res pystr).
Variable self : KnowledgeParser.


End Relationships.

(** ** Stand-ins for the closed examples *)

(** [repr] of a value, and [str]: right for values whose strings need no
    escaping. *)
Fixpoint py_repr (j : json) : pystr :=
  match j with
  | JNull => lit "None"
  | JBool true => lit "True"
  | JBool false => lit "False"
  | JInt n => str_of_int n
  | JStr s => [39%N] ++ s ++ [39%N]
  | JList l => [91%N] ++ join (lit ", ") (map py_repr l) ++ [93%N]
  | JDict d =>
      [123%N]
      ++ join (lit ", ")
           (map (fun kv => [39%N] ++ fst kv ++ [39%N] ++ lit ": "
                           ++ py_repr (snd kv)) d)
      ++ [125%N]
  end.

Definition sample_str (j : json) : pystr :=
  match j with
  | JStr s => s
  | _ => py_repr j
  end.

(** A decoder that agrees with [json.loads] on the four texts below; the
    examples apply it to these texts only. *)
Definition sample_loads (s : pystr) : option json :=
  if bool_decide (s = lit "null") then Some JNull
  else if bool_decide (s = lit "[]") then Some (JList [])
  else if bool_decide (s = lit "{}") then Some (JDict [])
  else if bool_decide (s = [91; 34; 120; 34; 93]%N) then Some (JList [jstr "x"])
  else None.

(** The text sent to the completion service, which the adapters of the
    examples do not look at. *)
Definition sample_dumps (group : list json) : pystr := py_repr (JList group).

Definition sample_merge_prompt (group_json extraction_type : pystr) : pystr :=
  extraction_type ++ [10%N] ++ group_json.

Definition sample_templates : res prompt_templates :=
  Ok {| knowledge_worldview_extraction_prompt := fun c => Ok c;
        knowledge_character_extraction_prompt := fun c => Ok c;
        knowledge_plot_extraction_prompt := fun c => Ok c |}.

Definition const_adapter (s : pystr) : completion_service :=
  fun _ _ => Reply s.

(** A parser without similarity index whose workers always get the reply
    [worker] and whose main thread always gets [main]; tasks complete in
    reverse order of submission. *)
Definition sample_parser (worker main : pystr) (pool : Z) : KnowledgeParser :=
  {| llm_adapter := const_adapter main;
     worker_adapter := fun _ => const_adapter worker;
     vector_store := None;
     max_concurrent_requests := pool;
     completion_order := fun l => reverse l |}.

Definition two_chunks : list segment :=
  [Segment (lit "first part") 1 0 10 (lit "seg_001");
   Segment (lit "second part") 2 10 21 (lit "seg_002")].

(** The text [["x"]]. *)
Definition list_of_x : pystr := [91; 34; 120; 34; 93]%N.

(** ** Notions used to state the properties *)

Definition is_log (e : event) : bool :=
  match e with EvLog _ => true | _ => false end.

(** A trace without its log lines: the calls and the sleeps. *)
Definition without_logs (w : world) : world :=
  filter (fun e => negb (is_log e)) w.

(** [k] attempts on [prompt], with a sleep of 2 seconds between
    consecutive attempts. *)
Fixpoint attempts_trace (prompt : pystr) (k : nat) : world :=
  match k with
  | O => []
  | S k' =>
      match k' with
      | O => [EvInvoke prompt]
      | S _ => EvInvoke prompt :: EvSleep 2 :: attempts_trace prompt k'
      end
  end.

(** An attempt that does not end the retry loop: a raised error, or a
    reply that is empty once the fence markers and the surrounding
    whitespace are gone. *)
Definition unusable (r : response) : bool :=
  match r with
  | Reply raw => negb (truthy (clean raw))
  | Fail => true
  end.


(** The number of backticks a string starts with. *)
Fixpoint leading_ticks (s : pystr) : nat :=
  match s with
  | c :: s' => if bool_decide (c = 96%N) then S (leading_ticks s') else 0
  | [] => 0
  end.

(** What the dispatcher keeps of one task: its result unless the task
    raised or returned [None]. *)
Definition surviving (task : segment -> res json) (segment_data : segment)
    : option json :=
  match task segment_data with
  | Ok result => if is_none result then None else Some result
  | Raise _ => None
  end.

(** The non-empty string name of a character entry, if it has one. *)
Definition name_value (o : option json) : option pystr :=
  match o with
  | Some (JStr s) => if truthy s then Some s else None
  | _ => None
  end.

Definition entry_name (char : json) : option pystr :=
  match char with
  | JDict d => name_value (dict_get (lit "name") d)
  | _ => None
  end.

(** No two entries share a non-empty name. *)
Definition distinct_names (chars : list json) : Prop :=
  NoDup (omap entry_name chars).

Definition distinct_names_in (item : json) : Prop :=
  match item with
  | JList chars => distinct_names chars
  | _ => True
  end.

(** One key of [new_dict] in the loop of [_merge_dict_data]. *)
Definition merge_dict_key (py_str : json -> pystr) (merged : dict)
    (kv : pystr * json) : dict :=
  let '(key, value) := kv in
  match dict_get key merged with
  | None => dict_set key value merged
  | Some cur =>
      match value, cur with
      | JDict new_d, JDict cur_d =>
          dict_set key (JDict (_merge_dict_data py_str cur_d new_d)) merged
      | JList vs, JList cur_l =>
          dict_set key (JList (append_unseen py_str cur_l vs)) merged
      | _, _ => merged
      end
  end.

(** Membership in the set of names, as [in] computes it. *)
Definition in_names (x : json) (names : pyset) : Prop :=
  existsb (py_eq x) names = true.

(** The loop invariant of [_merge_character_lists]: the merged list has
    distinct names, all of them in [existing_names]. *)
Definition names_inv (merged : list json) (existing_names : pyset) : Prop :=
  distinct_names merged
  ∧ ∀ s, s ∈ omap entry_name merged -> in_names (JStr s) existing_names.

(** The name of a character entry that counts as one: the value under
    [name], of any type, when it is truthy. *)
Definition char_name (char : json) : option json :=
  match char with
  | JDict d =>
      match dict_get (lit "name") d with
      | Some name => if json_truthy name then Some name else None
      | None => None
      end
  | _ => None
  end.

(** No two of the values are equal by [==], in either order. *)
Fixpoint pairwise_unequal (names : list json) : Prop :=
  match names with
  | [] => True
  | a :: rest =>
      Forall (fun b => py_eq a b = false ∧ py_eq b a = false) rest
      ∧ pairwise_unequal rest
  end.

(** No two entries share a name, of whatever type. *)
Definition distinct_by_name (chars : list json) : Prop :=
  pairwise_unequal (omap char_name chars).

(** The first non-empty list of a group: what the structural merge of
    character lists starts from. *)
Fixpoint first_character_list (group : list json) : list json :=
  match group with
  | [] => []
  | JList (char :: chars) :: _ => char :: chars
  | _ :: rest => first_character_list rest
  end.

(** The key under which a hashable value sits in a set: [True] and [1]
    are one key, as are [False] and [0]. *)
Definition name_key (x : json) : json :=
  match x with
  | JBool b => JInt (if b then 1 else 0)
  | _ => x
  end.

(** The loop invariant of [_merge_character_lists] for names of any
    type: no two entries of the merged list share a name, every name is
    hashable and in [existing_names], which holds hashable values
    only. *)
Definition names_known (merged : list json) (existing_names : pyset)
    : Prop :=
  distinct_by_name merged
  ∧ Forall (fun name => hashable name = true
                        ∧ existsb (py_eq name) existing_names = true)
      (omap char_name merged)
  ∧ Forall (fun name => hashable name = true) existing_names.

(** The characters of a text that are not whitespace. *)
Definition visible (s : pystr) : pystr :=
  filter (fun c => isspace c = false) s.

(** A word as [str.split()] gives it: not empty, without whitespace. *)
Definition wordy (word : pystr) : Prop :=
  word ≠ [] ∧ Forall (fun c => isspace c = false) word.

(** What holds of every chunk of a segmentation of [content]: its id
    follows its number, its text is not empty and no longer than the span
    [start_pos .. end_pos], which lies inside the content and is at most
    one segment size long. *)
Definition chunk_ok (content : pystr) (segment_size : Z) (seg : segment)
    : Prop :=
  segment_id seg = seg_id (order seg)
  ∧ text seg ≠ []
  ∧ 0 <= start_pos seg ∧ start_pos seg < end_pos seg
  ∧ end_pos seg <= len content
  ∧ end_pos seg - start_pos seg <= segment_size
  ∧ len (text seg) <= end_pos seg - start_pos seg.

(** The loop invariant of both segmentation loops. *)
Definition numbered (content : pystr) (segment_size : Z)
    (st : list segment * Z) : Prop :=
  snd st = len (fst st)
  ∧ order <$> fst st = seqZ 1 (snd st)
  ∧ Forall (chunk_ok content segment_size) (fst st).

(** * Properties *)

(** ** Strings and slices *)

Lemma len_nonneg {A} (l : list A) : 0 <= len l.
Proof. unfold len. lia. Qed.

Lemma slice_prefix {A} (s : list A) (n : Z) :
  0 <= n -> slice s 0 n = take (Z.to_nat n) s.
Proof.
  intros Hn. unfold slice, slice_bound.
  pose proof (len_nonneg s) as Hl.
  replace (0 <? 0) with false by reflexivity.
  destruct (n <? 0) eqn:E; [apply Z.ltb_lt in E; lia|].
  rewrite (Z.min_l 0 (len s)) by lia. rewrite Z.sub_0_r.
  change (Z.to_nat 0) with 0%nat. rewrite drop_0.
  destruct (Z.le_gt_cases n (len s)) as [H|H].
  - rewrite Z.min_l by lia. reflexivity.
  - rewrite Z.min_r by lia. unfold len in *. rewrite Nat2Z.id.
    rewrite firstn_all. symmetry. apply take_ge. lia.
Qed.

(** ** Segmentation *)

(** C6, amended.  A text that is not blank and no longer than the segment
    size comes back as exactly one chunk, numbered 1, spanning
    [0 .. len(text)], with id [seg_001]; its text is the trimmed input
    whenever the input has no surrounding whitespace. *)
Theorem short_input_single_chunk jieba_cut (content : pystr)
    (segment_size : Z) :
  truthy (strip content) = true ->
  len content <= segment_size ->
  ∃ seg, split_text_into_segments jieba_cut content segment_size = Ok [seg]
         ∧ order seg = 1 ∧ start_pos seg = 0 ∧ end_pos seg = len content
         ∧ segment_id seg = lit "seg_001"
         ∧ (strip content = content -> text seg = strip content).
Proof.
  intros Hblank Hlen. unfold split_text_into_segments.
  assert (truthy content = true) as ->.
  { destruct content; [discriminate Hblank | reflexivity]. }
  rewrite Hblank. simpl.
  apply Z.leb_le in Hlen. rewrite Hlen.
  eexists. split; [reflexivity|]. simpl.
  repeat split; auto.
Qed.

Lemma short_input_single_chunk_witness :
  ∃ seg, split_text_into_segments ws_cut (lit "abc") 50000 = Ok [seg]
         ∧ order seg = 1 ∧ start_pos seg = 0 ∧ end_pos seg = len (lit "abc")
         ∧ segment_id seg = lit "seg_001"
         ∧ (strip (lit "abc") = lit "abc" -> text seg = strip (lit "abc")).
Proof.
  apply (short_input_single_chunk ws_cut (lit "abc") 50000).
  - reflexivity.
  - vm_compute. discriminate.
Defined.

(** C6 as stated fails: a whitespace-only text within the segment size
    yields no chunk at all. *)
Lemma short_input_blank_no_chunk :
  ¬ (∀ jieba_cut (content : pystr) (segment_size : Z),
       len content <= segment_size ->
       ∃ seg, split_text_into_segments jieba_cut content segment_size
                = Ok [seg]
              ∧ text seg = strip content ∧ order seg = 1
              ∧ start_pos seg = 0 ∧ end_pos seg = len content
              ∧ segment_id seg = lit "seg_001").
Proof.
  intros H.
  destruct (H ws_cut (lit "   ") 50000) as (seg & Heq & _).
  - vm_compute. discriminate.
  - vm_compute in Heq. discriminate Heq.
Qed.

(** C4.  With segment size 10 the text "ab cd ef gh ij kl" is cut at the
    word boundary 9, the next chunk starts at 10, and the letter [g]
    (code point 103) between them is in no chunk.  The plain slicing of
    the [except] branch keeps it. *)
Theorem shortening_drops_text :
  let content := lit "ab cd ef gh ij kl" in
  split_text_into_segments ws_cut content 10
    = Ok [Segment (lit "ab cd ef") 1 0 9 (lit "seg_001");
          Segment (lit "h ij kl") 2 10 17 (lit "seg_002")]
  ∧ isspace 103 = false
  ∧ 103%N ∈ content
  ∧ (103%N ∉ concat [lit "ab cd ef"; lit "h ij kl"])
  ∧ (simple_split content 10
     = Ok [Segment (lit "ab cd ef g") 1 0 10 (lit "seg_001");
           Segment (lit "h ij kl") 2 10 17 (lit "seg_002")]).
Proof.
  split; [reflexivity|]. split; [reflexivity|]. split; [|split].
  - apply list_elem_of_In. vm_compute. tauto.
  - intros H. apply list_elem_of_In in H. vm_compute in H.
    intuition discriminate.
  - reflexivity.
Qed.

(** ** Structural merge of character lists *)

(** C5.  Merging [{name: A, age: 25}] with [{name: A, description: hero}]
    gives the one entry [{name: A, age: 25, description: hero}]; an
    entry merged into keeps its place in the list; merging [{name: A}]
    with [{name: B}] gives both entries. *)
Theorem merge_character_lists_dedup (py_str : json -> pystr) :
  _merge_character_lists py_str
    [JDict [jkey "name" (jstr "A"); jkey "age" (JInt 25)]]
    [JDict [jkey "name" (jstr "A"); jkey "description" (jstr "hero")]]
  = Ok [JDict [jkey "name" (jstr "A"); jkey "age" (JInt 25);
               jkey "description" (jstr "hero")]]
  ∧ _merge_character_lists py_str
      [JDict [jkey "name" (jstr "Z")];
       JDict [jkey "name" (jstr "A"); jkey "age" (JInt 25)];
       JDict [jkey "name" (jstr "Y")]]
      [JDict [jkey "name" (jstr "A"); jkey "description" (jstr "hero")]]
    = Ok [JDict [jkey "name" (jstr "Z")];
          JDict [jkey "name" (jstr "A"); jkey "age" (JInt 25);
                 jkey "description" (jstr "hero")];
          JDict [jkey "name" (jstr "Y")]]
  ∧ _merge_character_lists py_str
      [JDict [jkey "name" (jstr "A")]] [JDict [jkey "name" (jstr "B")]]
    = Ok [JDict [jkey "name" (jstr "A")]; JDict [jkey "name" (jstr "B")]].
Proof. repeat split; vm_compute; reflexivity. Qed.

(** ** Context retrieval *)

(** C8.  Without an index the context is the first 2000 characters of the
    chunk; with an index whose query raises, a warning is logged and the
    context is the same prefix; no case raises. *)
Theorem vector_context_fallback (content query : pystr) (top_k : Z)
    (w : world) :
  extract_with_vector_context None content query top_k w
    = (Ok (take 2000 content), w)
  ∧ (∀ (similarity_search : similarity_index) (e : exn),
       similarity_search query top_k = Raise e ->
       extract_with_vector_context (Some similarity_search) content query
         top_k w
       = (Ok (take 2000 content), w ++ [EvLog Warning]))
  ∧ (∀ store, ∃ context w',
       extract_with_vector_context store content query top_k w
       = (Ok context, w')).
Proof.
  assert (slice content 0 2000 = take 2000 content) as Hs.
  { rewrite slice_prefix by lia. reflexivity. }
  split; [|split].
  - simpl. rewrite Hs. reflexivity.
  - intros search e He. unfold extract_with_vector_context, catch.
    unfold mbind, M_bind, lift. rewrite He. simpl. rewrite Hs. reflexivity.
  - intros [search|]; simpl; [|eauto].
    unfold catch, mbind, M_bind, lift.
    destruct (search query top_k); simpl; eauto.
Qed.

Lemma vector_context_fallback_witness :
  extract_with_vector_context (Some (fun _ _ => Raise RuntimeError))
    (lit "some chunk text") (lit "query") 8 []
  = (Ok (take 2000 (lit "some chunk text")), [EvLog Warning]).
Proof.
  exact (proj1 (proj2 (vector_context_fallback (lit "some chunk text")
                         (lit "query") 8 []))
               (fun _ _ => Raise RuntimeError) RuntimeError eq_refl).
Defined.

(** ** The retry wrapper *)

Ltac run_M :=
  unfold mbind, M_bind, mret, M_ret, invoke, log, sleep, emit, lift, catch,
    raise in *; simpl in *.

Lemma without_logs_app (w1 w2 : world) :
  without_logs (w1 ++ w2) = without_logs w1 ++ without_logs w2.
Proof. unfold without_logs. apply filter_app. Qed.

Lemma calls_so_far_app (w1 w2 : world) :
  calls_so_far (w1 ++ w2) = (calls_so_far w1 + calls_so_far w2)%nat.
Proof. unfold calls_so_far. rewrite filter_app, length_app. reflexivity. Qed.

Lemma calls_so_far_without_logs (w : world) :
  calls_so_far (without_logs w) = calls_so_far w.
Proof.
  unfold calls_so_far, without_logs. induction w as [|e w IH]; [reflexivity|].
  destruct e; simpl; rewrite ?filter_cons; simpl; rewrite ?filter_cons; simpl;
    auto.
Qed.

Lemma clean_nil : clean [] = [].
Proof. reflexivity. Qed.

Lemma truthy_false_nil {A} (l : list A) : truthy l = false -> l = [].
Proof. destruct l; [reflexivity | discriminate]. Qed.

(** The loop variable [result] after an attempt that did not return. *)
Lemma kept_result_empty (raw : pystr) :
  truthy raw && truthy (if truthy raw then clean raw else raw) = false ->
  (if truthy raw then clean raw else raw) = [] ∧ unusable (Reply raw) = true.
Proof.
  destruct raw as [|c raw]; simpl; [intros _; split; reflexivity|].
  intros H. apply truthy_false_nil in H as H'. rewrite H'. split; reflexivity.
Qed.

Lemma retry_loop_spec (adapter : completion_service) (prompt : pystr)
    (remaining : nat) :
  ∀ (last_error : bool) (w : world),
  ∃ (result : pystr) (produced : world) (k : nat),
    retry_loop adapter prompt remaining [] last_error w
      = (Ok result, w ++ produced)
    ∧ (k <= remaining)%nat
    ∧ without_logs produced = attempts_trace prompt k
    ∧ (∀ i, (S i < k)%nat ->
         unusable (adapter (calls_so_far w + i)%nat prompt) = true)
    ∧ ((result = [] ∧ k = remaining
        ∧ ∀ i, (i < k)%nat ->
            unusable (adapter (calls_so_far w + i)%nat prompt) = true)
       ∨ (∃ raw j, k = S j
            ∧ adapter (calls_so_far w + j)%nat prompt = Reply raw
            ∧ result = clean raw ∧ truthy result = true)).
Proof.
  induction remaining as [|remaining IH]; intros last_error w.
  - exists [], (if last_error then [EvLog Error] else []), 0%nat.
    simpl. destruct last_error; run_M; rewrite ?app_nil_r;
      (split; [reflexivity|]); (split; [lia|]); (split; [reflexivity|]);
      (split; [intros; lia|]); left; repeat split; intros; lia.
  - simpl. run_M.
    destruct (adapter (calls_so_far w) prompt) as [raw|] eqn:Hr.
    + destruct (truthy raw && truthy (if truthy raw then clean raw else raw))
        eqn:Hok.
      * apply andb_prop in Hok as [Hraw Hres]. rewrite Hraw in Hres |- *.
        exists (clean raw), [EvInvoke prompt; EvLog Info], 1%nat.
        rewrite <- app_assoc. simpl.
        split; [reflexivity|]. split; [lia|]. split; [reflexivity|].
        split; [intros; lia|]. right. exists raw, 0%nat.
        rewrite Nat.add_0_r. auto.
      * apply kept_result_empty in Hok as [-> Hun].
        set (pause := if bool_decide (0 < remaining)%nat
                      then [EvSleep 2] else []).
        destruct (IH last_error
                    (w ++ [EvInvoke prompt; EvLog Warning] ++ pause))
          as (result & produced & k & Hrun & Hk & Htr & Hfail & Hres).
        exists result, ([EvInvoke prompt; EvLog Warning] ++ pause ++ produced),
          (S k).
        split.
        { subst pause. destruct (bool_decide (0 < remaining)%nat); simpl in *;
            repeat rewrite <- app_assoc in *; simpl in *; exact Hrun. }
        assert (calls_so_far (w ++ [EvInvoke prompt; EvLog Warning] ++ pause)
                = S (calls_so_far w)) as Hc.
        { rewrite calls_so_far_app. subst pause.
          destruct (bool_decide (0 < remaining)%nat); vm_compute calls_so_far at 2;
            lia. }
        rewrite Hc in *.
        assert (∀ i, (i < S k)%nat -> (∀ j, (j < k)%nat ->
                  unusable (adapter (S (calls_so_far w) + j)%nat prompt) = true)
                -> unusable (adapter (calls_so_far w + i)%nat prompt) = true)
          as Hshift.
        { intros [|i] Hi Hall.
          - rewrite Nat.add_0_r, Hr. exact Hun.
          - replace (calls_so_far w + S i)%nat
              with (S (calls_so_far w) + i)%nat by lia.
            apply Hall. lia. }
        split; [lia|]. split.
        { rewrite !without_logs_app, Htr. subst pause.
          destruct (bool_decide_reflect (0 < remaining)%nat) as [Hpos|Hzero].
          - destruct k as [|k'].
            + exfalso. destruct Hres as [(_ & Hk0 & _)|(raw' & j & Hk0 & _)]; lia.
            + reflexivity.
          - assert (k = 0%nat) as -> by lia. reflexivity. }
        split.
        { intros [|i] Hi.
          - rewrite Nat.add_0_r, Hr. exact Hun.
          - replace (calls_so_far w + S i)%nat
              with (S (calls_so_far w) + i)%nat by lia.
            apply Hfail. lia. }
        destruct Hres as [(Hnil & Hkr & Hall)|(raw' & j & Hkj & Hrep & Hcl & Ht)].
        -- left. split; [exact Hnil|]. split; [lia|].
           intros i Hi. apply Hshift; [lia | exact Hall].
        -- right. exists raw', (S j). split; [lia|].
           replace (calls_so_far w + S j)%nat
             with (S (calls_so_far w) + j)%nat by lia. auto.
    + set (pause := if bool_decide (0 < remaining)%nat
                    then [EvSleep 2] else []).
      destruct (IH true (w ++ [EvInvoke prompt; EvLog Error] ++ pause))
        as (result & produced & k & Hrun & Hk & Htr & Hfail & Hres).
      exists result, ([EvInvoke prompt; EvLog Error] ++ pause ++ produced),
        (S k).
      split.
      { subst pause. destruct (bool_decide (0 < remaining)%nat); simpl in *;
          repeat rewrite <- app_assoc in *; simpl in *; exact Hrun. }
      assert (calls_so_far (w ++ [EvInvoke prompt; EvLog Error] ++ pause)
              = S (calls_so_far w)) as Hc.
      { rewrite calls_so_far_app. subst pause.
        destruct (bool_decide (0 < remaining)%nat); vm_compute calls_so_far at 2;
          lia. }
      rewrite Hc in *.
      split; [lia|]. split.
      { rewrite !without_logs_app, Htr. subst pause.
        destruct (bool_decide_reflect (0 < remaining)%nat) as [Hpos|Hzero].
        - destruct k as [|k'].
          + exfalso. destruct Hres as [(_ & Hk0 & _)|(raw' & j & Hk0 & _)]; lia.
          + reflexivity.
        - assert (k = 0%nat) as -> by lia. reflexivity. }
      split.
      { intros [|i] Hi.
        - rewrite Nat.add_0_r, Hr. reflexivity.
        - replace (calls_so_far w + S i)%nat
            with (S (calls_so_far w) + i)%nat by lia.
          apply Hfail. lia. }
      destruct Hres as [(Hnil & Hkr & Hall)|(raw' & j & Hkj & Hrep & Hcl & Ht)].
      * left. split; [exact Hnil|]. split; [lia|].
        intros [|i] Hi.
        -- rewrite Nat.add_0_r, Hr. reflexivity.
        -- replace (calls_so_far w + S i)%nat
             with (S (calls_so_far w) + i)%nat by lia.
           apply Hall. lia.
      * right. exists raw', (S j). split; [lia|].
        replace (calls_so_far w + S j)%nat
          with (S (calls_so_far w) + j)%nat by lia. auto.
Qed.


(** *** Removing the fence markers leaves none behind *)

Lemma is_prefix_spec (p s : pystr) :
  is_prefix p s = true <-> ∃ rest, s = p ++ rest.
Proof.
  revert s. induction p as [|a p IH]; intros s; simpl.
  - split; [eauto | reflexivity].
  - destruct s as [|b s].
    + split; [discriminate | intros [? ?]; discriminate].
    + rewrite andb_true_iff, bool_decide_eq_true, IH. split.
      * intros [-> [rest ->]]. eauto.
      * intros [rest [= -> ->]]. eauto.
Qed.

Lemma str_contains_spec (p s : pystr) :
  str_contains p s = true <-> ∃ before after, s = before ++ p ++ after.
Proof.
  induction s as [|c s IH].
  - simpl. rewrite orb_false_r, is_prefix_spec. split.
    + intros [rest ->]. exists [], rest. reflexivity.
    + intros (before & after & H). destruct before; simpl in H.
      * eauto.
      * discriminate.
  - change (str_contains p (c :: s))
      with (is_prefix p (c :: s) || str_contains p s).
    rewrite orb_true_iff, is_prefix_spec, IH. split.
    + intros [[rest ->]|(before & after & ->)].
      * exists [], rest. reflexivity.
      * exists (c :: before), after. reflexivity.
    + intros (before & after & H). destruct before as [|b before]; simpl in H.
      * left. eauto.
      * right. injection H as -> ->. eauto.
Qed.

Lemma lstrip_suffix (s : pystr) : ∃ before, s = before ++ lstrip s.
Proof.
  induction s as [|c s [before IH]]; simpl.
  - exists []. reflexivity.
  - destruct (isspace c).
    + exists (c :: before). simpl. congruence.
    + exists []. reflexivity.
Qed.

Lemma strip_infix (s : pystr) : ∃ before after, s = before ++ strip s ++ after.
Proof.
  unfold strip, rstrip.
  destruct (lstrip_suffix s) as [before Hb].
  destruct (lstrip_suffix (reverse (lstrip s))) as [after Ha].
  exists before, (reverse after).
  rewrite <- reverse_app, <- Ha, reverse_involutive. exact Hb.
Qed.

Lemma str_contains_strip (p s : pystr) :
  str_contains p s = false -> str_contains p (strip s) = false.
Proof.
  intros H. destruct (str_contains p (strip s)) eqn:E; [|reflexivity].
  apply str_contains_spec in E as (b & a & E).
  destruct (strip_infix s) as (before & after & Hs).
  assert (str_contains p s = true) as Hc; [|congruence].
  apply str_contains_spec. exists (before ++ b), (a ++ after).
  rewrite Hs, E. rewrite <- !app_assoc. reflexivity.
Qed.

Lemma replace_fence_step (s : pystr) :
  (∃ t, s = 96%N :: 96%N :: 96%N :: t
        ∧ str_replace fence [] s = str_replace fence [] t)
  ∨ (is_prefix fence s = false
     ∧ match s with
       | [] => str_replace fence [] s = []
       | c :: s' => str_replace fence [] s = c :: str_replace fence [] s'
       end).
Proof.
  destruct (is_prefix fence s) eqn:E.
  - left. apply is_prefix_spec in E as [t ->]. exists t. split; reflexivity.
  - right. split; [reflexivity|]. destruct s as [|c s']; [reflexivity|].
    unfold str_replace.
    change (replace_from fence [] (c :: s') 0)
      with (if is_prefix fence (c :: s')
            then [] ++ replace_from fence [] s' (length fence - 1)
            else c :: replace_from fence [] s' 0).
    rewrite E. reflexivity.
Qed.

Lemma is_prefix_fence_ticks (s : pystr) :
  is_prefix fence s = true <-> (3 <= leading_ticks s)%nat.
Proof.
  rewrite is_prefix_spec. split.
  - intros [rest ->]. simpl. lia.
  - intros H. destruct s as [|c1 [|c2 [|c3 t]]]; simpl in H;
      repeat case_bool_decide; try lia. subst. exists t. reflexivity.
Qed.

Lemma leading_ticks_replace (s : pystr) :
  leading_ticks (str_replace fence [] s) = (leading_ticks s mod 3)%nat.
Proof.
  remember (length s) as n eqn:Hn. revert s Hn.
  induction n as [n IH] using lt_wf_ind. intros s Hn.
  destruct (replace_fence_step s) as [(t & -> & ->)|[Hnp Hstep]].
  - rewrite (IH (length t)) with (s := t) by (simpl in Hn; lia || reflexivity).
    change (leading_ticks (96%N :: 96%N :: 96%N :: t))
      with (3 + leading_ticks t)%nat.
    rewrite <- Nat.Div0.add_mod_idemp_l. reflexivity.
  - destruct s as [|c s']; [rewrite Hstep; reflexivity|].
    rewrite Hstep.
    assert (leading_ticks (c :: s') < 3)%nat as Hlt.
    { destruct (le_lt_dec 3 (leading_ticks (c :: s'))) as [H|H]; [|exact H].
      apply is_prefix_fence_ticks in H. congruence. }
    rewrite (Nat.mod_small _ _ Hlt).
    cbn [leading_ticks] in *. case_bool_decide as Hc; [|reflexivity].
    rewrite (IH (length s')) with (s := s') by (simpl in Hn; lia || reflexivity).
    rewrite Nat.mod_small by lia. reflexivity.
Qed.

Lemma replace_fence_none_left (s : pystr) :
  str_contains fence (str_replace fence [] s) = false.
Proof.
  remember (length s) as n eqn:Hn. revert s Hn.
  induction n as [n IH] using lt_wf_ind. intros s Hn.
  destruct (replace_fence_step s) as [(t & -> & ->)|[Hnp Hstep]].
  - apply (IH (length t)); simpl in Hn; lia || reflexivity.
  - destruct s as [|c s']; [rewrite Hstep; reflexivity|].
    destruct (is_prefix fence (str_replace fence [] (c :: s'))) eqn:E.
    + apply is_prefix_fence_ticks in E. rewrite leading_ticks_replace in E.
      pose proof (Nat.mod_upper_bound (leading_ticks (c :: s')) 3). lia.
    + rewrite Hstep in *.
      change (str_contains fence (c :: str_replace fence [] s'))
        with (is_prefix fence (c :: str_replace fence [] s')
              || str_contains fence (str_replace fence [] s')).
      rewrite E. simpl. apply (IH (length s')); simpl in Hn; lia || reflexivity.
Qed.

(** What [clean] returns contains neither fence marker. *)
Lemma clean_no_fence (raw : pystr) :
  str_contains fence (clean raw) = false
  ∧ str_contains fence_json (clean raw) = false.
Proof.
  assert (str_contains fence (clean raw) = false) as H.
  { apply str_contains_strip, replace_fence_none_left. }
  split; [exact H|].
  destruct (str_contains fence_json (clean raw)) eqn:E; [|reflexivity].
  apply str_contains_spec in E as (b & a & E).
  assert (str_contains fence (clean raw) = true) as Hc; [|congruence].
  apply str_contains_spec. exists b, (lit "json" ++ a). rewrite E.
  reflexivity.
Qed.

Lemma calls_attempts_trace (prompt : pystr) (k : nat) :
  calls_so_far (attempts_trace prompt k) = k.
Proof.
  induction k as [|k IH]; [reflexivity|].
  destruct k as [|k]; [reflexivity|].
  change (attempts_trace prompt (S (S k)))
    with ([EvInvoke prompt; EvSleep 2] ++ attempts_trace prompt (S k)).
  rewrite calls_so_far_app, IH. reflexivity.
Qed.

(** The wrapper for any bound [max_retries]. *)
Lemma invoke_with_cleaning_spec (adapter : completion_service)
    (prompt : pystr) (max_retries : Z) (w : world) :
  ∃ (result : pystr) (produced : world) (k : nat),
    invoke_with_cleaning adapter prompt max_retries w
      = (Ok result, w ++ produced)
    ∧ (k <= Z.to_nat max_retries)%nat
    ∧ calls_so_far produced = k
    ∧ without_logs produced = attempts_trace prompt k
    ∧ (∀ i, (S i < k)%nat ->
         unusable (adapter (calls_so_far w + i)%nat prompt) = true)
    ∧ ((result = [] ∧ k = Z.to_nat max_retries
        ∧ ∀ i, (i < k)%nat ->
            unusable (adapter (calls_so_far w + i)%nat prompt) = true)
       ∨ (∃ raw j, k = S j
            ∧ adapter (calls_so_far w + j)%nat prompt = Reply raw
            ∧ result = clean raw ∧ truthy result = true)).
Proof.
  unfold invoke_with_cleaning.
  destruct (retry_loop_spec adapter prompt (Z.to_nat max_retries) false w)
    as (result & produced & k & Hrun & Hk & Htr & Hfail & Hres).
  exists result, produced, k. repeat (split; [assumption|]).
  split; [|split; [assumption|split; assumption]].
  rewrite <- calls_so_far_without_logs, Htr. apply calls_attempts_trace.
Qed.

(** ** Whitespace and cleaning *)

Lemma visible_app (s t : pystr) : visible (s ++ t) = visible s ++ visible t.
Proof. apply filter_app. Qed.

Lemma visible_cons (c : N) (s : pystr) :
  visible (c :: s) = if isspace c then visible s else c :: visible s.
Proof.
  unfold visible. rewrite filter_cons.
  destruct (isspace c) eqn:E; case_decide; congruence.
Qed.

Lemma visible_lstrip (s : pystr) : visible (lstrip s) = visible s.
Proof.
  induction s as [|c s IH]; [reflexivity|]. simpl.
  rewrite (visible_cons c s). destruct (isspace c) eqn:E; [exact IH|].
  rewrite visible_cons, E. reflexivity.
Qed.

Lemma visible_reverse (s : pystr) : visible (reverse s) = reverse (visible s).
Proof.
  induction s as [|c s IH]; [reflexivity|].
  rewrite reverse_cons, visible_app, IH, !visible_cons.
  destruct (isspace c); simpl.
  - apply app_nil_r.
  - rewrite reverse_cons. reflexivity.
Qed.

Lemma visible_strip (s : pystr) : visible (strip s) = visible s.
Proof.
  unfold strip, rstrip.
  rewrite visible_reverse, visible_lstrip, visible_reverse, reverse_involutive.
  apply visible_lstrip.
Qed.

Lemma lstrip_nil (s : pystr) : visible s = [] -> lstrip s = [].
Proof.
  induction s as [|c s IH]; [reflexivity|]. rewrite visible_cons. simpl.
  destruct (isspace c); [exact IH | discriminate].
Qed.

(** A text is blank for [strip] exactly when it has no visible
    character. *)
Lemma strip_nil_iff (s : pystr) : strip s = [] <-> visible s = [].
Proof.
  split.
  - intros H. rewrite <- visible_strip, H. reflexivity.
  - intros H. unfold strip. rewrite (lstrip_nil s H). reflexivity.
Qed.

Lemma truthy_strip_false (s : pystr) :
  truthy (strip s) = false <-> visible s = [].
Proof.
  rewrite <- strip_nil_iff. destruct (strip s); simpl; split; congruence.
Qed.

Lemma lstrip_head (c : N) (s : pystr) :
  isspace c = false -> lstrip (c :: s) = c :: s.
Proof. intros H. simpl. rewrite H. reflexivity. Qed.

Lemma rstrip_last (s : pystr) (c : N) :
  isspace c = false -> rstrip (s ++ [c]) = s ++ [c].
Proof.
  intros H. unfold rstrip. rewrite reverse_app. simpl.
  change (reverse [c]) with [c]. simpl. rewrite H.
  change (c :: reverse s) with ([c] ++ reverse s).
  rewrite reverse_app, reverse_involutive. reflexivity.
Qed.

Lemma lstrip_cases (s : pystr) :
  lstrip s = [] ∨ ∃ c t, lstrip s = c :: t ∧ isspace c = false.
Proof.
  induction s as [|c s IH]; [left; reflexivity|]. simpl.
  destruct (isspace c) eqn:E; [exact IH | right; eauto].
Qed.

Lemma rstrip_cases (s : pystr) :
  rstrip s = [] ∨ ∃ front c, rstrip s = front ++ [c] ∧ isspace c = false.
Proof.
  unfold rstrip. destruct (lstrip_cases (reverse s)) as [->|(c & t & -> & Hc)];
    [left; reflexivity|].
  right. exists (reverse t), c. split; [apply reverse_cons | exact Hc].
Qed.

Lemma rstrip_prefix (s : pystr) : ∃ after, s = rstrip s ++ after.
Proof.
  unfold rstrip. destruct (lstrip_suffix (reverse s)) as [before Hb].
  exists (reverse before).
  rewrite <- reverse_app, <- Hb, reverse_involutive. reflexivity.
Qed.

Lemma strip_idempotent (s : pystr) : strip (strip s) = strip s.
Proof.
  unfold strip at 2 3.
  destruct (rstrip_cases (lstrip s)) as [E|(front & c & E & Hc)].
  - rewrite E. reflexivity.
  - assert (lstrip (rstrip (lstrip s)) = rstrip (lstrip s)) as Hl.
    { destruct (rstrip_prefix (lstrip s)) as [after Ha].
      destruct (lstrip_cases s) as [E0|(c0 & t0 & E0 & Hc0)].
      - rewrite E0 in E. destruct front; discriminate E.
      - remember (rstrip (lstrip s)) as r eqn:Hr. rewrite E0 in Ha.
        destruct r as [|c1 t1].
        + destruct front; discriminate E.
        + injection Ha as <- _. apply lstrip_head, Hc0. }
    unfold strip. rewrite Hl, E. apply rstrip_last, Hc.
Qed.

Lemma str_contains_tail (p : pystr) (c : N) (s : pystr) :
  str_contains p (c :: s) = false ->
  is_prefix p (c :: s) = false ∧ str_contains p s = false.
Proof.
  change (str_contains p (c :: s))
    with (is_prefix p (c :: s) || str_contains p s).
  apply orb_false_elim.
Qed.

Lemma str_replace_absent (old new s : pystr) :
  str_contains old s = false -> str_replace old new s = s.
Proof.
  unfold str_replace. induction s as [|c s IH]; intros H; [reflexivity|].
  apply str_contains_tail in H as [Hp Hs].
  cbn [replace_from]. rewrite Hp. f_equal. apply IH, Hs.
Qed.









(** ** The dispatcher *)

Lemma StronglySorted_seqZ (m n : Z) : StronglySorted Z.lt (seqZ m n).
Proof.
  unfold seqZ. generalize (Z.to_nat n) as k. generalize 0%nat as a.
  intros a k. revert a. induction k as [|k IH]; intros a; simpl.
  - constructor.
  - constructor; [apply IH|].
    apply Forall_fmap, Forall_forall. intros i Hi.
    apply elem_of_seq in Hi. simpl. lia.
Qed.

Lemma StronglySorted_lt_NoDup (l : list Z) : StronglySorted Z.lt l -> NoDup l.
Proof.
  induction 1 as [|x l Hs IH Hall]; constructor; [|exact IH].
  intros Hin. rewrite Forall_forall in Hall. specialize (Hall x Hin). lia.
Qed.

Lemma StronglySorted_filter {A} (R : relation A) (P : A -> Prop)
    `{∀ x, Decision (P x)} (l : list A) :
  StronglySorted R l -> StronglySorted R (filter P l).
Proof.
  induction 1 as [|x l Hs IH Hall]; [constructor|].
  rewrite filter_cons. destruct (decide (P x)); [|exact IH].
  constructor; [exact IH|].
  apply Forall_forall. intros y Hy. apply list_elem_of_filter in Hy as [_ Hy].
  rewrite Forall_forall in Hall. auto.
Qed.

Lemma record_result_lookup (task : segment -> res json)
    (segment_data : segment) (results_dict : gmap Z json) (k : Z) :
  record_result task results_dict segment_data !! k
  = if decide (k = order segment_data)
    then match surviving task segment_data with
         | Some result => Some result
         | None => results_dict !! k
         end
    else results_dict !! k.
Proof.
  unfold record_result, surviving.
  destruct (task segment_data) as [result|e]; [|case_decide; reflexivity].
  destruct (is_none result); simpl; case_decide; subst;
    rewrite ?lookup_insert_eq, ?lookup_insert_ne by congruence; reflexivity.
Qed.

(** After the collection loop, whatever the order of completion, the
    entry at a chunk's order is what survives of that chunk's task. *)
Lemma collected_lookup (task : segment -> res json)
    (completed : list segment) :
  NoDup (order <$> completed) ->
  ∀ results_dict : gmap Z json,
    (∀ segment_data, segment_data ∈ completed ->
       fold_left (record_result task) completed results_dict
         !! order segment_data
       = match surviving task segment_data with
         | Some result => Some result
         | None => results_dict !! order segment_data
         end)
    ∧ (∀ k, k ∉ order <$> completed ->
         fold_left (record_result task) completed results_dict !! k
         = results_dict !! k).
Proof.
  induction completed as [|c cs IH]; intros Hnd results_dict.
  - split; [intros s Hs; inversion Hs | reflexivity].
  - rewrite fmap_cons in Hnd. apply NoDup_cons in Hnd as [Hc Hnd].
    destruct (IH Hnd (record_result task results_dict c)) as [Hin Hout].
    simpl. split.
    + intros s Hs. apply elem_of_cons in Hs as [->|Hs].
      * rewrite Hout by exact Hc. rewrite record_result_lookup.
        rewrite decide_True by reflexivity. reflexivity.
      * rewrite Hin by exact Hs. rewrite record_result_lookup.
        rewrite decide_False; [reflexivity|].
        intros E. apply Hc. rewrite <- E. apply list_elem_of_fmap_2, Hs.
    + intros k Hk. rewrite ?fmap_cons in Hk. apply not_elem_of_cons in Hk.
      destruct Hk as [Hne Hk]. rewrite Hout by exact Hk.
      rewrite record_result_lookup, decide_False by exact Hne. reflexivity.
Qed.

Lemma dispatch_spec (max_workers : Z) (task : segment -> res json)
    (completed segments : list segment) :
  0 < max_workers ->
  NoDup (order <$> segments) ->
  completed ≡ₚ segments ->
  dispatch max_workers task completed segments
  = Ok (omap (surviving task) segments).
Proof.
  intros Hw Hnd Hperm. unfold dispatch.
  destruct (max_workers <=? 0) eqn:E; [apply Z.leb_le in E; lia|].
  f_equal. unfold rebuild.
  assert (NoDup (order <$> completed)) as Hnd' by (rewrite Hperm; exact Hnd).
  destruct (collected_lookup task completed Hnd' ∅) as [Hin _].
  assert (∀ s, s ∈ segments ->
            fold_left (record_result task) completed ∅ !! order s
            = surviving task s) as Hall.
  { intros s Hs. rewrite Hin by (rewrite Hperm; exact Hs).
    destruct (surviving task s); [reflexivity | apply lookup_empty]. }
  apply list_omap_ext, Forall2_same_length_lookup_2; [reflexivity|].
  intros i s s' Hs Hs'. assert (s' = s) as -> by congruence.
  apply Hall. eapply list_elem_of_lookup_2, Hs.
Qed.

(** C1.  For chunks numbered 1..N, any pool size in [1, N] and any order
    of completion, the dispatcher returns exactly the results of the
    tasks that returned something other than [None] (a task that raised
    or returned [None] leaves nothing in the output), in the order of the
    chunks, whose numbers are strictly increasing. *)
Theorem dispatch_order_preserving (json_loads : pystr -> option json)
    (prompt_definitions : res prompt_templates) (self : KnowledgeParser)
    (segments : list segment)
    (extraction_type prompt_template_name context_query : pystr) :
  order <$> segments = seqZ 1 (len segments) ->
  1 <= max_concurrent_requests self <= len segments ->
  completion_order self segments ≡ₚ segments ->
  let task := task_result json_loads prompt_definitions self extraction_type
                prompt_template_name context_query in
  _process_segment_concurrently json_loads prompt_definitions self segments
    extraction_type prompt_template_name context_query
  = Ok (omap (surviving task) segments)
  ∧ StronglySorted Z.lt
      (order <$> filter (fun s => is_Some (surviving task s)) segments).
Proof.
  intros Horders Hpool Hperm task.
  assert (StronglySorted Z.lt (order <$> segments)) as Hsorted.
  { rewrite Horders. apply StronglySorted_seqZ. }
  split.
  - unfold _process_segment_concurrently. apply dispatch_spec.
    + lia.
    + apply StronglySorted_lt_NoDup, Hsorted.
    + exact Hperm.
  - clear -Hsorted. induction segments as [|s segments IH]; [constructor|].
    rewrite fmap_cons in Hsorted. apply StronglySorted_inv in Hsorted as [Hs Hall].
    rewrite filter_cons. destruct (decide (is_Some (surviving task s)));
      [|apply IH, Hs].
    rewrite fmap_cons. constructor; [apply IH, Hs|].
    apply Forall_forall. intros k Hk.
    apply list_elem_of_fmap in Hk as (s' & -> & Hs').
    apply list_elem_of_filter in Hs' as [_ Hs'].
    rewrite Forall_forall in Hall. apply Hall.
    apply list_elem_of_fmap_2, Hs'.
Qed.

(** ** The merger *)

Section MergerFacts.

Variable py_str : json -> pystr.
Variable json_loads : pystr -> option json.
Variable json_dumps : list json -> pystr.
Variable _build_merge_prompt : pystr -> pystr -> pystr.
Variable self : KnowledgeParser.

Local Abbreviation fallback := (_fallback_merge_group py_str).
Local Abbreviation ai_merge :=
  (_ai_merge_group py_str json_loads json_dumps _build_merge_prompt self).
Local Abbreviation groups :=
  (merge_groups py_str json_loads json_dumps _build_merge_prompt self).
Local Abbreviation levels :=
  (merge_levels py_str json_loads json_dumps _build_merge_prompt self).
Local Abbreviation hierarchical :=
  (_hierarchical_merge_results py_str json_loads json_dumps
     _build_merge_prompt self).

(** The two ways a group of two or more is merged: the parsed reply of
    the completion service, or the structural fallback. *)
Lemma ai_merge_group_cases (group : list json)
    (merge_func : json -> json -> res json) (extraction_type : pystr)
    (w : world) :
  (2 <= length group)%nat ->
  ∃ (reply : pystr) (w1 : world),
    invoke_with_cleaning (llm_adapter self)
      (_build_merge_prompt (json_dumps group) extraction_type)
      default_max_retries (w ++ [EvLog Info]) = (Ok reply, w1)
    ∧ ((truthy (strip reply) = true
        ∧ ∃ merged_data, json_loads reply = Some merged_data
            ∧ ai_merge group merge_func extraction_type w
              = (Ok merged_data, w1 ++ [EvLog Info]))
       ∨ ((truthy (strip reply) = false ∨ json_loads reply = None)
          ∧ ∃ w', ai_merge group merge_func extraction_type w
                  = (fallback group merge_func extraction_type, w'))).
Proof.
  intros Hlen. destruct group as [|a [|b group]]; simpl in Hlen; try lia.
  destruct (invoke_with_cleaning_spec (llm_adapter self)
              (_build_merge_prompt (json_dumps (a :: b :: group))
                 extraction_type)
              default_max_retries (w ++ [EvLog Info]))
    as (reply & produced & k & Hrun & _).
  exists reply, ((w ++ [EvLog Info]) ++ produced). split; [exact Hrun|].
  unfold _ai_merge_group. run_M. rewrite Hrun.
  destruct (truthy (strip reply)) eqn:Hblank; simpl.
  - destruct (json_loads reply) as [merged_data|] eqn:Hparse.
    + left. split; [reflexivity|]. exists merged_data.
      split; reflexivity.
    + right. split; [right; reflexivity|].
      destruct (fallback (a :: b :: group) merge_func extraction_type);
        eauto.
  - right. split; [left; reflexivity|].
    destruct (fallback (a :: b :: group) merge_func extraction_type);
      eauto.
Qed.

(** One level yields at most one result per group. *)
Lemma merge_groups_length (current_results : list json)
    (merge_func : json -> json -> res json) (extraction_type : pystr)
    (group_size : Z) (starts : list Z) :
  ∀ (next_level_results : list json) (w : world) (out : list json)
    (w' : world),
    groups current_results merge_func extraction_type group_size starts
      next_level_results w = (Ok out, w') ->
    (length out <= length next_level_results + length starts)%nat.
Proof.
  induction starts as [|i starts IH]; intros next w out w' Hrun.
  - run_M. injection Hrun as <- _. lia.
  - simpl in Hrun. unfold mbind, M_bind in Hrun.
    destruct (ai_merge _ merge_func extraction_type w) as [[merged|e] w1];
      [|discriminate Hrun].
    apply IH in Hrun. destruct (is_none merged); simpl in *;
      rewrite ?length_app in Hrun; simpl in *; lia.
Qed.

Lemma range_from_length (n : nat) (start step : Z) :
  length (range_from n start step) = n.
Proof. revert start. induction n; simpl; intros; auto. Qed.

(** [⌈n / g⌉ < n] for [n >= 2] and [g >= 2]. *)
Lemma py_range_shrinks (n group_size : Z) :
  2 <= group_size -> 2 <= n ->
  ∃ starts, py_range 0 n group_size = Ok starts
            ∧ (Z.of_nat (length starts) < n).
Proof.
  intros Hg Hn. unfold py_range.
  destruct (group_size =? 0) eqn:E0; [apply Z.eqb_eq in E0; lia|].
  destruct (0 <? group_size) eqn:E1; [|apply Z.ltb_ge in E1; lia].
  eexists. split; [reflexivity|]. rewrite range_from_length.
  rewrite Z2Nat.id by (apply Z.div_pos; lia).
  apply Z.div_lt_upper_bound; nia.
Qed.

Lemma merge_levels_step (merge_func : json -> json -> res json)
    (extraction_type : pystr) (group_size : Z) (fuel : nat)
    (current_results : list json) (starts : list Z) (w : world) :
  1 < len current_results ->
  py_range 0 (len current_results) group_size = Ok starts ->
  levels (S fuel) current_results merge_func extraction_type group_size w
  = match groups current_results merge_func extraction_type group_size
            starts [] (w ++ [EvLog Info]) with
    | (Ok next_level_results, w1) =>
        levels fuel next_level_results merge_func extraction_type
          group_size (w1 ++ [EvLog Info])
    | (Raise e, w1) => (Raise e, w1)
    end.
Proof.
  intros Hlen Hstarts. apply Z.ltb_lt in Hlen.
  simpl. rewrite Hlen. unfold mbind, M_bind, log, emit, lift.
  rewrite Hstarts.
  destruct (groups current_results merge_func extraction_type group_size
              starts [] (w ++ [EvLog Info])) as [[next|e] w1]; reflexivity.
Qed.

Lemma merge_levels_done (merge_func : json -> json -> res json)
    (extraction_type : pystr) (group_size : Z) (fuel : nat)
    (current_results : list json) (w : world) :
  len current_results <= 1 ->
  levels fuel current_results merge_func extraction_type group_size w
  = (Ok (Some (match current_results with
               | first :: _ => first
               | [] => empty_value extraction_type
               end)), w ++ [EvLog Info]).
Proof.
  intros Hlen. apply Z.ltb_ge in Hlen.
  destruct fuel; simpl; rewrite Hlen; reflexivity.
Qed.


(** The structural fallback with [_merge_worldview_data] cannot raise
    and returns a mapping. *)
Lemma fallback_worldview_mapping (group : list json)
    (extraction_type : pystr) :
  extraction_type ≠ CHARACTERS ->
  ∃ d, fallback group (worldview_merge_func py_str) extraction_type
       = Ok (JDict d).
Proof.
  intros Hne. unfold _fallback_merge_group.
  rewrite bool_decide_false by exact Hne.
  generalize (@nil (pystr * json)) as d0.
  induction group as [|item group IH]; intros d0; simpl; [eauto|].
  destruct item as [| | | | |n]; try apply IH.
  unfold worldview_merge_func, _merge_worldview_data. simpl.
  destruct d0 as [|kv d0]; simpl; [apply IH|].
  destruct n as [|kv' n]; simpl; apply IH.
Qed.

(** The structural fallback for characters returns a list whenever it
    returns. *)
Lemma fallback_characters_list (group : list json)
    (merge_func : json -> json -> res json) :
  (∃ l, fallback group merge_func CHARACTERS = Ok (JList l))
  ∨ (∃ e, fallback group merge_func CHARACTERS = Raise e).
Proof.
  unfold _fallback_merge_group. rewrite bool_decide_true by reflexivity.
  unfold mbind, res_bind.
  destruct (fold_res _ group []); eauto.
Qed.

Lemma ai_merge_worldview_returns (group : list json)
    (extraction_type : pystr) (w : world) :
  extraction_type ≠ CHARACTERS ->
  ∃ v w', ai_merge group (worldview_merge_func py_str) extraction_type w
          = (Ok v, w').
Proof.
  intros Hne. destruct group as [|a [|b group]]; [simpl; eauto..|].
  destruct (ai_merge_group_cases (a :: b :: group)
              (worldview_merge_func py_str) extraction_type w)
    as (reply & w1 & _ & [(_ & merged & _ & Hrun)|(_ & w' & Hrun)]);
    [simpl; lia|eauto|].
  destruct (fallback_worldview_mapping (a :: b :: group) extraction_type Hne)
    as [d Hd].
  rewrite Hd in Hrun. eauto.
Qed.

Lemma merge_groups_worldview_returns (current_results : list json)
    (extraction_type : pystr) (group_size : Z) (starts : list Z) :
  extraction_type ≠ CHARACTERS ->
  ∀ (next_level_results : list json) (w : world),
    ∃ out w', groups current_results (worldview_merge_func py_str)
                extraction_type group_size starts next_level_results w
              = (Ok out, w').
Proof.
  intros Hne. induction starts as [|i starts IH]; intros next w.
  - simpl. run_M. eauto.
  - simpl. unfold mbind, M_bind.
    destruct (ai_merge_worldview_returns
                (slice current_results i (i + group_size))
                extraction_type w Hne) as (v & w1 & ->).
    apply IH.
Qed.

Lemma merge_levels_worldview_returns (extraction_type : pystr)
    (group_size : Z) (fuel : nat) :
  2 <= group_size -> extraction_type ≠ CHARACTERS ->
  ∀ (current_results : list json) (w : world),
    (length current_results <= fuel)%nat ->
    ∃ v w', levels fuel current_results (worldview_merge_func py_str)
              extraction_type group_size w = (Ok (Some v), w').
Proof.
  intros Hg Hne. induction fuel as [|fuel IH]; intros current w Hfuel.
  - rewrite merge_levels_done by (unfold len; lia). eauto.
  - destruct (Z.le_gt_cases (len current) 1) as [Hlen|Hlen].
    + rewrite merge_levels_done by exact Hlen. eauto.
    + destruct (py_range_shrinks (len current) group_size Hg ltac:(lia))
        as (starts & Hstarts & Hshort).
      rewrite (merge_levels_step _ _ _ _ _ starts) by (lia || exact Hstarts).
      destruct (merge_groups_worldview_returns current extraction_type
                  group_size starts Hne [] (w ++ [EvLog Info]))
        as (next & w1 & Hnext).
      rewrite Hnext. apply merge_groups_length in Hnext. simpl in Hnext.
      apply IH. unfold len in *. lia.
Qed.


End MergerFacts.

(** ** Names under the structural merge *)

Section CharacterNames.

Variable py_str : json -> pystr.

Lemma merge_dict_data_fold (base_dict new_dict : dict) :
  _merge_dict_data py_str base_dict new_dict
  = fold_left (merge_dict_key py_str) new_dict base_dict.
Proof.
  unfold _merge_dict_data. revert base_dict.
  induction new_dict as [|[key value] rest IH]; intros base_dict;
    [reflexivity|].
  simpl. rewrite <- IH. unfold merge_dict_key, _merge_dict_data.
  destruct (dict_get key base_dict) as [cur|]; [|reflexivity].
  destruct value, cur; reflexivity.
Qed.

Lemma dict_get_set (key k : pystr) (value : json) (d : dict) :
  dict_get k (dict_set key value d)
  = if bool_decide (key = k) then Some value else dict_get k d.
Proof.
  induction d as [|[k' v'] d IH]; simpl.
  - case_bool_decide; reflexivity.
  - destruct (bool_decide_reflect (k' = key)) as [->|Hne]; simpl.
    + destruct (bool_decide_reflect (key = k)); reflexivity.
    + destruct (bool_decide_reflect (k' = k)) as [->|Hne'].
      * rewrite bool_decide_false by congruence. reflexivity.
      * exact IH.
Qed.

Lemma dict_get_cons (k key : pystr) (value : json) (d : dict) :
  dict_get k ((key, value) :: d)
  = if bool_decide (key = k) then Some value else dict_get k d.
Proof. reflexivity. Qed.

(** One key of the incoming dict leaves the name of the entry as it
    is, once the entry has a value under "name" or the key brings no
    name. *)
Lemma merge_dict_key_name (merged : dict) (key : pystr) (value : json) :
  is_Some (dict_get (lit "name") merged)
  ∨ (key = lit "name" -> name_value (Some value) = None) ->
  name_value (dict_get (lit "name") (merge_dict_key py_str merged (key, value)))
  = name_value (dict_get (lit "name") merged)
  ∧ (is_Some (dict_get (lit "name") merged) ∨ key = lit "name" ->
     is_Some (dict_get (lit "name")
                (merge_dict_key py_str merged (key, value)))).
Proof.
  intros Hc. unfold merge_dict_key.
  destruct (bool_decide_reflect (key = lit "name")) as [->|Hne].
  - destruct (dict_get (lit "name") merged) as [cur|] eqn:Hcur.
    + destruct value, cur; rewrite ?dict_get_set, ?bool_decide_true, ?Hcur
        by reflexivity; split; eauto.
    + rewrite dict_get_set, bool_decide_true by reflexivity.
      destruct Hc as [[? [=]]|Hc]. rewrite Hc by reflexivity. split; eauto.
  - assert (∀ v, dict_get (lit "name") (dict_set key v merged)
                 = dict_get (lit "name") merged) as Hset.
    { intros v. rewrite dict_get_set, bool_decide_false by exact Hne.
      reflexivity. }
    destruct (dict_get key merged) as [cur|]; [|rewrite Hset; tauto].
    destruct value, cur; rewrite ?Hset; tauto.
Qed.

Lemma merge_dict_data_name (e n : dict) :
  is_Some (dict_get (lit "name") e)
  ∨ name_value (dict_get (lit "name") n) = None ->
  name_value (dict_get (lit "name") (_merge_dict_data py_str e n))
  = name_value (dict_get (lit "name") e).
Proof.
  rewrite merge_dict_data_fold. revert e.
  induction n as [|[key value] rest IH]; intros e Hc; [reflexivity|].
  simpl fold_left.
  assert (is_Some (dict_get (lit "name") e)
          ∨ (key = lit "name" -> name_value (Some value) = None)) as Hc1.
  { destruct Hc as [Hc|Hc]; [left; exact Hc|]. right. intros ->.
    rewrite dict_get_cons, bool_decide_true in Hc by reflexivity.
    exact Hc. }
  destruct (merge_dict_key_name e key value Hc1) as [Hname Hsome].
  rewrite IH; [exact Hname|].
  destruct Hc as [Hc|Hc]; [left; apply Hsome; left; exact Hc|].
  destruct (bool_decide_reflect (key = lit "name")) as [Hk|Hk].
  - left. apply Hsome. right. exact Hk.
  - right. rewrite dict_get_cons, bool_decide_false in Hc by exact Hk.
    exact Hc.
Qed.

Lemma py_eq_str_refl (s : pystr) : py_eq (JStr s) (JStr s) = true.
Proof. simpl. apply bool_decide_eq_true. reflexivity. Qed.

Lemma py_eq_null_l (x : json) : py_eq JNull x = true -> x = JNull.
Proof. destruct x; simpl; congruence. Qed.

Lemma name_value_some (o : option json) (s : pystr) :
  name_value o = Some s -> o = Some (JStr s).
Proof.
  destruct o as [[| | |t| |]|]; simpl; try discriminate.
  destruct (truthy t); [|discriminate]. congruence.
Qed.

Lemma in_names_app (x : json) (names more : pyset) :
  in_names x (names ++ more) <-> in_names x names ∨ in_names x more.
Proof. unfold in_names. rewrite existsb_app, orb_true_iff. tauto. Qed.

Lemma set_add_spec (x : json) (names names' : pyset) :
  set_add x names = Ok names' ->
  (∀ y, in_names y names -> in_names y names')
  ∧ (py_eq x x = true -> in_names x names').
Proof.
  unfold set_add. destruct (hashable x); [|discriminate].
  destruct (existsb (py_eq x) names) eqn:E; intros [= <-].
  - split; [auto|]. intros _. exact E.
  - split.
    + intros y Hy. apply in_names_app. left. exact Hy.
    + intros Hx. apply in_names_app. right. unfold in_names. simpl.
      rewrite Hx. reflexivity.
Qed.

Lemma omap_cons_same {A B} (f : A -> option B) (x x' : A) (l l' : list A) :
  f x = f x' -> omap f l = omap f l' -> omap f (x :: l) = omap f (x' :: l').
Proof.
  intros Hx Hl. change (omap f (x :: l))
    with (match f x with Some y => y :: omap f l | None => omap f l end).
  change (omap f (x' :: l'))
    with (match f x' with Some y => y :: omap f l' | None => omap f l' end).
  rewrite Hx, Hl. reflexivity.
Qed.

Lemma names_of_spec (chars : list json) :
  ∀ (acc existing_names : pyset),
    names_of chars acc = Ok existing_names ->
    (∀ x, in_names x acc -> in_names x existing_names)
    ∧ (∀ s, s ∈ omap entry_name chars -> in_names (JStr s) existing_names).
Proof.
  induction chars as [|char rest IH]; intros acc existing Hrun.
  - injection Hrun as <-. split; [auto|]. intros s Hs. inversion Hs.
  - simpl in Hrun. destruct char as [| | | | |d]; try discriminate Hrun.
    unfold mbind, res_bind in Hrun. simpl in Hrun.
    destruct (set_add (default (JStr []) (dict_get (lit "name") d)) acc)
      as [acc'|e] eqn:Hadd; [|discriminate Hrun].
    apply set_add_spec in Hadd as [Hmono Hnew].
    apply IH in Hrun as [Hmono' Hrest]. split; [auto|].
    intros s Hs.
    change (omap entry_name (JDict d :: rest))
      with (match name_value (dict_get (lit "name") d) with
            | Some y => y :: omap entry_name rest
            | None => omap entry_name rest
            end) in Hs.
    destruct (name_value (dict_get (lit "name") d)) as [s'|] eqn:Hn;
      [|auto].
    apply elem_of_cons in Hs as [->|Hs]; [|auto].
    apply name_value_some in Hn. rewrite Hn in Hnew. simpl in Hnew.
    apply Hmono', Hnew, py_eq_str_refl.
Qed.

Lemma merge_into_existing_names (n : dict) (merged : list json) :
  ∀ merged',
    merge_into_existing py_str merged
      (default (JStr []) (dict_get (lit "name") n)) (JDict n) = Ok merged' ->
    omap entry_name merged' = omap entry_name merged.
Proof.
  induction merged as [|existing_char rest IH]; intros merged' Hrun.
  - injection Hrun as <-. reflexivity.
  - simpl in Hrun.
    destruct existing_char as [| | | | |e]; try discriminate Hrun.
    unfold mbind, res_bind in Hrun. simpl in Hrun.
    destruct (py_eq (default JNull (dict_get (lit "name") e))
                (default (JStr []) (dict_get (lit "name") n))) eqn:Heq.
    + injection Hrun as <-. apply omap_cons_same; [|reflexivity].
      simpl. apply merge_dict_data_name.
      destruct (dict_get (lit "name") e) as [v|]; [left; eauto|].
      right. simpl in Heq. apply py_eq_null_l in Heq.
      destruct (dict_get (lit "name") n) as [v|]; simpl in Heq;
        [subst v; reflexivity | discriminate Heq].
    + destruct (merge_into_existing py_str rest _ (JDict n)) as [rest'|]
        eqn:Hrest; [|discriminate Hrun].
      injection Hrun as <-. apply omap_cons_same; [reflexivity|].
      apply IH. reflexivity.
Qed.

Lemma merge_character_inv (merged existing_names : pyset) (new_char : json)
    (merged' existing_names' : pyset) :
  names_inv merged existing_names ->
  merge_character py_str (merged, existing_names) new_char
    = Ok (merged', existing_names') ->
  names_inv merged' existing_names'.
Proof.
  intros [Hdistinct Hknown] Hrun. unfold merge_character in Hrun.
  destruct new_char as [| | | | |n]; try discriminate Hrun.
  unfold mbind, res_bind in Hrun. simpl in Hrun.
  set (char_name := default (JStr []) (dict_get (lit "name") n)) in *.
  assert (∀ out, merge_into_existing py_str merged char_name (JDict n)
                 = Ok out -> names_inv out existing_names) as Hmerge.
  { intros out Hout. apply merge_into_existing_names in Hout.
    unfold names_inv, distinct_names. rewrite Hout. split; assumption. }
  assert (∀ unseen : bool,
            (unseen = true ->
             json_truthy char_name = true
             ∧ set_mem char_name existing_names = Ok false) ->
            (if unseen
             then existing' ← set_add char_name existing_names;
                  Ok (merged ++ [JDict n], existing')
             else seen ← set_mem char_name existing_names;
                  if seen : bool
                  then out ← merge_into_existing py_str merged char_name
                               (JDict n);
                       Ok (out, existing_names)
                  else Ok (merged, existing_names))
            = Ok (merged', existing_names') ->
            names_inv merged' existing_names') as Hbranch.
  { intros [|] Hun Hbr; unfold mbind, res_bind in Hbr.
    - destruct (Hun eq_refl) as [Ht Hmem].
      destruct (set_add char_name existing_names) as [existing'|] eqn:Hadd;
        [|discriminate Hbr].
      injection Hbr as <- <-. apply set_add_spec in Hadd as [Hmono Hnew].
      unfold set_mem in Hmem. destruct (hashable char_name);
        [|discriminate Hmem]. injection Hmem as Hmem.
      unfold names_inv, distinct_names. rewrite omap_app.
      change (omap entry_name [JDict n])
        with (match name_value (dict_get (lit "name") n) with
              | Some y => [y] | None => [] end).
      destruct (name_value (dict_get (lit "name") n)) as [s|] eqn:Hn.
      + apply name_value_some in Hn.
        assert (char_name = JStr s) as Hcn by (subst char_name; rewrite Hn;
                                               reflexivity).
        split.
        * apply NoDup_app. split; [exact Hdistinct|]. split.
          -- intros x Hx Hx'. apply list_elem_of_singleton in Hx'. subst x.
             apply Hknown in Hx. unfold in_names in Hx.
             rewrite <- Hcn in Hx. congruence.
          -- apply NoDup_singleton.
        * intros s' Hs'. apply elem_of_app in Hs' as [Hs'|Hs'].
          -- apply Hmono, Hknown, Hs'.
          -- apply list_elem_of_singleton in Hs'. subst s'.
             rewrite <- Hcn. apply Hnew. rewrite Hcn. apply py_eq_str_refl.
      + rewrite app_nil_r. split; [exact Hdistinct|].
        intros s' Hs'. apply Hmono, Hknown, Hs'.
    - destruct (set_mem char_name existing_names) as [[|]|]; try discriminate Hbr.
      + destruct (merge_into_existing py_str merged char_name (JDict n))
          as [out|] eqn:Hout; [|discriminate Hbr].
        injection Hbr as <- <-. apply Hmerge. reflexivity.
      + injection Hbr as <- <-. split; assumption. }
  destruct (json_truthy char_name) eqn:Ht.
  - destruct (set_mem char_name existing_names) as [seen|] eqn:Hmem;
      [|discriminate Hrun].
    apply (Hbranch (negb seen)); [|exact Hrun].
    intros Hs. destruct seen; [discriminate Hs|]. auto.
  - apply (Hbranch false); [discriminate|exact Hrun].
Qed.

Lemma merge_characters_inv (new_list : list json) :
  ∀ (merged existing_names merged' existing_names' : pyset),
    names_inv merged existing_names ->
    merge_characters py_str (merged, existing_names) new_list
      = Ok (merged', existing_names') ->
    names_inv merged' existing_names'.
Proof.
  induction new_list as [|new_char rest IH];
    intros merged existing merged' existing' Hinv Hrun.
  - injection Hrun as <- <-. exact Hinv.
  - cbn [merge_characters] in Hrun. unfold mbind, res_bind in Hrun.
    destruct (merge_character py_str (merged, existing) new_char)
      as [[merged1 existing1]|] eqn:Hstep; [|discriminate Hrun].
    eapply IH; [|exact Hrun]. eapply merge_character_inv; eassumption.
Qed.

(** Merging into a list with distinct names gives a list with distinct
    names. *)
Lemma merge_character_lists_distinct (base_list new_list out : list json) :
  distinct_names base_list -> distinct_names new_list ->
  _merge_character_lists py_str base_list new_list = Ok out ->
  distinct_names out.
Proof.
  intros Hbase Hnew Hrun. unfold _merge_character_lists in Hrun.
  destruct base_list as [|b base]; [injection Hrun as <-; exact Hnew|].
  destruct new_list as [|c new]; [injection Hrun as <-; exact Hbase|].
  simpl truthy in Hrun. simpl negb in Hrun. cbv iota in Hrun.
  unfold mbind, res_bind in Hrun.
  destruct (names_of (b :: base) []) as [existing|] eqn:Hnames;
    [|discriminate Hrun].
  destruct (merge_characters py_str (b :: base, existing) (c :: new))
    as [[merged' existing']|] eqn:Hmerge; [|discriminate Hrun].
  injection Hrun as <-. apply names_of_spec in Hnames as [_ Hknown].
  apply (merge_characters_inv _ _ _ _ _ (conj Hbase Hknown)) in Hmerge.
  apply Hmerge.
Qed.

(** The structural fallback on lists with distinct names. *)
Lemma fallback_characters_distinct (group : list json)
    (merge_func : json -> json -> res json) (out : json) :
  Forall distinct_names_in group ->
  _fallback_merge_group py_str group merge_func CHARACTERS = Ok out ->
  ∃ l, out = JList l ∧ distinct_names l.
Proof.
  intros Hgroup Hrun. unfold _fallback_merge_group in Hrun.
  rewrite bool_decide_true in Hrun by reflexivity.
  unfold mbind, res_bind in Hrun.
  match type of Hrun with
  | match fold_res ?f group [] with _ => _ end = _ =>
      destruct (fold_res f group []) as [result|] eqn:Hfold;
        [|discriminate Hrun];
      assert (∀ acc, distinct_names acc -> ∀ result',
                fold_res f group acc = Ok result' -> distinct_names result')
        as Hinv
  end.
  { clear Hfold Hrun. induction Hgroup as [|item group Hitem _ IH];
      intros acc Hacc result' Hf.
    - injection Hf as <-. exact Hacc.
    - simpl in Hf. unfold mbind, res_bind in Hf.
      destruct item as [| | | |l|]; try (eapply IH; eassumption).
      destruct (_merge_character_lists py_str acc l) as [acc'|] eqn:Hm;
        [|discriminate Hf].
      eapply IH; [|exact Hf].
      simpl in Hitem.
      exact (merge_character_lists_distinct acc l acc' Hacc Hitem Hm). }
  injection Hrun as <-. exists result. split; [reflexivity|].
  assert (distinct_names []) as Hnil by (unfold distinct_names; constructor).
  apply (Hinv [] Hnil result Hfold).
Qed.

End CharacterNames.

(** ** Names of any type under the structural merge *)

Section NamesOfAnyType.

Variable py_str : json -> pystr.

Lemma py_eq_key (a b : json) :
  hashable a = true -> hashable b = true ->
  (py_eq a b = true <-> name_key a = name_key b).
Proof.
  destruct a as [|x|n|s|l|d], b as [|y|m|t|l'|d']; try discriminate;
    intros _ _; cbn [py_eq name_key];
    try (split; [discriminate | congruence]); try tauto.
  - rewrite bool_decide_eq_true. destruct x, y; split; congruence.
  - rewrite Z.eqb_eq. split; congruence.
  - rewrite Z.eqb_eq. split; congruence.
  - rewrite Z.eqb_eq. split; congruence.
  - rewrite bool_decide_eq_true. split; congruence.
Qed.

Lemma py_eq_hashable (a b : json) :
  py_eq a b = true -> hashable b = true -> hashable a = true.
Proof.
  destruct a, b; try reflexivity; try discriminate.
Qed.

Lemma py_eq_bool_key (a b e : json) :
  hashable a = true -> hashable b = true -> hashable e = true ->
  name_key a = name_key b -> py_eq a e = py_eq b e.
Proof.
  intros Ha Hb He Hab. apply Bool.eq_iff_eq_true.
  rewrite !py_eq_key by assumption. rewrite Hab. tauto.
Qed.

Lemma known_key (a b : json) (names : pyset) :
  Forall (fun name => hashable name = true) names ->
  hashable a = true -> hashable b = true ->
  name_key a = name_key b ->
  existsb (py_eq a) names = existsb (py_eq b) names.
Proof.
  intros Hnames Ha Hb Hab.
  induction Hnames as [|e names He _ IH]; [reflexivity|].
  cbn [existsb]. rewrite IH, (py_eq_bool_key a b e) by assumption.
  reflexivity.
Qed.

Lemma pairwise_unequal_snoc (names : list json) (x : json) :
  pairwise_unequal names ->
  Forall (fun a => py_eq a x = false ∧ py_eq x a = false) names ->
  pairwise_unequal (names ++ [x]).
Proof.
  induction names as [|a names IH]; intros Hd Hx.
  - cbn. split; [constructor | exact I].
  - destruct Hd as [Ha Hd]. apply Forall_cons in Hx as [Hax Hx].
    cbn [app pairwise_unequal]. split; [|apply IH; assumption].
    apply Forall_app. split; [exact Ha|]. constructor; [|constructor].
    exact Hax.
Qed.

Lemma merge_dict_key_untouched (key : pystr) (merged : dict) (k : pystr)
    (v : json) :
  k ≠ key ->
  dict_get key (merge_dict_key py_str merged (k, v)) = dict_get key merged.
Proof.
  intros Hne. unfold merge_dict_key.
  destruct (dict_get k merged) as [c|];
    [destruct v, c; try reflexivity|];
    rewrite dict_get_set, bool_decide_false by exact Hne; reflexivity.
Qed.

Lemma merge_dict_data_keeps (key : pystr) (cur : json) (new_dict : dict) :
  is_list cur = false -> is_dict cur = false ->
  ∀ base_dict,
    dict_get key base_dict = Some cur ->
    dict_get key (_merge_dict_data py_str base_dict new_dict) = Some cur.
Proof.
  intros Hlist Hdict base_dict. rewrite merge_dict_data_fold.
  revert base_dict. induction new_dict as [|[k v] rest IH];
    intros base_dict Hget; [exact Hget|].
  cbn [fold_left]. apply IH.
  destruct (bool_decide_reflect (k = key)) as [->|Hne].
  - unfold merge_dict_key. rewrite Hget.
    destruct v, cur; try discriminate; exact Hget.
  - rewrite merge_dict_key_untouched by exact Hne. exact Hget.
Qed.

Lemma merge_dict_data_adds_null (key : pystr) (new_dict : dict) :
  ∀ base_dict,
    dict_get key base_dict = None ->
    dict_get key new_dict = Some JNull ->
    dict_get key (_merge_dict_data py_str base_dict new_dict) = Some JNull.
Proof.
  induction new_dict as [|[k v] rest IH]; intros base_dict Hbase Hnew;
    [discriminate Hnew|].
  rewrite dict_get_cons in Hnew.
  destruct (bool_decide_reflect (k = key)) as [->|Hne].
  - injection Hnew as ->.
    assert (_merge_dict_data py_str base_dict ((key, JNull) :: rest)
            = _merge_dict_data py_str (dict_set key JNull base_dict) rest)
      as ->.
    { rewrite !merge_dict_data_fold. cbn [fold_left].
      unfold merge_dict_key at 2. rewrite Hbase. reflexivity. }
    apply merge_dict_data_keeps; [reflexivity | reflexivity|].
    rewrite dict_get_set, bool_decide_true by reflexivity. reflexivity.
  - assert (_merge_dict_data py_str base_dict ((k, v) :: rest)
            = _merge_dict_data py_str
                (merge_dict_key py_str base_dict (k, v)) rest) as ->
      by (rewrite !merge_dict_data_fold; reflexivity).
    apply IH; [|exact Hnew].
    rewrite merge_dict_key_untouched by exact Hne. exact Hbase.
Qed.

(** Merging a new character into the entry of its name leaves every
    name of the list as it is. *)
Lemma merge_into_existing_char_names (n : dict) (merged : list json) :
  hashable (default (JStr []) (dict_get (lit "name") n)) = true ->
  ∀ merged',
    merge_into_existing py_str merged
      (default (JStr []) (dict_get (lit "name") n)) (JDict n) = Ok merged' ->
    omap char_name merged' = omap char_name merged
    ∧ (merged ≠ [] -> merged' ≠ []).
Proof.
  intros Hhash. induction merged as [|existing_char rest IH];
    intros merged' Hrun.
  - injection Hrun as <-. split; [reflexivity | congruence].
  - cbn [merge_into_existing] in Hrun. unfold mbind, res_bind in Hrun.
    destruct existing_char as [| | | | |e]; try discriminate Hrun.
    cbn [get_attr] in Hrun.
    destruct (py_eq (default JNull (dict_get (lit "name") e))
                (default (JStr []) (dict_get (lit "name") n))) eqn:Heq.
    + injection Hrun as <-. split; [|discriminate].
      cbn [omap list_omap]. f_equal.
      unfold char_name.
      destruct (dict_get (lit "name") e) as [v|] eqn:He; cbn [default] in Heq.
      * pose proof (py_eq_hashable _ _ Heq Hhash) as Hv.
        rewrite (merge_dict_data_keeps (lit "name") v n) by
          (try exact He; destruct v; try discriminate Hv; reflexivity).
        reflexivity.
      * apply py_eq_null_l in Heq.
        destruct (dict_get (lit "name") n) as [v|] eqn:Hn;
          [|discriminate Heq].
        change (v = JNull) in Heq. subst v.
        rewrite (merge_dict_data_adds_null (lit "name") n e He Hn).
        reflexivity.
    + destruct (merge_into_existing py_str rest
                  (default (JStr []) (dict_get (lit "name") n)) (JDict n))
        as [rest'|] eqn:Hrest; [|discriminate Hrun].
      injection Hrun as <-. split; [|discriminate].
      cbn [omap list_omap]. destruct (IH rest' eq_refl) as [-> _].
      reflexivity.
Qed.

Lemma set_add_hashable (x : json) (names names' : pyset) :
  set_add x names = Ok names' ->
  Forall (fun name => hashable name = true) names ->
  hashable x = true
  ∧ Forall (fun name => hashable name = true) names'
  ∧ existsb (py_eq x) names' = true
  ∧ (∀ y, existsb (py_eq y) names = true ->
          existsb (py_eq y) names' = true).
Proof.
  unfold set_add. destruct (hashable x) eqn:Hx; [|discriminate].
  intros Hrun Hnames. split; [reflexivity|].
  assert (py_eq x x = true) as Hrefl
    by (apply py_eq_key; [exact Hx | exact Hx | reflexivity]).
  destruct (existsb (py_eq x) names) eqn:E; injection Hrun as <-.
  - split; [exact Hnames|]. split; [exact E | auto].
  - split; [apply Forall_app; split; [exact Hnames | repeat constructor;
                                                      exact Hx]|].
    split; [rewrite existsb_app; cbn [existsb]; rewrite Hrefl;
            apply orb_true_iff; right; reflexivity|].
    intros y Hy. rewrite existsb_app, Hy. reflexivity.
Qed.

Lemma names_of_known (chars : list json) :
  ∀ (acc existing_names : pyset),
    names_of chars acc = Ok existing_names ->
    Forall (fun name => hashable name = true) acc ->
    Forall (fun name => hashable name = true) existing_names
    ∧ (∀ y, existsb (py_eq y) acc = true ->
            existsb (py_eq y) existing_names = true)
    ∧ Forall (fun name => hashable name = true
                          ∧ existsb (py_eq name) existing_names = true)
        (omap char_name chars).
Proof.
  induction chars as [|char rest IH]; intros acc existing Hrun Hacc.
  - injection Hrun as <-. split; [exact Hacc|]. split; [auto | constructor].
  - cbn [names_of] in Hrun. unfold mbind, res_bind in Hrun.
    destruct char as [| | | | |d]; try discriminate Hrun.
    cbn [get_attr] in Hrun.
    destruct (set_add (default (JStr []) (dict_get (lit "name") d)) acc)
      as [acc'|e] eqn:Hadd; [|discriminate Hrun].
    destruct (set_add_hashable _ _ _ Hadd Hacc)
      as (Hx & Hacc' & Hin & Hmono).
    destruct (IH acc' existing Hrun Hacc') as (Hex & Hmono' & Hrest).
    split; [exact Hex|]. split; [auto|].
    cbn [omap list_omap]. unfold char_name at 1.
    destruct (dict_get (lit "name") d) as [name|]; [|exact Hrest].
    destruct (json_truthy name); [|exact Hrest].
    constructor; [|exact Hrest]. cbn [default] in Hx, Hin. auto.
Qed.

Lemma merge_character_known (merged existing_names : pyset)
    (new_char : json) (merged' existing_names' : pyset) :
  names_known merged existing_names ->
  merge_character py_str (merged, existing_names) new_char
    = Ok (merged', existing_names') ->
  names_known merged' existing_names' ∧ (merged ≠ [] -> merged' ≠ []).
Proof.
  intros (Hdistinct & Hknown & Hnames) Hrun. unfold merge_character in Hrun.
  destruct new_char as [| | | | |n]; try discriminate Hrun.
  unfold mbind, res_bind in Hrun. cbn [get_attr] in Hrun.
  set (name := default (JStr []) (dict_get (lit "name") n)) in *.
  assert (∀ seen, set_mem name existing_names = Ok seen ->
            hashable name = true
            ∧ seen = existsb (py_eq name) existing_names) as Hmem.
  { unfold set_mem. intros seen. destruct (hashable name); [|discriminate].
    intros [= <-]. split; reflexivity. }
  assert (∀ out, hashable name = true ->
            merge_into_existing py_str merged name (JDict n) = Ok out ->
            names_known out existing_names ∧ (merged ≠ [] -> out ≠ []))
    as Hmerge.
  { intros out Hhash Hout.
    destruct (merge_into_existing_char_names n merged Hhash out Hout)
      as [Hsame Hne].
    split; [|exact Hne]. unfold names_known, distinct_by_name.
    rewrite Hsame. auto. }
  destruct (json_truthy name) eqn:Htruthy.
  - destruct (set_mem name existing_names) as [seen|] eqn:Hseen;
      [|discriminate Hrun].
    destruct (Hmem seen eq_refl) as [Hhash ->].
    destruct (existsb (py_eq name) existing_names) eqn:Hin; cbn [negb] in Hrun.
    + destruct (merge_into_existing py_str merged name (JDict n))
        as [out|] eqn:Hout; [|discriminate Hrun].
      injection Hrun as <- <-. apply Hmerge; [exact Hhash | reflexivity].
    + destruct (set_add name existing_names) as [names'|] eqn:Hadd;
        [|discriminate Hrun].
      injection Hrun as <- <-.
      destruct (set_add_hashable _ _ _ Hadd Hnames)
        as (_ & Hnames' & Hin' & Hmono).
      split; [|intros _; destruct merged; discriminate].
      assert (omap char_name (merged ++ [JDict n])
              = omap char_name merged ++ [name]) as Hnew.
      { rewrite omap_app. f_equal. cbn [omap list_omap]. unfold char_name.
        unfold name in *.
        destruct (dict_get (lit "name") n) as [v|]; [|discriminate Htruthy].
        change (json_truthy v = true) in Htruthy. rewrite Htruthy.
        reflexivity. }
      unfold names_known, distinct_by_name. rewrite Hnew.
      split; [|split; [|exact Hnames']].
      * apply pairwise_unequal_snoc; [exact Hdistinct|].
        eapply Forall_impl; [exact Hknown|].
        intros a [Ha Hain].
        assert (name_key a ≠ name_key name) as Hkey.
        { intros Hkey.
          rewrite (known_key a name existing_names Hnames Ha Hhash Hkey)
            in Hain. congruence. }
        split.
        -- destruct (py_eq a name) eqn:E; [|reflexivity].
           apply py_eq_key in E; [contradiction | exact Ha | exact Hhash].
        -- destruct (py_eq name a) eqn:E; [|reflexivity].
           apply py_eq_key in E; [|exact Hhash | exact Ha].
           exfalso. apply Hkey. symmetry. exact E.
      * apply Forall_app. split.
        -- eapply Forall_impl; [exact Hknown|].
           intros a [Ha Hain]. split; [exact Ha | apply Hmono, Hain].
        -- repeat constructor; assumption.
  - destruct (set_mem name existing_names) as [seen|] eqn:Hseen;
      [|discriminate Hrun].
    destruct (Hmem seen eq_refl) as [Hhash ->].
    destruct (existsb (py_eq name) existing_names).
    + destruct (merge_into_existing py_str merged name (JDict n))
        as [out|] eqn:Hout; [|discriminate Hrun].
      injection Hrun as <- <-. apply Hmerge; [exact Hhash | reflexivity].
    + injection Hrun as <- <-. split; [|auto].
      split; [exact Hdistinct|]. split; assumption.
Qed.

Lemma merge_characters_known (new_list : list json) :
  ∀ (merged existing_names merged' existing_names' : pyset),
    names_known merged existing_names ->
    merge_characters py_str (merged, existing_names) new_list
      = Ok (merged', existing_names') ->
    names_known merged' existing_names' ∧ (merged ≠ [] -> merged' ≠ []).
Proof.
  induction new_list as [|new_char rest IH];
    intros merged names merged' names' Hinv Hrun.
  - injection Hrun as <- <-. auto.
  - cbn [merge_characters] in Hrun. unfold mbind, res_bind in Hrun.
    destruct (merge_character py_str (merged, names) new_char)
      as [[merged1 names1]|] eqn:Hstep; [|discriminate Hrun].
    destruct (merge_character_known _ _ _ _ _ Hinv Hstep) as [Hinv1 Hne1].
    destruct (IH _ _ _ _ Hinv1 Hrun) as [Hinv2 Hne2]. auto.
Qed.

(** Only the base list has to be free of repeated names: the new list
    may repeat names, its entries are merged. *)
Lemma merge_character_lists_by_name (base_list new_list out : list json) :
  distinct_by_name base_list ->
  (base_list = [] -> distinct_by_name new_list) ->
  _merge_character_lists py_str base_list new_list = Ok out ->
  distinct_by_name out ∧ (base_list ≠ [] -> out ≠ []).
Proof.
  intros Hbase Hnew Hrun. unfold _merge_character_lists in Hrun.
  destruct base_list as [|b base];
    [injection Hrun as <-; split; [auto | congruence]|].
  destruct new_list as [|c new]; [injection Hrun as <-; auto|].
  cbn [truthy negb] in Hrun. unfold mbind, res_bind in Hrun.
  destruct (names_of (b :: base) []) as [existing|] eqn:Hnames;
    [|discriminate Hrun].
  destruct (merge_characters py_str (b :: base, existing) (c :: new))
    as [[merged' existing']|] eqn:Hmerge; [|discriminate Hrun].
  injection Hrun as <-.
  destruct (names_of_known _ _ _ Hnames ltac:(constructor))
    as (Hhash & _ & Hknown).
  destruct (merge_characters_known _ _ _ _ _
              (conj Hbase (conj Hknown Hhash)) Hmerge) as [[Hd _] Hne].
  auto.
Qed.

Lemma fallback_characters_by_name (group : list json)
    (merge_func : json -> json -> res json) (out : json) :
  distinct_by_name (first_character_list group) ->
  _fallback_merge_group py_str group merge_func CHARACTERS = Ok out ->
  ∃ l, out = JList l ∧ distinct_by_name l.
Proof.
  intros Hfirst Hrun. unfold _fallback_merge_group in Hrun.
  rewrite bool_decide_true in Hrun by reflexivity.
  unfold mbind, res_bind in Hrun.
  match type of Hrun with
  | match fold_res ?f group [] with _ => _ end = _ =>
      destruct (fold_res f group []) as [result|] eqn:Hfold;
        [|discriminate Hrun];
      assert (∀ items acc result',
                distinct_by_name acc ->
                (acc = [] -> distinct_by_name (first_character_list items)) ->
                fold_res f items acc = Ok result' ->
                distinct_by_name result') as Hall
  end.
  { clear. induction items as [|item items IH];
      intros acc result' Hacc Hstart Hrun.
    - injection Hrun as <-. exact Hacc.
    - cbn [fold_res] in Hrun. unfold mbind, res_bind in Hrun.
      destruct item as [| | | |l|];
        try (apply (IH acc result' Hacc Hstart Hrun)).
      destruct (_merge_character_lists py_str acc l) as [acc'|] eqn:Hstep;
        [|discriminate Hrun].
      destruct (merge_character_lists_by_name acc l acc' Hacc) as [Hd Hne];
        [|exact Hstep|].
      + intros ->. destruct l as [|c l]; [exact I|]. apply Hstart.
        reflexivity.
      + apply (IH acc' result' Hd); [|exact Hrun].
        intros ->. destruct acc as [|a acc]; [|exfalso; apply Hne;
                                               [discriminate | reflexivity]].
        destruct l as [|c l]; [apply Hstart; reflexivity|].
        discriminate Hstep. }
  injection Hrun as <-. exists result. split; [reflexivity|].
  apply (Hall group [] result); [exact I | intros _; exact Hfirst|].
  exact Hfold.
Qed.

End NamesOfAnyType.

(** ** Merge steps: shapes and dropped groups *)

Section MergeSteps.

Variable py_str : json -> pystr.
Variable json_loads : pystr -> option json.
Variable json_dumps : list json -> pystr.
Variable _build_merge_prompt : pystr -> pystr -> pystr.
Variable self : KnowledgeParser.

Local Abbreviation fallback := (_fallback_merge_group py_str).
Local Abbreviation ai_merge :=
  (_ai_merge_group py_str json_loads json_dumps _build_merge_prompt self).
Local Abbreviation groups :=
  (merge_groups py_str json_loads json_dumps _build_merge_prompt self).
Local Abbreviation levels :=
  (merge_levels py_str json_loads json_dumps _build_merge_prompt self).
Local Abbreviation hierarchical :=
  (_hierarchical_merge_results py_str json_loads json_dumps
     _build_merge_prompt self).

(** C3, amended.  A merge step over a group of two or more returns
    either the value that the (non-blank) reply of the completion
    service decodes to, whatever its shape, or the result of the
    structural fallback.  The fallback gives a mapping for worldview and
    plot; for characters it gives a list or raises, and in that list no
    two entries share a name (a truthy value under [name], of any type,
    compared by [==]) as soon as the first non-empty list of the group
    has no two such entries: the lists after it may repeat names, their
    entries are merged. *)
Theorem merge_step_shape (group : list json)
    (merge_func : json -> json -> res json) (extraction_type : pystr)
    (w : world) :
  (2 <= length group)%nat ->
  (∃ (reply : pystr) (w1 : world),
     invoke_with_cleaning (llm_adapter self)
       (_build_merge_prompt (json_dumps group) extraction_type)
       default_max_retries (w ++ [EvLog Info]) = (Ok reply, w1)
     ∧ ((truthy (strip reply) = true
         ∧ ∃ merged_data, json_loads reply = Some merged_data
             ∧ ai_merge group merge_func extraction_type w
               = (Ok merged_data, w1 ++ [EvLog Info]))
        ∨ ((truthy (strip reply) = false ∨ json_loads reply = None)
           ∧ ∃ w', ai_merge group merge_func extraction_type w
                   = (fallback group merge_func extraction_type, w'))))
  ∧ (∃ d, fallback group (worldview_merge_func py_str) WORLDVIEW
          = Ok (JDict d))
  ∧ (∃ d, fallback group (worldview_merge_func py_str) PLOT = Ok (JDict d))
  ∧ ((∃ l, fallback group merge_func CHARACTERS = Ok (JList l)
           ∧ (distinct_by_name (first_character_list group) ->
              distinct_by_name l))
     ∨ (∃ e, fallback group merge_func CHARACTERS = Raise e)).
Proof.
  intros Hlen. split; [|split; [|split]].
  - apply ai_merge_group_cases, Hlen.
  - apply fallback_worldview_mapping. discriminate.
  - apply fallback_worldview_mapping. discriminate.
  - destruct (fallback_characters_list py_str group merge_func)
      as [[l Hl]|[e He]]; [left|right; eauto].
    exists l. split; [exact Hl|]. intros Hfirst.
    destruct (fallback_characters_by_name py_str group merge_func
                (JList l) Hfirst Hl) as (l' & [= <-] & Hd).
    exact Hd.
Qed.

Lemma invoke_with_cleaning_const (raw prompt : pystr) (w : world) :
  (∀ n p, llm_adapter self n p = Reply raw) ->
  truthy (clean raw) = true ->
  invoke_with_cleaning (llm_adapter self) prompt default_max_retries w
  = (Ok (clean raw), w ++ [EvInvoke prompt; EvLog Info]).
Proof.
  intros Hreply Hclean.
  assert (truthy raw = true) as Hraw.
  { destruct raw; [discriminate Hclean | reflexivity]. }
  unfold invoke_with_cleaning.
  change (Z.to_nat default_max_retries) with 3%nat.
  cbn [retry_loop]. unfold mbind, M_bind, invoke.
  rewrite Hreply, Hraw, Hclean. simpl. run_M.
  rewrite <- app_assoc. reflexivity.
Qed.

Lemma slice_whole {A} (l : list A) (n : Z) :
  len l <= n -> slice l 0 (0 + n) = l.
Proof.
  intros Hn. pose proof (len_nonneg l).
  rewrite Z.add_0_l, slice_prefix by lia.
  apply take_ge. unfold len in *. lia.
Qed.

(** C9.  When the cleaned reply to every merge request is a text that
    decodes to [None] (the JSON value null), a group of two or more
    merges to [None] and not to the structural fallback, the level loop
    leaves it out of the next level, and for a list of two to four
    results (one group) the whole merge returns the category's empty
    value. *)
Theorem null_merge_drops_group (a b : json) (rest : list json)
    (merge_func : json -> json -> res json) (extraction_type : pystr)
    (w : world) :
  (∀ prompt w0, ∃ reply w1,
     invoke_with_cleaning (llm_adapter self) prompt default_max_retries w0
       = (Ok reply, w1)
     ∧ truthy (strip reply) = true ∧ json_loads reply = Some JNull) ->
  (length rest <= 2)%nat ->
  (∃ w', ai_merge (a :: b :: rest) merge_func extraction_type w
         = (Ok JNull, w'))
  ∧ (∃ w', groups (a :: b :: rest) merge_func extraction_type
             default_group_size [0] [] w = (Ok [], w'))
  ∧ (∃ w', hierarchical (length (a :: b :: rest)) (a :: b :: rest)
             merge_func extraction_type default_group_size w
           = (Ok (Some (empty_value extraction_type)), w')).
Proof.
  intros Hnull Hrest.
  assert (∀ w0, ∃ w', ai_merge (a :: b :: rest) merge_func extraction_type w0
                      = (Ok JNull, w')) as Hmerge.
  { intros w0.
    destruct (ai_merge_group_cases py_str json_loads json_dumps
                _build_merge_prompt self (a :: b :: rest) merge_func
                extraction_type w0 ltac:(simpl; lia))
      as (reply & w1 & Hrun & Hcases).
    destruct (Hnull (_build_merge_prompt (json_dumps (a :: b :: rest))
                       extraction_type) (w0 ++ [EvLog Info]))
      as (reply' & w1' & Hrun' & Hblank' & Hparse').
    rewrite Hrun in Hrun'. injection Hrun' as <- <-.
    destruct Hcases as [(_ & merged & Hparse & Hres)|([Hblank|Hparse] & _)].
    - rewrite Hparse' in Hparse. injection Hparse as <-. eauto.
    - congruence.
    - congruence. }
  assert (∀ w0, ∃ w', groups (a :: b :: rest) merge_func extraction_type
                        default_group_size [0] [] w0 = (Ok [], w'))
    as Hgroups.
  { intros w0. cbn [merge_groups].
    rewrite slice_whole
      by (unfold len, default_group_size; simpl length; lia).
    unfold mbind, M_bind. destruct (Hmerge w0) as [w' ->]. simpl.
    run_M. eauto. }
  split; [apply Hmerge|]. split; [apply Hgroups|].
  unfold _hierarchical_merge_results. cbn [truthy negb length].
  rewrite (merge_levels_step _ _ _ _ _ _ _ _ _ _ [0]).
  - destruct (Hgroups (w ++ [EvLog Info])) as [w1 ->].
    rewrite merge_levels_done by (unfold len; simpl; lia). eauto.
  - unfold len. simpl length. lia.
  - destruct rest as [|c [|d [|? ?]]]; simpl in Hrest; try lia; reflexivity.
Qed.

End MergeSteps.

(** ** The extractions *)





(** C3 as stated fails: two worldview mappings merged by a completion
    service that answers [[]] come out as a list; and the structural
    merge of character lists keeps a name that the first list of the
    group repeats. *)
Lemma ai_merge_can_return_list :
  fst (_hierarchical_merge_results sample_str sample_loads sample_dumps
         sample_merge_prompt (sample_parser [] (lit "[]") 200) 2
         [JDict [jkey "setting" (jstr "X")]; JDict [jkey "setting" (jstr "Y")]]
         (worldview_merge_func sample_str) WORLDVIEW default_group_size [])
  = Ok (Some (JList []))
  ∧ is_dict (JList []) = false
  ∧ _fallback_merge_group sample_str
      [JList [JDict [jkey "name" (jstr "A")]; JDict [jkey "name" (jstr "A")]];
       JList [JDict [jkey "name" (jstr "B")]]]
      (character_merge_func sample_str) CHARACTERS
    = Ok (JList [JDict [jkey "name" (jstr "A")];
                 JDict [jkey "name" (jstr "A")];
                 JDict [jkey "name" (jstr "B")]])
  ∧ ¬ distinct_by_name [JDict [jkey "name" (jstr "A")];
                        JDict [jkey "name" (jstr "A")];
                        JDict [jkey "name" (jstr "B")]].
Proof.
  split; [vm_compute; reflexivity|]. split; [reflexivity|].
  split; [vm_compute; reflexivity|].
  intros [Hfirst _]. apply Forall_cons in Hfirst as [[H _] _].
  vm_compute in H. discriminate H.
Qed.

(** ** The theorems at concrete inputs *)

Lemma dispatch_order_preserving_witness :
  let self := sample_parser list_of_x [] 2 in
  let task := task_result sample_loads sample_templates self WORLDVIEW
                (lit "worldview") WORLDVIEW_QUERY in
  _process_segment_concurrently sample_loads sample_templates self two_chunks
    WORLDVIEW (lit "worldview") WORLDVIEW_QUERY
  = Ok (omap (surviving task) two_chunks)
  ∧ StronglySorted Z.lt
      (order <$> filter (fun s => is_Some (surviving task s)) two_chunks).
Proof.
  apply (dispatch_order_preserving sample_loads sample_templates
           (sample_parser list_of_x [] 2) two_chunks WORLDVIEW
           (lit "worldview") WORLDVIEW_QUERY).
  - reflexivity.
  - unfold len. simpl. lia.
  - simpl. apply Permutation_swap.
Defined.


Lemma merge_step_shape_witness :
  let self := sample_parser [] [] 200 in
  let group := [JList [JDict [jkey "name" (jstr "B")]];
                JList [JDict [jkey "name" (jstr "A")];
                       JDict [jkey "name" (jstr "A")];
                       JDict [jkey "name" (JInt 1)];
                       JDict [jkey "name" (JBool true)]]] in
  ∃ l, _fallback_merge_group sample_str group
         (character_merge_func sample_str) CHARACTERS = Ok (JList l)
       ∧ distinct_by_name l
       ∧ l = [JDict [jkey "name" (jstr "B")];
              JDict [jkey "name" (jstr "A")];
              JDict [jkey "name" (JInt 1)]].
Proof.
  intros self group.
  destruct (proj2 (proj2 (proj2
    (merge_step_shape sample_str sample_loads sample_dumps
       sample_merge_prompt self group (character_merge_func sample_str)
       CHARACTERS [] ltac:(simpl; lia)))))
    as [(l & Hl & Hd)|(e & He)].
  - exists l. split; [exact Hl|]. split.
    + apply Hd. split; [constructor | exact I].
    + vm_compute in Hl. injection Hl as <-. reflexivity.
  - vm_compute in He. discriminate He.
Defined.

Lemma null_merge_drops_group_witness :
  let self := sample_parser [] (lit "null") 200 in
  let a := JDict [jkey "setting" (jstr "X")] in
  let b := JDict [jkey "setting" (jstr "Y")] in
  ∃ w',
    _hierarchical_merge_results sample_str sample_loads sample_dumps
      sample_merge_prompt self 2 [a; b] (worldview_merge_func sample_str)
      WORLDVIEW default_group_size []
    = (Ok (Some (empty_value WORLDVIEW)), w').
Proof.
  intros self a b.
  refine (proj2 (proj2
    (null_merge_drops_group sample_str sample_loads sample_dumps
       sample_merge_prompt self a b [] (worldview_merge_func sample_str)
       WORLDVIEW [] _ _))).
  - intros prompt w0.
    exists (lit "null"), (w0 ++ [EvInvoke prompt; EvLog Info]).
    split; [|split; reflexivity].
    apply (invoke_with_cleaning_const self (lit "null") prompt w0).
    + intros n p. reflexivity.
    + reflexivity.
  - simpl. lia.
Defined.


(** * Further properties *)

(** ** Text normalisation: [preprocess_text] *)

Lemma visible_wordy (word : pystr) :
  Forall (fun c => isspace c = false) word -> visible word = word.
Proof.
  induction 1 as [|c word Hc _ IH]; [reflexivity|].
  rewrite visible_cons, Hc, IH. reflexivity.
Qed.

Lemma split_ws_cons_space (c : N) (s : pystr) :
  isspace c = true -> split_ws (c :: s) = split_ws s.
Proof. intros H. simpl. rewrite H. reflexivity. Qed.

Lemma split_ws_cons_visible (c : N) (s : pystr) :
  isspace c = false ->
  split_ws (c :: s)
  = match s with
    | c' :: _ =>
        if isspace c' then [c] :: split_ws s
        else
          match split_ws s with
          | word :: rest => (c :: word) :: rest
          | [] => [[c]]
          end
    | [] => [[c]]
    end.
Proof.
  intros H.
  change (split_ws (c :: s))
    with (if isspace c then split_ws s
          else match s with
               | c' :: _ =>
                   if isspace c' then [c] :: split_ws s
                   else
                     match split_ws s with
                     | word :: rest => (c :: word) :: rest
                     | [] => [[c]]
                     end
               | [] => [[c]]
               end).
  rewrite H. reflexivity.
Qed.

(** The words of a text are its visible characters, cut into pieces. *)
Lemma split_ws_words (s : pystr) :
  Forall wordy (split_ws s) ∧ concat (split_ws s) = visible s.
Proof.
  induction s as [|c s [IHw IHc]]; [split; [constructor | reflexivity]|].
  rewrite visible_cons.
  destruct (isspace c) eqn:Ec.
  - rewrite split_ws_cons_space by exact Ec. split; assumption.
  - rewrite split_ws_cons_visible by exact Ec.
    assert (wordy [c]) as Hone.
    { split; [discriminate|]. constructor; [exact Ec | constructor]. }
    destruct s as [|c' s'];
      [split; [constructor; [exact Hone | constructor] | reflexivity]|].
    destruct (isspace c') eqn:Ec'.
    + split; [constructor; assumption|].
      change (concat ([c] :: split_ws (c' :: s')))
        with (c :: concat (split_ws (c' :: s'))).
      rewrite IHc. reflexivity.
    + destruct (split_ws (c' :: s')) as [|word rest] eqn:Hw.
      * exfalso. rewrite visible_cons, Ec' in IHc. discriminate IHc.
      * apply Forall_cons in IHw as [[Hne Hall] Hrest]. split.
        -- constructor; [|exact Hrest]. split; [discriminate|].
           constructor; assumption.
        -- change (concat ((c :: word) :: rest))
             with (c :: concat (word :: rest)).
           rewrite IHc. reflexivity.
Qed.

Lemma split_ws_word (word : pystr) :
  wordy word ->
  split_ws word = [word]
  ∧ ∀ rest, split_ws (word ++ 32%N :: rest) = word :: split_ws rest.
Proof.
  intros [Hne Hall]. induction Hall as [|c word Hc Hall IH];
    [congruence|].
  destruct word as [|c' word'].
  - split; [rewrite split_ws_cons_visible by exact Hc; reflexivity|].
    intros rest. cbn [app]. rewrite split_ws_cons_visible by exact Hc.
    change (isspace 32) with true. cbv iota. reflexivity.
  - destruct (IH ltac:(discriminate)) as [IH1 IH2].
    apply Forall_cons in Hall as [Hc' _].
    split.
    + rewrite split_ws_cons_visible by exact Hc. rewrite Hc', IH1.
      reflexivity.
    + intros rest. rewrite <- app_comm_cons.
      rewrite split_ws_cons_visible by exact Hc.
      rewrite <- app_comm_cons. rewrite Hc'.
      rewrite (app_comm_cons word' (32%N :: rest) c'), IH2. reflexivity.
Qed.

Lemma join_cons (sep word : pystr) (words : list pystr) :
  words ≠ [] -> join sep (word :: words) = word ++ sep ++ join sep words.
Proof. destruct words; [congruence | reflexivity]. Qed.

(** Joining words with single spaces and splitting again gives the words
    back. *)
Lemma split_ws_join (words : list pystr) :
  Forall wordy words -> split_ws (join [32%N] words) = words.
Proof.
  induction 1 as [|word words Hw Hws IH]; [reflexivity|].
  destruct words as [|word' words'].
  - apply split_ws_word, Hw.
  - rewrite join_cons by discriminate.
    change ([32%N] ++ join [32%N] (word' :: words'))
      with (32%N :: join [32%N] (word' :: words')).
    rewrite (proj2 (split_ws_word word Hw)), IH. reflexivity.
Qed.

Lemma visible_join (words : list pystr) :
  Forall wordy words -> visible (join [32%N] words) = concat words.
Proof.
  induction 1 as [|word words [_ Hw] Hws IH]; [reflexivity|].
  destruct words as [|word' words'].
  - simpl. rewrite app_nil_r. apply visible_wordy, Hw.
  - rewrite join_cons by discriminate.
    rewrite !visible_app, IH, (visible_wordy word Hw). reflexivity.
Qed.

Lemma wordy_last (word : pystr) :
  wordy word -> ∃ front c, word = front ++ [c] ∧ isspace c = false.
Proof.
  intros [Hne Hall]. destruct (exists_last Hne) as (front & c & ->).
  exists front, c. split; [reflexivity|].
  apply Forall_app in Hall as [_ Hc]. apply Forall_cons in Hc as [Hc _].
  exact Hc.
Qed.

Lemma strip_join (words : list pystr) :
  Forall wordy words -> strip (join [32%N] words) = join [32%N] words.
Proof.
  intros Hws. destruct words as [|word words]; [reflexivity|].
  assert (∃ front c, join [32%N] (word :: words) = front ++ [c]
                     ∧ isspace c = false) as (front & c & Hlast & Hc).
  { clear -Hws. revert word Hws.
    induction words as [|word' words IH]; intros word Hws.
    - apply Forall_cons in Hws as [Hw _]. apply wordy_last, Hw.
    - apply Forall_cons in Hws as [Hw Hws].
      destruct (IH word' Hws) as (front & c & Hj & Hc).
      rewrite join_cons by discriminate. rewrite Hj.
      exists (word ++ [32%N] ++ front), c. rewrite <- !app_assoc. auto. }
  assert (∃ c0 rest, join [32%N] (word :: words) = c0 :: rest
                     ∧ isspace c0 = false) as (c0 & rest & Hhead & Hc0).
  { apply Forall_cons in Hws as [[Hne Hall] _].
    destruct word as [|c0 word]; [congruence|].
    apply Forall_cons in Hall as [Hc0 _].
    destruct words; simpl; eauto. }
  unfold strip. rewrite Hhead, lstrip_head by exact Hc0.
  rewrite <- Hhead, Hlast. apply rstrip_last, Hc.
Qed.

(** X1.  [preprocess_text] gives a normal form: the result has no
    whitespace at either end, it keeps exactly the non-whitespace
    characters of the input in their order, a blank input gives the empty
    string, and preprocessing a preprocessed text changes nothing. *)
Theorem preprocess_text_normal_form (content : pystr) :
  strip (preprocess_text content) = preprocess_text content
  ∧ visible (preprocess_text content) = visible content
  ∧ (preprocess_text content = [] <-> visible content = [])
  ∧ preprocess_text (preprocess_text content) = preprocess_text content.
Proof.
  destruct (split_ws_words content) as [Hwords Hconcat].
  assert (preprocess_text content
          = if truthy (strip content) then join [32%N] (split_ws content)
            else []) as Hpre.
  { unfold preprocess_text. destruct content as [|c content]; [reflexivity|].
    cbn [truthy negb orb]. destruct (truthy (strip (c :: content)));
      reflexivity. }
  assert (∀ text, visible text ≠ [] -> truthy (strip text) = true) as Hvis.
  { intros text Hv. destruct (truthy (strip text)) eqn:E; [reflexivity|].
    apply truthy_strip_false in E. congruence. }
  destruct (truthy (strip content)) eqn:Hblank.
  - assert (visible (join [32%N] (split_ws content)) = visible content) as Hv.
    { rewrite visible_join by exact Hwords. exact Hconcat. }
    assert (visible content ≠ []) as Hne.
    { intros E. apply truthy_strip_false in E. congruence. }
    rewrite Hpre. split; [apply strip_join, Hwords|]. split; [exact Hv|].
    split.
    + split; [|congruence]. intros E. exfalso. apply Hne.
      rewrite <- Hv, E. reflexivity.
    + unfold preprocess_text at 1.
      rewrite strip_join by exact Hwords.
      assert (truthy (join [32%N] (split_ws content)) = true) as Ht.
      { destruct (join [32%N] (split_ws content)); [|reflexivity].
        exfalso. apply Hne. rewrite <- Hv. reflexivity. }
      rewrite Ht. cbn [negb orb]. rewrite split_ws_join by exact Hwords.
      reflexivity.
  - apply truthy_strip_false in Hblank. rewrite Hpre.
    split; [reflexivity|]. split; [rewrite Hblank; reflexivity|].
    split; [tauto | reflexivity].
Qed.

(** ** Segmentation: numbering, spans, edge cases *)

Lemma slice_span {A} (s : list A) (lo n : Z) :
  0 <= lo -> 0 <= n ->
  slice s lo (lo + n) = take (Z.to_nat n) (drop (Z.to_nat lo) s).
Proof.
  intros Hlo Hn. unfold slice, slice_bound. pose proof (len_nonneg s) as Hl.
  destruct (lo <? 0) eqn:E1; [apply Z.ltb_lt in E1; lia|].
  destruct (lo + n <? 0) eqn:E2; [apply Z.ltb_lt in E2; lia|].
  unfold len in *.
  destruct (Z.le_gt_cases lo (Z.of_nat (length s))) as [H|H].
  - rewrite (Z.min_l lo) by lia.
    destruct (Z.le_gt_cases (lo + n) (Z.of_nat (length s))) as [H'|H'].
    + rewrite Z.min_l by lia. f_equal. lia.
    + rewrite Z.min_r by lia.
      rewrite (take_ge (drop _ _) (Z.to_nat n)) by (rewrite length_drop; lia).
      apply take_ge. rewrite length_drop. lia.
  - rewrite !Z.min_r by lia. rewrite Z.sub_diag.
    rewrite !drop_ge by lia. rewrite !take_nil. reflexivity.
Qed.

Lemma len_slice {A} (s : list A) (lo n : Z) :
  0 <= lo -> 0 <= n ->
  len (slice s lo (lo + n)) = Z.max 0 (Z.min n (len s - lo)).
Proof.
  intros Hlo Hn. rewrite slice_span by assumption. unfold len.
  rewrite length_take, length_drop. lia.
Qed.

Lemma len_strip_le (s : pystr) : len (strip s) <= len s.
Proof.
  destruct (strip_infix s) as (before & after & Hs).
  rewrite Hs at 2. unfold len. rewrite !length_app. lia.
Qed.

Lemma elem_of_range_from (k : nat) (start step i : Z) :
  i ∈ range_from k start step ->
  ∃ j : nat, (j < k)%nat ∧ i = start + Z.of_nat j * step.
Proof.
  revert start. induction k as [|k IH]; intros start Hi; [inversion Hi|].
  simpl in Hi. apply elem_of_cons in Hi as [->|Hi].
  - exists 0%nat. split; lia.
  - apply IH in Hi as (j & Hj & ->). exists (S j). split; lia.
Qed.

Lemma py_range_positive (n step : Z) :
  0 < step ->
  ∃ starts, py_range 0 n step = Ok starts
            ∧ starts = range_from (Z.to_nat ((n + step - 1) / step)) 0 step
            ∧ Forall (fun i => 0 <= i < n) starts.
Proof.
  intros Hstep. unfold py_range.
  destruct (step =? 0) eqn:E0; [apply Z.eqb_eq in E0; lia|].
  destruct (0 <? step) eqn:E1; [|apply Z.ltb_ge in E1; lia].
  eexists. split; [reflexivity|]. rewrite Z.sub_0_r. split; [reflexivity|].
  apply Forall_forall. intros i Hi.
  apply elem_of_range_from in Hi as (j & Hj & ->).
  assert (0 <= n + step - 1) as Hpos.
  { destruct (Z.le_gt_cases 0 (n + step - 1)) as [H|H]; [exact H|].
    rewrite (Z2Nat.nonpos ((n + step - 1) / step)) in Hj
      by (apply Z.lt_succ_r, Z.div_lt_upper_bound; lia). lia. }
  pose proof (Z.mul_div_le (n + step - 1) step Hstep) as Hdiv.
  assert (Z.of_nat j < (n + step - 1) / step) as Hj'
    by (pose proof (Z.div_pos (n + step - 1) step Hpos Hstep); lia).
  nia.
Qed.

Lemma find_split_point_bound (segment_size : Z) (words : list pystr) :
  ∀ total_length,
    0 <= total_length -> 10 * total_length <= 9 * segment_size ->
    0 <= find_split_point segment_size words total_length
    ∧ 10 * find_split_point segment_size words total_length
      <= 9 * segment_size.
Proof.
  induction words as [|word words IH]; intros total H0 H9; simpl; [lia|].
  destruct (9 * segment_size <? 10 * (total + len word)) eqn:E; [lia|].
  apply Z.ltb_ge in E. pose proof (len_nonneg word). apply IH; lia.
Qed.

Lemma numbered_append (content : pystr) (segment_size : Z)
    (segments : list segment) (segment_count : Z) (txt : pystr)
    (start stop : Z) :
  numbered content segment_size (segments, segment_count) ->
  txt ≠ [] -> 0 <= start -> start < stop -> stop <= len content ->
  stop - start <= segment_size -> len txt <= stop - start ->
  numbered content segment_size
    (segments ++ [Segment txt (segment_count + 1) start stop
                          (seg_id (segment_count + 1))],
     segment_count + 1).
Proof.
  intros (Hcount & Horders & Hok) Htxt H0 Hlt Hstop Hsize Hlen.
  simpl in *. subst segment_count. unfold numbered. simpl.
  split; [unfold len; rewrite length_app; simpl; lia|]. split.
  - rewrite fmap_app, Horders. simpl. unfold len.
    replace (Z.of_nat (length segments) + 1)
      with (Z.of_nat (S (length segments))) by lia.
    rewrite seqZ_S. do 2 f_equal. lia.
  - apply Forall_app. split; [exact Hok|]. constructor; [|constructor].
    unfold chunk_ok. simpl. auto 10.
Qed.

Lemma simple_step_numbered (content : pystr) (segment_size : Z)
    (st : list segment * Z) (i : Z) :
  0 < segment_size -> 0 <= i < len content ->
  numbered content segment_size st ->
  numbered content segment_size (simple_step content segment_size st i).
Proof.
  intros Hsize Hi Hst. destruct st as [segments segment_count].
  unfold simple_step.
  destruct (truthy (strip (slice content i (i + segment_size)))) eqn:Ht;
    [|exact Hst].
  pose proof (len_slice content i segment_size ltac:(lia) ltac:(lia)) as Hl.
  pose proof (len_strip_le (slice content i (i + segment_size))) as Hs.
  apply numbered_append; try lia; [exact Hst|].
  intros E. rewrite E in Ht. discriminate Ht.
Qed.

Lemma simple_fold_numbered (content : pystr) (segment_size : Z)
    (starts : list Z) :
  0 < segment_size -> Forall (fun i => 0 <= i < len content) starts ->
  ∀ st, numbered content segment_size st ->
        numbered content segment_size
          (fold_left (simple_step content segment_size) starts st).
Proof.
  intros Hsize Hstarts. induction Hstarts as [|i starts Hi _ IH];
    intros st Hst; [exact Hst|].
  simpl. apply IH, simple_step_numbered; assumption.
Qed.

Lemma smart_step_numbered jieba_cut (content : pystr) (segment_size : Z)
    (st st' : list segment * Z) (i : Z) :
  0 < segment_size -> 0 <= i < len content ->
  numbered content segment_size st ->
  smart_step jieba_cut content segment_size st i = Ok st' ->
  numbered content segment_size st'.
Proof.
  intros Hsize Hi Hst Hrun. destruct st as [segments segment_count].
  unfold smart_step in Hrun.
  pose proof (len_slice content i segment_size ltac:(lia) ltac:(lia)) as Hl.
  set (segment0 := slice content i (i + segment_size)) in *.
  assert (∀ seg actual_end,
            (seg = segment0 ∧ actual_end = i + len segment0)
            ∨ (∃ split_point, 0 < split_point
                 ∧ 10 * split_point <= 9 * segment_size
                 ∧ i + segment_size < len content
                 ∧ seg = slice content i (i + split_point)
                 ∧ actual_end = i + split_point) ->
            (if truthy (strip seg)
             then Ok (segments ++ [Segment (strip seg) (segment_count + 1) i
                                           actual_end
                                           (seg_id (segment_count + 1))],
                      segment_count + 1)
             else Ok (segments, segment_count)) = Ok st' ->
            numbered content segment_size st') as Hfinish.
  { intros seg actual_end Hcase Hres.
    destruct (truthy (strip seg)) eqn:Ht; injection Hres as <-;
      [|exact Hst].
    assert (strip seg ≠ []) as Hne
      by (intros E; rewrite E in Ht; discriminate Ht).
    pose proof (len_strip_le seg) as Hs.
    destruct Hcase as [[-> ->]|(sp & Hsp & Hsp9 & Hlast & -> & ->)].
    - apply numbered_append; try lia; [exact Hst | exact Hne].
    - pose proof (len_slice content i sp ltac:(lia) ltac:(lia)) as Hl'.
      apply numbered_append; try lia; [exact Hst | exact Hne]. }
  unfold mbind, res_bind in Hrun.
  destruct (i + segment_size <? len content) eqn:Hlast.
  - apply Z.ltb_lt in Hlast.
    destruct (jieba_cut segment0) as [words|e]; [|discriminate Hrun].
    destruct (1 <? len words).
    + destruct (find_split_point_bound segment_size words 0
                  ltac:(lia) ltac:(lia)) as [Hsp0 Hsp9].
      destruct (0 <? find_split_point segment_size words 0) eqn:Hsp.
      * apply Z.ltb_lt in Hsp. eapply Hfinish; [|exact Hrun].
        right. eexists. repeat split; eauto.
      * eapply Hfinish; [|exact Hrun]. left. split; reflexivity.
    + eapply Hfinish; [|exact Hrun]. left. split; reflexivity.
  - eapply Hfinish; [|exact Hrun]. left. split; reflexivity.
Qed.

Lemma smart_loop_numbered jieba_cut (content : pystr) (segment_size : Z)
    (starts : list Z) :
  0 < segment_size -> Forall (fun i => 0 <= i < len content) starts ->
  ∀ st st', numbered content segment_size st ->
            smart_loop jieba_cut content segment_size st starts = Ok st' ->
            numbered content segment_size st'.
Proof.
  intros Hsize Hstarts. induction Hstarts as [|i starts Hi _ IH];
    intros st st' Hst Hrun.
  - injection Hrun as <-. exact Hst.
  - cbn [smart_loop] in Hrun. unfold mbind, res_bind in Hrun.
    destruct (smart_step jieba_cut content segment_size st i) as [st1|e]
      eqn:Hstep; [|discriminate Hrun].
    eapply IH; [|exact Hrun]. eapply smart_step_numbered; eassumption.
Qed.

Lemma numbered_nil (content : pystr) (segment_size : Z) :
  numbered content segment_size ([], 0).
Proof. repeat split. constructor. Qed.

(** For a positive segment size the segmenter returns, whatever the
    tokenizer does, and what it returns is numbered and well-formed. *)
Lemma split_numbered jieba_cut (content : pystr) (segment_size : Z) :
  0 < segment_size ->
  ∃ segs, split_text_into_segments jieba_cut content segment_size = Ok segs
          ∧ numbered content segment_size (segs, len segs).
Proof.
  intros Hsize. unfold split_text_into_segments.
  destruct (negb (truthy content) || negb (truthy (strip content))) eqn:Hb.
  { exists []. split; [reflexivity | apply numbered_nil]. }
  apply orb_false_elim in Hb as [Hc Hs].
  apply negb_false_iff in Hc, Hs.
  destruct (len content <=? segment_size) eqn:Hshort.
  - apply Z.leb_le in Hshort. eexists. split; [reflexivity|].
    assert (content ≠ []) as Hne by (intros E; rewrite E in Hc; discriminate).
    assert (0 < len content) by (destruct content; [congruence|];
                                 unfold len; simpl; lia).
    apply (numbered_append content segment_size [] 0 content 0 (len content));
      try lia; [apply numbered_nil | exact Hne].
  - destruct (py_range_positive (len content) segment_size Hsize)
      as (starts & Hrange & _ & Hstarts).
    assert (∀ st, numbered content segment_size st ->
              numbered content segment_size (fst st, len (fst st))) as Hfst.
    { intros [segs n] (Hn & Ho & Hok). simpl in *. subst n.
      repeat split; assumption. }
    unfold try_except, smart_split, simple_split. rewrite Hrange.
    unfold mbind, res_bind.
    destruct (smart_loop jieba_cut content segment_size ([], 0) starts)
      as [st|e] eqn:Hsmart.
    + eexists. split; [reflexivity|]. apply Hfst.
      eapply smart_loop_numbered; eauto using numbered_nil.
    + eexists. split; [reflexivity|]. apply Hfst.
      apply simple_fold_numbered; auto using numbered_nil.
Qed.

(** X2.  For a positive segment size the segmenter always returns, even
    when the tokenizer raises; the chunks are numbered 1, 2, ... in list
    order, each chunk's id is [seg_] followed by its number (zero-padded
    to three digits), and no chunk has an empty text. *)
Theorem split_numbering jieba_cut (content : pystr) (segment_size : Z) :
  0 < segment_size ->
  ∃ segs, split_text_into_segments jieba_cut content segment_size = Ok segs
          ∧ order <$> segs = seqZ 1 (len segs)
          ∧ Forall (fun seg => segment_id seg
                               = lit "seg_" ++ format_03d (order seg)
                               ∧ text seg ≠ []) segs.
Proof.
  intros Hsize.
  destruct (split_numbered jieba_cut content segment_size Hsize)
    as (segs & Hrun & _ & Horders & Hok).
  exists segs. split; [exact Hrun|]. split; [exact Horders|].
  simpl in Hok. eapply Forall_impl; [exact Hok|].
  intros seg (Hid & Htxt & _). split; assumption.
Qed.

(** X3.  Every chunk of a segmentation with a positive segment size
    spans a non-empty range [start_pos .. end_pos] inside the content, at
    most one segment size long, and its text is no longer than that
    range. *)
Theorem split_spans jieba_cut (content : pystr) (segment_size : Z)
    (segs : list segment) :
  0 < segment_size ->
  split_text_into_segments jieba_cut content segment_size = Ok segs ->
  Forall (fun seg => 0 <= start_pos seg < end_pos seg
                     ∧ end_pos seg <= len content
                     ∧ end_pos seg - start_pos seg <= segment_size
                     ∧ len (text seg) <= end_pos seg - start_pos seg) segs.
Proof.
  intros Hsize Hrun.
  destruct (split_numbered jieba_cut content segment_size Hsize)
    as (segs' & Hrun' & _ & _ & Hok).
  rewrite Hrun in Hrun'. injection Hrun' as <-.
  simpl in Hok. eapply Forall_impl; [exact Hok|].
  intros seg (_ & _ & H0 & Hlt & Hstop & Hspan & Hlen). auto.
Qed.

Lemma split_numbering_witness :
  ∃ segs, split_text_into_segments ws_cut (lit "ab cd ef") 3 = Ok segs
          ∧ order <$> segs = seqZ 1 (len segs)
          ∧ Forall (fun seg => segment_id seg
                               = lit "seg_" ++ format_03d (order seg)
                               ∧ text seg ≠ []) segs.
Proof. apply (split_numbering ws_cut (lit "ab cd ef") 3). lia. Defined.

Lemma split_spans_witness :
  Forall (fun seg => 0 <= start_pos seg < end_pos seg
                     ∧ end_pos seg <= len (lit "ab cd ef")
                     ∧ end_pos seg - start_pos seg <= 3
                     ∧ len (text seg) <= end_pos seg - start_pos seg)
    [Segment (lit "ab") 1 0 2 (lit "seg_001");
     Segment (lit "cd") 2 3 5 (lit "seg_002");
     Segment (lit "ef") 3 6 8 (lit "seg_003")].
Proof.
  apply (split_spans ws_cut (lit "ab cd ef") 3); [lia | reflexivity].
Defined.

(** X4.  A segment size that is not positive: on a text that is not
    blank, size [0] makes the segmenter raise [ValueError] (the [range]
    of the fallback loop, outside any handler), and a negative size makes
    it return no chunk at all. *)
Theorem split_nonpositive_size jieba_cut (content : pystr)
    (segment_size : Z) :
  strip content ≠ [] ->
  (segment_size = 0 ->
   split_text_into_segments jieba_cut content segment_size
   = Raise ValueError)
  ∧ (segment_size < 0 ->
     split_text_into_segments jieba_cut content segment_size = Ok []).
Proof.
  intros Hne. unfold split_text_into_segments.
  assert (truthy (strip content) = true) as Hs
    by (destruct (strip content); [congruence | reflexivity]).
  assert (truthy content = true) as Hc.
  { destruct content; [|reflexivity]. exfalso. apply Hne. reflexivity. }
  assert (0 < len content) as Hlen
    by (destruct content; [discriminate Hc | unfold len; simpl; lia]).
  rewrite Hc, Hs. simpl negb. simpl orb. split; intros Hsize.
  - subst segment_size.
    destruct (len content <=? 0) eqn:E; [apply Z.leb_le in E; lia|].
    reflexivity.
  - destruct (len content <=? segment_size) eqn:E;
      [apply Z.leb_le in E; lia|].
    unfold try_except, smart_split, py_range.
    destruct (segment_size =? 0) eqn:E0; [apply Z.eqb_eq in E0; lia|].
    destruct (0 <? segment_size) eqn:E1; [apply Z.ltb_lt in E1; lia|].
    rewrite Z2Nat.nonpos; [reflexivity|].
    apply Z.lt_succ_r, Z.div_lt_upper_bound; lia.
Qed.

Lemma split_nonpositive_size_witness :
  (0 = 0 ->
   split_text_into_segments ws_cut (lit "ab cd ef") 0 = Raise ValueError)
  ∧ (0 < 0 -> split_text_into_segments ws_cut (lit "ab cd ef") 0 = Ok []).
Proof.
  apply (split_nonpositive_size ws_cut (lit "ab cd ef") 0).
  vm_compute. discriminate.
Defined.

Lemma simple_fold_visible (content : pystr) (segment_size : Z) :
  0 < segment_size ->
  ∀ (k : nat) (start : Z) (st : list segment * Z),
    0 <= start ->
    visible (concat (text <$> fst st))
    = visible (take (Z.to_nat start) content) ->
    visible (concat (text <$> fst (fold_left
               (simple_step content segment_size)
               (range_from k start segment_size) st)))
    = visible (take (Z.to_nat (start + Z.of_nat k * segment_size)) content).
Proof.
  intros Hsize. induction k as [|k IH]; intros start st Hstart Hst.
  - simpl. rewrite Z.add_0_r. exact Hst.
  - cbn [range_from fold_left].
    replace (start + Z.of_nat (S k) * segment_size)
      with (start + segment_size + Z.of_nat k * segment_size) by lia.
    apply IH; [lia|]. destruct st as [segments segment_count].
    unfold simple_step. rewrite slice_span by lia.
    replace (Z.to_nat (start + segment_size))
      with (Z.to_nat start + Z.to_nat segment_size)%nat by lia.
    rewrite <- take_take_drop, visible_app. simpl in Hst.
    set (seg := take (Z.to_nat segment_size)
                     (drop (Z.to_nat start) content)).
    destruct (truthy (strip seg)) eqn:Ht.
    + cbn [fst]. rewrite fmap_app, concat_app, visible_app, Hst.
      f_equal. simpl. rewrite app_nil_r. apply visible_strip.
    + cbn [fst]. apply truthy_strip_false in Ht. rewrite Ht, app_nil_r.
      exact Hst.
Qed.

Lemma simple_split_covers (content : pystr) (segment_size : Z) :
  0 < segment_size ->
  ∃ segs, simple_split content segment_size = Ok segs
          ∧ visible (concat (text <$> segs)) = visible content.
Proof.
  intros Hsize. unfold simple_split.
  destruct (py_range_positive (len content) segment_size Hsize)
    as (starts & -> & -> & _).
  eexists. split; [reflexivity|].
  rewrite (simple_fold_visible content segment_size Hsize _ 0 ([], 0));
    [|lia | reflexivity].
  rewrite take_ge; [reflexivity|].
  pose proof (len_nonneg content) as Hl.
  pose proof (Z.div_mod (len content + segment_size - 1) segment_size
                ltac:(lia)) as Hdm.
  pose proof (Z.mod_pos_bound (len content + segment_size - 1) segment_size
                Hsize) as Hmod.
  pose proof (Z.div_pos (len content + segment_size - 1) segment_size
                ltac:(lia) Hsize) as Hq.
  unfold len in *. rewrite Z2Nat.id by exact Hq. nia.
Qed.

(** X5.  When the tokenizer is broken (raises on every input), the
    segmenter with a positive segment size still returns, and the chunk
    texts, one after the other, hold every non-whitespace character of
    the content, in order: the plain slicing of the fallback loses
    nothing but whitespace. *)
Theorem split_fallback_covers jieba_cut (content : pystr)
    (segment_size : Z) :
  0 < segment_size ->
  (∀ s, ∃ e, jieba_cut s = Raise e) ->
  ∃ segs, split_text_into_segments jieba_cut content segment_size = Ok segs
          ∧ visible (concat (text <$> segs)) = visible content.
Proof.
  intros Hsize Hbroken. unfold split_text_into_segments.
  destruct (negb (truthy content) || negb (truthy (strip content))) eqn:Hb.
  { exists []. split; [reflexivity|]. symmetry.
    apply orb_true_iff in Hb as [Hc|Hs].
    - destruct content; [reflexivity | discriminate Hc].
    - apply negb_true_iff in Hs. apply truthy_strip_false, Hs. }
  destruct (len content <=? segment_size) eqn:Hshort.
  { eexists. split; [reflexivity|]. simpl. rewrite app_nil_r. reflexivity. }
  apply Z.leb_gt in Hshort.
  assert (smart_split jieba_cut content segment_size = Raise
            match jieba_cut (slice content 0 (0 + segment_size)) with
            | Raise e => e | Ok _ => ValueError end) as Hsmart.
  { unfold smart_split.
    destruct (py_range_positive (len content) segment_size Hsize)
      as (starts & -> & -> & _).
    destruct (Z.to_nat ((len content + segment_size - 1) / segment_size))
      as [|k] eqn:Hk.
    - exfalso.
      assert (1 <= (len content + segment_size - 1) / segment_size)
        by (apply Z.div_le_lower_bound; lia). lia.
    - cbn [range_from]. unfold mbind, res_bind. cbn [smart_loop].
      unfold mbind, res_bind, smart_step.
      destruct (0 + segment_size <? len content) eqn:E;
        [|apply Z.ltb_ge in E; lia].
      unfold mbind, res_bind.
      destruct (Hbroken (slice content 0 (0 + segment_size))) as [e ->].
      reflexivity. }
  rewrite Hsmart. unfold try_except.
  apply simple_split_covers, Hsize.
Qed.

Lemma split_fallback_covers_witness :
  ∃ segs,
    split_text_into_segments (fun _ => Raise RuntimeError)
      (lit "ab cd ef") 3 = Ok segs
    ∧ visible (concat (text <$> segs)) = visible (lit "ab cd ef").
Proof.
  apply (split_fallback_covers (fun _ => Raise RuntimeError)
           (lit "ab cd ef") 3); [lia|].
  intros s. exists RuntimeError. reflexivity.
Defined.

(** ** The retry wrapper for any bound, and cleaning *)


(** X7.  Cleaning gives a normal form: a cleaned reply has no leading or
    trailing whitespace, and cleaning it again changes nothing. *)
Theorem clean_normal_form (raw : pystr) :
  strip (clean raw) = clean raw ∧ clean (clean raw) = clean raw.
Proof.
  assert (strip (clean raw) = clean raw) as Hs
    by (unfold clean; apply strip_idempotent).
  split; [exact Hs|].
  destruct (clean_no_fence raw) as [Hf Hj].
  unfold clean at 1.
  rewrite (str_replace_absent fence_json [] (clean raw) Hj).
  rewrite (str_replace_absent fence [] (clean raw) Hf). exact Hs.
Qed.

(** ** [call_with_retry] *)






(** ** [remove_think_tags] *)

Lemma remove_think_cons (c : N) (s : pystr) :
  remove_think_from (c :: s) 0
  = if is_prefix THINK_OPEN (c :: s) then
      match find_end THINK_CLOSE (drop (length THINK_OPEN) (c :: s)) with
      | Some n => remove_think_from s (length THINK_OPEN + n - 1)
      | None => c :: remove_think_from s 0
      end
    else c :: remove_think_from s 0.
Proof. reflexivity. Qed.

Lemma str_contains_drop (p s : pystr) (n : nat) :
  str_contains p s = false -> str_contains p (drop n s) = false.
Proof.
  revert s. induction n as [|n IH]; intros s H; [exact H|].
  destruct s as [|c s]; [exact H|].
  apply str_contains_tail in H as [_ H]. apply IH, H.
Qed.

Lemma find_end_cons (p : pystr) (c : N) (s : pystr) :
  find_end p (c :: s)
  = if is_prefix p (c :: s) then Some (length p) else S <$> find_end p s.
Proof. reflexivity. Qed.

Lemma find_end_none (p s : pystr) :
  str_contains p s = false -> find_end p s = None.
Proof.
  induction s as [|c s IH]; intros H.
  - simpl in *. apply orb_false_elim in H as [-> _]. reflexivity.
  - apply str_contains_tail in H as [Hp Hs].
    rewrite find_end_cons, Hp, (IH Hs). reflexivity.
Qed.

Lemma remove_think_length (s : pystr) :
  ∀ skip, (length (remove_think_from s skip) <= length s)%nat.
Proof.
  induction s as [|c s IH]; intros skip; [simpl; lia|].
  destruct skip as [|k]; [|simpl; specialize (IH k); lia].
  rewrite remove_think_cons.
  destruct (is_prefix THINK_OPEN (c :: s));
    [destruct (find_end THINK_CLOSE _) as [n|]|]; cbn [length].
  - pose proof (IH (length THINK_OPEN + n - 1)%nat). lia.
  - pose proof (IH 0%nat). lia.
  - pose proof (IH 0%nat). lia.
Qed.

(** X9.  [remove_think_tags] never lengthens a text, and leaves a text
    without an opening tag, or without a closing tag, as it is: an
    unclosed [<think>] block is kept. *)
Theorem remove_think_tags_untouched (text : pystr) :
  (length (remove_think_tags text) <= length text)%nat
  ∧ (str_contains THINK_OPEN text = false -> remove_think_tags text = text)
  ∧ (str_contains THINK_CLOSE text = false -> remove_think_tags text = text).
Proof.
  unfold remove_think_tags. split; [apply remove_think_length|]. split.
  - induction text as [|c s IH]; intros H; [reflexivity|].
    apply str_contains_tail in H as [Hp Hs].
    rewrite remove_think_cons, Hp, (IH Hs). reflexivity.
  - induction text as [|c s IH]; intros H; [reflexivity|].
    rewrite remove_think_cons.
    rewrite (find_end_none THINK_CLOSE _
               (str_contains_drop _ _ (length THINK_OPEN) H)).
    apply str_contains_tail in H as [_ Hs]. rewrite (IH Hs).
    destruct (is_prefix THINK_OPEN (c :: s)); reflexivity.
Qed.

Lemma tag_not_started (c0 c1 : N) (tag_rest s rest : pystr) (c : N) :
  c1 ≠ c0 ->
  str_contains [c0; c1] (c :: s) = false ->
  is_prefix (c0 :: c1 :: tag_rest) (c :: s ++ (c0 :: c1 :: tag_rest) ++ rest)
  = false.
Proof.
  intros Hne H. apply str_contains_tail in H as [Hp _].
  destruct (is_prefix (c0 :: c1 :: tag_rest) _) eqn:E; [|reflexivity].
  exfalso. cbn [is_prefix] in E, Hp.
  apply andb_true_iff in E as [E0 E].
  rewrite E0 in Hp. cbn [andb] in Hp.
  destruct s as [|d s]; cbn [app is_prefix] in E, Hp.
  - apply andb_true_iff in E as [E1 _]. apply bool_decide_eq_true in E1.
    congruence.
  - apply andb_true_iff in E as [E1 _]. rewrite E1 in Hp. discriminate Hp.
Qed.

Lemma remove_think_before (before rest : pystr) :
  str_contains (lit "<t") before = false ->
  remove_think_from (before ++ THINK_OPEN ++ rest) 0
  = before ++ remove_think_from (THINK_OPEN ++ rest) 0.
Proof.
  induction before as [|c s IH]; intros H; [reflexivity|].
  rewrite <- !app_comm_cons, remove_think_cons.
  assert (is_prefix THINK_OPEN (c :: s ++ THINK_OPEN ++ rest) = false)
    as -> by (apply (tag_not_started 60 116 (lit "hink>")); [lia | exact H]).
  apply str_contains_tail in H as [_ Hs]. rewrite (IH Hs). reflexivity.
Qed.

Lemma find_end_body (body after : pystr) :
  str_contains (lit "</") body = false ->
  find_end THINK_CLOSE (body ++ THINK_CLOSE ++ after)
  = Some (length body + length THINK_CLOSE)%nat.
Proof.
  induction body as [|c s IH]; intros H; [reflexivity|].
  rewrite <- app_comm_cons, find_end_cons.
  assert (is_prefix THINK_CLOSE (c :: s ++ THINK_CLOSE ++ after) = false)
    as -> by (apply (tag_not_started 60 47 (lit "think>")); [lia | exact H]).
  apply str_contains_tail in H as [_ Hs]. rewrite (IH Hs). reflexivity.
Qed.

Lemma remove_think_skip (s t : pystr) :
  remove_think_from (s ++ t) (length s) = remove_think_from t 0.
Proof.
  induction s as [|c s IH]; [destruct t; reflexivity | exact IH].
Qed.

(** X10.  A think block is removed with its tags, and what precedes it
    is kept: when the text before the block has no [<t] and the body of
    the block no [</], the result is the text before, followed by the
    rest of the text with its own blocks removed. *)
Theorem remove_think_tags_block (before body after : pystr) :
  str_contains (lit "<t") before = false ->
  str_contains (lit "</") body = false ->
  remove_think_tags (before ++ THINK_OPEN ++ body ++ THINK_CLOSE ++ after)
  = before ++ remove_think_tags after.
Proof.
  intros Hbefore Hbody. unfold remove_think_tags.
  rewrite remove_think_before by exact Hbefore. f_equal.
  change (THINK_OPEN ++ body ++ THINK_CLOSE ++ after)
    with (60%N :: (lit "think>" ++ body ++ THINK_CLOSE ++ after)).
  rewrite remove_think_cons.
  change (60%N :: (lit "think>" ++ body ++ THINK_CLOSE ++ after))
    with (THINK_OPEN ++ body ++ THINK_CLOSE ++ after).
  assert (is_prefix THINK_OPEN (THINK_OPEN ++ body ++ THINK_CLOSE ++ after)
          = true) as -> by (apply is_prefix_spec; eauto).
  rewrite drop_app_length, (find_end_body body after Hbody).
  rewrite <- (remove_think_skip (lit "think>" ++ body ++ THINK_CLOSE) after).
  rewrite <- !app_assoc. f_equal. rewrite !length_app.
  change (length THINK_OPEN) with 7%nat.
  change (length (lit "think>")) with 6%nat. lia.
Qed.

Lemma remove_think_tags_block_witness :
  remove_think_tags
    (lit "a < b" ++ THINK_OPEN ++ lit "x<y" ++ THINK_CLOSE ++ lit "ok")
  = lit "a < b" ++ remove_think_tags (lit "ok").
Proof.
  apply (remove_think_tags_block (lit "a < b") (lit "x<y") (lit "ok"));
    reflexivity.
Defined.

(** ** [_smart_truncate_with_jieba] *)

Lemma len_app {A} (s t : list A) : len (s ++ t) = len s + len t.
Proof. unfold len. rewrite length_app. lia. Qed.

Lemma range_steps_cover (n step : Z) :
  0 <= n -> 0 < step ->
  n <= Z.of_nat (Z.to_nat ((n + step - 1) / step)) * step.
Proof.
  intros Hn Hstep.
  pose proof (Z.div_mod (n + step - 1) step ltac:(lia)) as Hdm.
  pose proof (Z.mod_pos_bound (n + step - 1) step Hstep) as Hmod.
  pose proof (Z.div_pos (n + step - 1) step ltac:(lia) Hstep) as Hq.
  rewrite Z2Nat.id by exact Hq. nia.
Qed.

Lemma take_fitting_spec (max_length : Z) (words : list pystr) :
  ∀ (segments : list pystr) (current_length : Z),
  ∃ taken left,
    words = taken ++ left
    ∧ take_fitting max_length words segments current_length
      = segments ++ taken
    ∧ (current_length <= max_length ->
       current_length + len (concat taken) <= max_length).
Proof.
  induction words as [|word words IH]; intros segments current_length.
  - exists [], []. split; [reflexivity|].
    split; [rewrite app_nil_r; reflexivity|].
    intros H. unfold len. simpl. lia.
  - cbn [take_fitting].
    destruct (current_length + len word <=? max_length) eqn:E.
    + apply Z.leb_le in E.
      destruct (IH (segments ++ [word]) (current_length + len word))
        as (taken & left & -> & -> & Hlen).
      exists (word :: taken), left. split; [reflexivity|].
      split; [rewrite <- app_assoc; reflexivity|].
      intros _. cbn [concat]. rewrite len_app. specialize (Hlen E). lia.
    + exists [], (word :: words). split; [reflexivity|].
      split; [rewrite app_nil_r; reflexivity|].
      intros H. unfold len. simpl. lia.
Qed.

Lemma truncate_loop_cons jieba_cut (content : pystr) (max_length : Z)
    (k : nat) (start : Z) (segments : list pystr) (current_length : Z) :
  truncate_loop jieba_cut content max_length (range_from (S k) start 500)
    segments current_length
  = (let segment := slice content start (start + 500) in
     if max_length <? current_length + len segment then
       words ← jieba_cut segment;
       Ok (take_fitting max_length words segments current_length)
     else
       words ← jieba_cut segment;
       truncate_loop jieba_cut content max_length
         (range_from k (start + 500) 500) (segments ++ words)
         (current_length + len segment)).
Proof. reflexivity. Qed.

Lemma truncate_loop_spec jieba_cut (content : pystr) (max_length : Z) :
  (∀ s, ∃ words, jieba_cut s = Ok words ∧ concat words = s) ->
  ∀ (k : nat) (start : Z) (segments : list pystr),
    0 <= start ->
    concat segments = take (Z.to_nat start) content ->
    len (concat segments) <= max_length ->
    ∃ out,
      truncate_loop jieba_cut content max_length (range_from k start 500)
        segments (len (concat segments)) = Ok out
      ∧ concat out `prefix_of` content
      ∧ len (concat out) <= max_length
      ∧ (len content <= max_length ->
         concat out = take (Z.to_nat (start + Z.of_nat k * 500)) content).
Proof.
  intros Hcut. induction k as [|k IH]; intros start segments Hstart Hseg Hlen.
  - exists segments. split; [reflexivity|]. rewrite Hseg.
    split; [|split].
    + exists (drop (Z.to_nat start) content). symmetry. apply take_drop.
    + rewrite <- Hseg. exact Hlen.
    + intros _. do 2 f_equal. lia.
  - rewrite truncate_loop_cons. cbv zeta.
    rewrite slice_span by lia.
    set (segment := take (Z.to_nat 500) (drop (Z.to_nat start) content)).
    destruct (Hcut segment) as (words & -> & Hwords).
    assert (take (Z.to_nat start) content ++ segment
            = take (Z.to_nat (start + 500)) content) as Hnext.
    { unfold segment. rewrite take_take_drop. f_equal. lia. }
    unfold mbind, res_bind.
    destruct (max_length <? len (concat segments) + len segment) eqn:E.
    + apply Z.ltb_lt in E.
      destruct (take_fitting_spec max_length words segments
                  (len (concat segments)))
        as (taken & left & Hsplit & -> & Hfit).
      eexists. split; [reflexivity|].
      rewrite concat_app, len_app. split; [|split].
      * exists (concat left ++ drop (Z.to_nat 500)
                                    (drop (Z.to_nat start) content)).
        transitivity (take (Z.to_nat start) content ++ segment
                      ++ drop (Z.to_nat 500) (drop (Z.to_nat start) content)).
        { unfold segment. rewrite !take_drop. reflexivity. }
        rewrite <- Hwords, Hsplit, concat_app, Hseg.
        rewrite <- !app_assoc. reflexivity.
      * apply Hfit, Hlen.
      * intros Hall. exfalso.
        assert (len (concat segments) + len segment <= len content);
          [|lia].
        rewrite <- len_app, Hseg, Hnext. unfold len.
        rewrite length_take. lia.
    + apply Z.ltb_ge in E.
      assert (concat (segments ++ words)
              = take (Z.to_nat (start + 500)) content) as Hseg'
        by (rewrite concat_app, Hwords, Hseg; exact Hnext).
      assert (len (concat segments) + len segment
              = len (concat (segments ++ words))) as Hcur
        by (rewrite concat_app, len_app, Hwords; reflexivity).
      rewrite Hcur.
      destruct (IH (start + 500) (segments ++ words) ltac:(lia) Hseg'
                  ltac:(lia)) as (out & -> & Hpre & Hmax & Hall).
      exists out. split; [reflexivity|]. split; [exact Hpre|].
      split; [exact Hmax|]. intros H. rewrite (Hall H). do 2 f_equal. lia.
Qed.

(** X11.  With a tokenizer that returns the words of its input (their
    concatenation is the input) and a non-negative limit,
    [_smart_truncate_with_jieba] returns a prefix of the content of at
    most [max_length] characters, and the whole content when it fits. *)
Theorem smart_truncate_prefix jieba_cut (content : pystr) (max_length : Z) :
  0 <= max_length ->
  (∀ s, ∃ words, jieba_cut s = Ok words ∧ concat words = s) ->
  ∃ result,
    _smart_truncate_with_jieba jieba_cut content max_length = Ok result
    ∧ result `prefix_of` content
    ∧ len result <= max_length
    ∧ (len content <= max_length -> result = content).
Proof.
  intros Hmax Hcut. unfold _smart_truncate_with_jieba.
  destruct (py_range_positive (len content) 500 ltac:(lia))
    as (starts & -> & -> & _).
  destruct (truncate_loop_spec jieba_cut content max_length Hcut
              (Z.to_nat ((len content + 500 - 1) / 500)) 0 []
              ltac:(lia) eq_refl Hmax) as (out & Hrun & Hpre & Hlen & Hall).
  change (len (concat [])) with 0 in Hrun.
  unfold mbind, res_bind. rewrite Hrun. cbn [try_except].
  exists (concat out). split; [reflexivity|]. split; [exact Hpre|].
  split; [exact Hlen|]. intros H. rewrite (Hall H). apply take_ge.
  pose proof (range_steps_cover (len content) 500 (len_nonneg content)
                ltac:(lia)) as Hcover.
  unfold len in *. lia.
Qed.

Lemma smart_truncate_prefix_witness :
  ∃ result,
    _smart_truncate_with_jieba ws_cut (lit "ab cd ef") 4 = Ok result
    ∧ result `prefix_of` lit "ab cd ef"
    ∧ len result <= 4
    ∧ (len (lit "ab cd ef") <= 4 -> result = lit "ab cd ef").
Proof.
  apply (smart_truncate_prefix ws_cut (lit "ab cd ef") 4); [lia|].
  intros s. exists (ws_words s). split; [reflexivity|].
  induction s as [|c s IH]; [reflexivity|].
  cbn [ws_words]. destruct (isspace c); [cbn [concat app]; congruence|].
  destruct (ws_words s) as [|word rest] eqn:E.
  - simpl in IH. subst s. reflexivity.
  - destruct s as [|c' s']; [discriminate E|].
    destruct (isspace c'); cbn [concat app] in *; congruence.
Defined.

(** X12.  When the tokenizer raises on every input,
    [_smart_truncate_with_jieba] of a non-empty content returns the
    first [max_length] characters followed by three dots: for a limit
    within the content, three characters more than the limit. *)
Theorem smart_truncate_fallback jieba_cut (content : pystr)
    (max_length : Z) :
  (∀ s, ∃ e, jieba_cut s = Raise e) ->
  content ≠ [] ->
  _smart_truncate_with_jieba jieba_cut content max_length
  = Ok (slice content 0 max_length ++ lit "...")
  ∧ (0 <= max_length <= len content ->
     len (slice content 0 max_length ++ lit "...") = max_length + 3).
Proof.
  intros Hbroken Hne. split.
  - unfold _smart_truncate_with_jieba.
    destruct (py_range_positive (len content) 500 ltac:(lia))
      as (starts & -> & -> & _).
    destruct (Z.to_nat ((len content + 500 - 1) / 500)) as [|k] eqn:Hk.
    + exfalso.
      assert (0 < len content)
        by (destruct content; [congruence | unfold len; simpl; lia]).
      assert (1 <= (len content + 500 - 1) / 500)
        by (apply Z.div_le_lower_bound; lia). lia.
    + unfold mbind at 1. unfold res_bind at 1.
      rewrite truncate_loop_cons. cbv zeta.
      destruct (Hbroken (slice content 0 (0 + 500))) as [e ->].
      destruct (max_length <? 0 + len (slice content 0 (0 + 500)));
        reflexivity.
  - intros Hmax. rewrite len_app.
    rewrite <- (Z.add_0_l max_length) at 1.
    rewrite len_slice by lia. change (len (lit "...")) with 3. lia.
Qed.

Lemma smart_truncate_fallback_witness :
  _smart_truncate_with_jieba (fun _ => Raise RuntimeError) (lit "ab cd ef")
    4
  = Ok (slice (lit "ab cd ef") 0 4 ++ lit "...")
  ∧ (0 <= 4 <= len (lit "ab cd ef") ->
     len (slice (lit "ab cd ef") 0 4 ++ lit "...") = 4 + 3).
Proof.
  apply (smart_truncate_fallback (fun _ => Raise RuntimeError)
           (lit "ab cd ef") 4); [|discriminate].
  intros s. exists RuntimeError. reflexivity.
Defined.

(** ** The structural merges, key by key *)

Section MergeByKey.

Variable py_str : json -> pystr.

Lemma dict_get_None (key : pystr) (d : dict) :
  dict_get key d = None <-> key ∉ d.*1.
Proof.
  induction d as [|[k v] d IH]; simpl.
  - split; [intros _; apply not_elem_of_nil | reflexivity].
  - rewrite not_elem_of_cons. case_bool_decide as Hk.
    + split; [discriminate | intros [Hne _]; congruence].
    + rewrite IH. split; [intros H; split; [congruence | exact H] | tauto].
Qed.

Lemma dict_set_keys (key : pystr) (value : json) (d : dict) :
  (dict_set key value d).*1
  = if decide (key ∈ d.*1) then d.*1 else d.*1 ++ [key].
Proof.
  induction d as [|[k v] d IH].
  - destruct (decide (key ∈ (@nil (pystr * json)).*1)) as [H|H];
      [inversion H | reflexivity].
  - cbn [dict_set]. rewrite fmap_cons. cbn [fst].
    destruct (bool_decide_reflect (k = key)) as [->|Hk].
    + rewrite decide_True by apply list_elem_of_here. reflexivity.
    + rewrite fmap_cons, IH. cbn [fst].
      destruct (decide (key ∈ d.*1)) as [Hin|Hin].
      * rewrite decide_True by (apply list_elem_of_further, Hin).
        reflexivity.
      * rewrite decide_False; [reflexivity|].
        rewrite elem_of_cons. intros [->|H]; [apply Hk; reflexivity|].
        apply Hin, H.
Qed.

(** Both merge loops treat a key in one of three ways: a new key is
    appended, the value of a known key is replaced in place, or nothing
    changes. *)
Lemma merge_step_keys (merged : dict) (key : pystr) (result : dict) :
  (match dict_get key merged with
   | None => ∃ value, result = dict_set key value merged
   | Some _ => result = merged ∨ ∃ value, result = dict_set key value merged
   end) ->
  result.*1 = if decide (key ∈ merged.*1) then merged.*1
              else merged.*1 ++ [key].
Proof.
  destruct (dict_get key merged) as [cur|] eqn:Hget.
  - assert (key ∈ merged.*1) as Hin.
    { destruct (decide (key ∈ merged.*1)) as [H|H]; [exact H|].
      apply dict_get_None in H. congruence. }
    intros [->|[value ->]]; [|rewrite dict_set_keys];
      rewrite decide_True by exact Hin; reflexivity.
  - intros [value ->]. apply dict_set_keys.
Qed.

Lemma merge_dict_key_keys (merged : dict) (key : pystr) (value : json) :
  (merge_dict_key py_str merged (key, value)).*1
  = if decide (key ∈ merged.*1) then merged.*1 else merged.*1 ++ [key].
Proof.
  apply merge_step_keys. unfold merge_dict_key.
  destruct (dict_get key merged) as [cur|]; [|eauto].
  destruct value, cur; eauto.
Qed.

Lemma merge_worldview_key_keys (merged : dict) (key : pystr) (value : json) :
  (merge_worldview_key py_str merged (key, value)).*1
  = if decide (key ∈ merged.*1) then merged.*1 else merged.*1 ++ [key].
Proof.
  apply merge_step_keys. unfold merge_worldview_key.
  destruct (dict_get key merged) as [cur|]; [|eauto].
  destruct value, cur; eauto.
  destruct (negb (str_contains s s0)); eauto.
Qed.

Lemma filter_agree {A} (P Q : A -> Prop) `{∀ x, Decision (P x)}
    `{∀ x, Decision (Q x)} (l : list A) :
  (∀ x, x ∈ l -> (P x <-> Q x)) -> filter P l = filter Q l.
Proof.
  induction l as [|a l IH]; intros Hl; [reflexivity|].
  rewrite !filter_cons, IH
    by (intros x Hx; apply Hl, list_elem_of_further, Hx).
  pose proof (Hl a (list_elem_of_here a l)) as Ha.
  destruct (decide (P a)), (decide (Q a)); tauto || reflexivity.
Qed.

Lemma filter_all {A} (P : A -> Prop) `{∀ x, Decision (P x)} (l : list A) :
  (∀ x, x ∈ l -> P x) -> filter P l = l.
Proof.
  induction l as [|a l IH]; intros Hl; [reflexivity|].
  rewrite filter_cons, decide_True by apply Hl, list_elem_of_here.
  rewrite IH by (intros x Hx; apply Hl, list_elem_of_further, Hx).
  reflexivity.
Qed.

Lemma merge_fold_keys (step : dict -> pystr * json -> dict) :
  (∀ merged key value,
     (step merged (key, value)).*1
     = if decide (key ∈ merged.*1) then merged.*1 else merged.*1 ++ [key]) ->
  ∀ (new_dict base_dict : dict),
    NoDup new_dict.*1 ->
    (fold_left step new_dict base_dict).*1
    = base_dict.*1 ++ filter (fun key => key ∉ base_dict.*1) new_dict.*1.
Proof.
  intros Hstep. induction new_dict as [|[key value] rest IH];
    intros base_dict Hnd.
  - simpl. rewrite app_nil_r. reflexivity.
  - cbn [fold_left]. rewrite fmap_cons in Hnd.
    apply NoDup_cons in Hnd as [Hfresh Hnd].
    rewrite IH, Hstep by exact Hnd. rewrite fmap_cons. cbn [fst].
    rewrite filter_cons. destruct (decide (key ∈ base_dict.*1)) as [Hin|Hin].
    + rewrite decide_False by tauto. reflexivity.
    + rewrite decide_True by exact Hin. rewrite <- app_assoc. cbn [app].
      do 2 f_equal. apply filter_agree.
      intros k Hk. rewrite elem_of_app, list_elem_of_singleton.
      assert (k ≠ key) by (intros ->; apply Hfresh, Hk). tauto.
Qed.

(** X13.  The keys of a structural merge ([_merge_dict_data] and
    [_merge_worldview_data]) are the keys of the base mapping, in their
    order, followed by the keys that only the new mapping has, in their
    order: no key is lost and none moves. *)
Theorem merge_keys (base new : dict) :
  NoDup new.*1 ->
  (_merge_dict_data py_str base new).*1
  = base.*1 ++ filter (fun key => key ∉ base.*1) new.*1
  ∧ (_merge_worldview_data py_str base new).*1
    = base.*1 ++ filter (fun key => key ∉ base.*1) new.*1.
Proof.
  intros Hnd. split.
  - rewrite merge_dict_data_fold.
    apply merge_fold_keys; [apply merge_dict_key_keys | exact Hnd].
  - unfold _merge_worldview_data. destruct base as [|kv base].
    + simpl. symmetry. apply filter_all.
      intros k _. apply not_elem_of_nil.
    + destruct new as [|kv' new]; [simpl; rewrite app_nil_r; reflexivity|].
      cbn [truthy negb].
      apply merge_fold_keys; [apply merge_worldview_key_keys | exact Hnd].
Qed.

Lemma merge_fold_invariant (step : dict -> pystr * json -> dict)
    (P : dict -> Prop) :
  (∀ merged kv, P merged -> P (step merged kv)) ->
  ∀ (new_dict base_dict : dict),
    P base_dict -> P (fold_left step new_dict base_dict).
Proof.
  intros Hstep. induction new_dict as [|kv rest IH]; intros base_dict Hbase;
    [exact Hbase|].
  apply IH, Hstep, Hbase.
Qed.

(** X14.  A structural merge never overwrites a field of the base
    mapping that is not a list or a mapping: [_merge_dict_data] keeps it
    as it is, whatever the new mapping holds for the key;
    [_merge_worldview_data] does the same, except that a string may get
    further text appended to it. *)
Theorem merge_keeps_base_fields (base new : dict) (key : pystr)
    (cur : json) :
  dict_get key base = Some cur ->
  is_list cur = false -> is_dict cur = false ->
  dict_get key (_merge_dict_data py_str base new) = Some cur
  ∧ match cur with
    | JStr s =>
        ∃ more, dict_get key (_merge_worldview_data py_str base new)
                = Some (JStr (s ++ more))
    | _ => dict_get key (_merge_worldview_data py_str base new) = Some cur
    end.
Proof.
  intros Hget Hlist Hdict. split.
  - rewrite merge_dict_data_fold.
    apply (merge_fold_invariant (merge_dict_key py_str)
             (fun merged => dict_get key merged = Some cur)); [|exact Hget].
    intros merged [k value] Hm. unfold merge_dict_key.
    destruct (bool_decide_reflect (k = key)) as [->|Hne].
    + rewrite Hm. destruct value, cur; try discriminate; exact Hm.
    + destruct (dict_get k merged) as [c|];
        [destruct value, c|];
        rewrite ?dict_get_set, ?bool_decide_false by exact Hne; exact Hm.
  - set (kept := fun merged : dict =>
           match cur with
           | JStr s => ∃ more, dict_get key merged = Some (JStr (s ++ more))
           | _ => dict_get key merged = Some cur
           end).
    assert (kept base) as Hbase.
    { unfold kept. destruct cur; try exact Hget.
      exists []. rewrite app_nil_r. exact Hget. }
    change (kept (_merge_worldview_data py_str base new)).
    unfold _merge_worldview_data.
    destruct base as [|kv base]; [discriminate Hget|].
    destruct new as [|kv' new]; [exact Hbase|]. cbn [truthy negb].
    apply (merge_fold_invariant (merge_worldview_key py_str) kept);
      [|exact Hbase].
    intros merged [k value] Hm. unfold merge_worldview_key.
    destruct (bool_decide_reflect (k = key)) as [->|Hne].
    + unfold kept in *. destruct cur; try discriminate;
        try (rewrite Hm; destruct value; exact Hm).
      destruct Hm as [more Hm]. rewrite Hm.
      destruct value; try (exists more; exact Hm).
      destruct (negb (str_contains s0 (s ++ more)));
        [|exists more; exact Hm].
      exists (more ++ [10%N] ++ s0).
      rewrite dict_get_set, bool_decide_true by reflexivity.
      rewrite <- app_assoc. reflexivity.
    + assert (∀ v, kept (dict_set k v merged)) as Hset.
      { intros v. unfold kept in *.
        destruct cur;
          first [ rewrite dict_get_set, bool_decide_false by exact Hne;
                  exact Hm
                | destruct Hm as [more Hm']; exists more;
                  rewrite dict_get_set, bool_decide_false by exact Hne;
                  exact Hm' ]. }
      destruct (dict_get k merged) as [c|]; [|apply Hset].
      destruct value, c; try exact Hm; try apply Hset.
      destruct (negb (str_contains s s0)); [apply Hset | exact Hm].
Qed.

Lemma merge_fold_other (step : dict -> pystr * json -> dict) (key : pystr) :
  (∀ merged k v, k ≠ key ->
     dict_get key (step merged (k, v)) = dict_get key merged) ->
  ∀ (new_dict base_dict : dict),
    key ∉ new_dict.*1 ->
    dict_get key (fold_left step new_dict base_dict) = dict_get key base_dict.
Proof.
  intros Hother. induction new_dict as [|[k v] rest IH];
    intros base_dict Hfresh; [reflexivity|].
  rewrite fmap_cons, not_elem_of_cons in Hfresh. destruct Hfresh as [Hne Hfresh].
  cbn [fold_left]. rewrite IH by exact Hfresh. apply Hother.
  intros ->. apply Hne. reflexivity.
Qed.

Lemma merge_fold_at_key (step : dict -> pystr * json -> dict) (key : pystr)
    (combine : option json -> json -> json) :
  (∀ merged k v, k ≠ key ->
     dict_get key (step merged (k, v)) = dict_get key merged) ->
  (∀ merged v,
     dict_get key (step merged (key, v))
     = Some (combine (dict_get key merged) v)) ->
  ∀ (new_dict base_dict : dict) (value : json),
    NoDup new_dict.*1 ->
    dict_get key new_dict = Some value ->
    dict_get key (fold_left step new_dict base_dict)
    = Some (combine (dict_get key base_dict) value).
Proof.
  intros Hother Hkey. induction new_dict as [|[k v] rest IH];
    intros base_dict value Hnd Hget; [discriminate Hget|].
  rewrite fmap_cons in Hnd. apply NoDup_cons in Hnd as [Hfresh Hnd].
  rewrite dict_get_cons in Hget. cbn [fold_left]. cbn [fst] in Hfresh.
  destruct (bool_decide_reflect (k = key)) as [->|Hne].
  - injection Hget as ->.
    rewrite (merge_fold_other step key Hother) by exact Hfresh. apply Hkey.
  - rewrite (IH _ value Hnd Hget), Hother by exact Hne. reflexivity.
Qed.

Lemma merge_worldview_key_other (key : pystr) (merged : dict) (k : pystr)
    (v : json) :
  k ≠ key ->
  dict_get key (merge_worldview_key py_str merged (k, v))
  = dict_get key merged.
Proof.
  intros Hne. unfold merge_worldview_key.
  destruct (dict_get k merged) as [c|];
    [destruct v, c; try reflexivity;
     try destruct (negb (str_contains _ _)); try reflexivity|];
    rewrite dict_get_set, bool_decide_false by exact Hne; reflexivity.
Qed.

Lemma merge_dict_key_other (key : pystr) (merged : dict) (k : pystr)
    (v : json) :
  k ≠ key ->
  dict_get key (merge_dict_key py_str merged (k, v)) = dict_get key merged.
Proof.
  intros Hne. unfold merge_dict_key.
  destruct (dict_get k merged) as [c|];
    [destruct v, c; try reflexivity|];
    rewrite dict_get_set, bool_decide_false by exact Hne; reflexivity.
Qed.

Lemma append_unseen_tracking_spec (value : list json) :
  ∀ (existing_items : list pystr) (cur : list json),
    (∀ x, x ∈ existing_items <-> x ∈ py_str <$> cur) ->
    ∃ added,
      append_unseen_tracking py_str existing_items cur value = cur ++ added
      ∧ added `sublist_of` value
      ∧ (∀ item, item ∈ value -> py_str item ∈ py_str <$> (cur ++ added))
      ∧ (NoDup (py_str <$> cur) -> NoDup (py_str <$> (cur ++ added))).
Proof.
  induction value as [|item rest IH]; intros existing_items cur Hex.
  - exists []. rewrite app_nil_r. split; [reflexivity|].
    split; [constructor|]. split; [|auto]. intros item Hin. inversion Hin.
  - cbn [append_unseen_tracking]. unfold str_mem.
    destruct (bool_decide_reflect (py_str item ∈ existing_items)) as [Hin|Hin].
    + destruct (IH existing_items cur Hex) as (added & -> & Hsub & Hall & Hnd).
      exists added. split; [reflexivity|].
      split; [apply sublist_cons, Hsub|]. split; [|exact Hnd].
      intros x Hx. apply elem_of_cons in Hx as [->|Hx]; [|apply Hall, Hx].
      rewrite fmap_app, elem_of_app. left. apply Hex, Hin.
    + destruct (IH (py_str item :: existing_items) (cur ++ [item]))
        as (added & -> & Hsub & Hall & Hnd).
      { intros x. rewrite fmap_app, elem_of_cons, elem_of_app, Hex.
        cbn [fmap list_fmap]. rewrite list_elem_of_singleton. tauto. }
      exists (item :: added). rewrite <- app_assoc.
      split; [reflexivity|]. split; [apply sublist_skip, Hsub|].
      rewrite <- app_assoc in Hall, Hnd. cbn [app] in Hall, Hnd. split.
      * intros x Hx. apply elem_of_cons in Hx as [->|Hx]; [|apply Hall, Hx].
        rewrite fmap_app, elem_of_app. right. rewrite fmap_cons.
        apply list_elem_of_here.
      * intros Hcur. apply Hnd. rewrite fmap_app. apply NoDup_app.
        split; [exact Hcur|]. split; [|apply NoDup_singleton].
        intros x Hx. cbn [fmap list_fmap].
        rewrite list_elem_of_singleton. intros ->. apply Hin, Hex, Hx.
Qed.

(** X15.  A list field that both mappings have: [_merge_worldview_data]
    appends to the base list those items of the new list whose [str] is
    not yet there, each once, so that every new item is represented and
    a base list without repetitions stays without; [_merge_dict_data]
    appends every new item whose [str] is not in the base list, repeated
    ones included. *)
Theorem merge_list_field (base new : dict) (key : pystr)
    (cur vs : list json) :
  NoDup new.*1 ->
  dict_get key base = Some (JList cur) ->
  dict_get key new = Some (JList vs) ->
  (∃ added,
     dict_get key (_merge_worldview_data py_str base new)
     = Some (JList (cur ++ added))
     ∧ added `sublist_of` vs
     ∧ (∀ item, item ∈ vs -> py_str item ∈ py_str <$> (cur ++ added))
     ∧ (NoDup (py_str <$> cur) -> NoDup (py_str <$> (cur ++ added))))
  ∧ dict_get key (_merge_dict_data py_str base new)
    = Some (JList (cur ++ filter (fun item => py_str item ∉ py_str <$> cur)
                            vs)).
Proof.
  intros Hnd Hbase Hnew. split.
  - destruct (append_unseen_tracking_spec vs (py_str <$> cur) cur
                ltac:(tauto)) as (added & Hrun & Hspec).
    exists added. split; [|exact Hspec].
    unfold _merge_worldview_data.
    destruct base as [|kv base]; [discriminate Hbase|].
    destruct new as [|kv' new]; [discriminate Hnew|]. cbn [truthy negb].
    pose (combine := fun (o : option json) (v : json) =>
            match o with
            | None => v
            | Some c =>
                match v, c with
                | JList vs, JList cur_l =>
                    JList (append_unseen_tracking py_str
                             (map py_str cur_l) cur_l vs)
                | JDict new_d, JDict cur_d =>
                    JDict (_merge_dict_data py_str cur_d new_d)
                | JStr v, JStr cur_s =>
                    if negb (str_contains v cur_s)
                    then JStr (cur_s ++ [10%N] ++ v) else c
                | _, _ => c
                end
            end).
    assert (∀ merged v,
              dict_get key (merge_worldview_key py_str merged (key, v))
              = Some (combine (dict_get key merged) v)) as Hkey.
    { intros merged v. unfold merge_worldview_key, combine.
      destruct (dict_get key merged) as [c|] eqn:Hc.
      - destruct v, c; rewrite ?dict_get_set, ?bool_decide_true, ?Hc
          by reflexivity; try reflexivity.
        destruct (negb (str_contains s s0));
          rewrite ?dict_get_set, ?bool_decide_true, ?Hc by reflexivity;
          reflexivity.
      - rewrite dict_get_set, bool_decide_true by reflexivity. reflexivity. }
    rewrite (merge_fold_at_key (merge_worldview_key py_str) key combine
               (merge_worldview_key_other key) Hkey _ _ (JList vs) Hnd Hnew).
    rewrite Hbase. unfold combine. do 2 f_equal. exact Hrun.
  - rewrite merge_dict_data_fold.
    pose (combine := fun (o : option json) (v : json) =>
            match o with
            | None => v
            | Some c =>
                match v, c with
                | JDict new_d, JDict cur_d =>
                    JDict (_merge_dict_data py_str cur_d new_d)
                | JList vs, JList cur_l =>
                    JList (append_unseen py_str cur_l vs)
                | _, _ => c
                end
            end).
    assert (∀ merged v,
              dict_get key (merge_dict_key py_str merged (key, v))
              = Some (combine (dict_get key merged) v)) as Hkey.
    { intros merged v. unfold merge_dict_key, combine.
      destruct (dict_get key merged) as [c|] eqn:Hc.
      - destruct v, c; rewrite ?dict_get_set, ?bool_decide_true, ?Hc
          by reflexivity; reflexivity.
      - rewrite dict_get_set, bool_decide_true by reflexivity. reflexivity. }
    rewrite (merge_fold_at_key (merge_dict_key py_str) key combine
               (merge_dict_key_other key) Hkey _ _ (JList vs) Hnd Hnew).
    rewrite Hbase. unfold combine, append_unseen. do 3 f_equal.
    apply list_filter_iff. intros item. unfold str_mem.
    rewrite negb_True, bool_decide_spec. reflexivity.
Qed.

End MergeByKey.

Lemma merge_keeps_base_fields_witness :
  dict_get (lit "era") (_merge_dict_data sample_str
                          [jkey "era" (jstr "old")] [jkey "era" (jstr "new")])
  = Some (jstr "old")
  ∧ ∃ more,
      dict_get (lit "era") (_merge_worldview_data sample_str
                              [jkey "era" (jstr "old")]
                              [jkey "era" (jstr "new")])
      = Some (JStr (lit "old" ++ more)).
Proof.
  apply (merge_keeps_base_fields sample_str [jkey "era" (jstr "old")]
           [jkey "era" (jstr "new")] (lit "era") (jstr "old"));
    reflexivity.
Defined.

Lemma merge_keys_witness :
  (_merge_dict_data sample_str
     [jkey "era" (jstr "old"); jkey "magic" (JList [])]
     [jkey "magic" (JList [jstr "fire"]); jkey "maps" (JList [])]).*1
  = [lit "era"; lit "magic"] ++ [lit "maps"]
  ∧ (_merge_worldview_data sample_str
       [jkey "era" (jstr "old"); jkey "magic" (JList [])]
       [jkey "magic" (JList [jstr "fire"]); jkey "maps" (JList [])]).*1
    = [lit "era"; lit "magic"] ++ [lit "maps"].
Proof.
  apply (merge_keys sample_str
           [jkey "era" (jstr "old"); jkey "magic" (JList [])]
           [jkey "magic" (JList [jstr "fire"]); jkey "maps" (JList [])]).
  apply (bool_decide_unpack _). vm_compute. exact I.
Defined.

Lemma merge_list_field_witness :
  (∃ added,
     dict_get (lit "magic")
       (_merge_worldview_data sample_str
          [jkey "magic" (JList [jstr "ice"])]
          [jkey "magic" (JList [jstr "fire"; jstr "ice"; jstr "fire"])])
     = Some (JList ([jstr "ice"] ++ added))
     ∧ added `sublist_of` [jstr "fire"; jstr "ice"; jstr "fire"]
     ∧ (∀ item, item ∈ [jstr "fire"; jstr "ice"; jstr "fire"] ->
          sample_str item ∈ sample_str <$> ([jstr "ice"] ++ added))
     ∧ (NoDup (sample_str <$> [jstr "ice"]) ->
        NoDup (sample_str <$> ([jstr "ice"] ++ added))))
  ∧ dict_get (lit "magic")
      (_merge_dict_data sample_str
         [jkey "magic" (JList [jstr "ice"])]
         [jkey "magic" (JList [jstr "fire"; jstr "ice"; jstr "fire"])])
    = Some (JList ([jstr "ice"]
                   ++ filter (fun item => sample_str item
                                          ∉ sample_str <$> [jstr "ice"])
                        [jstr "fire"; jstr "ice"; jstr "fire"])).
Proof.
  apply (merge_list_field sample_str
           [jkey "magic" (JList [jstr "ice"])]
           [jkey "magic" (JList [jstr "fire"; jstr "ice"; jstr "fire"])]
           (lit "magic") [jstr "ice"]
           [jstr "fire"; jstr "ice"; jstr "fire"]);
    [apply NoDup_singleton | reflexivity | reflexivity].
Defined.

(** ** The character lists: sizes, entries without a name *)

Section CharacterLists.

Variable py_str : json -> pystr.

Lemma merge_into_existing_length (char_name new_char : json)
    (merged : list json) :
  ∀ merged',
    merge_into_existing py_str merged char_name new_char = Ok merged' ->
    length merged' = length merged.
Proof.
  induction merged as [|existing_char rest IH]; intros merged' Hrun.
  - injection Hrun as <-. reflexivity.
  - cbn [merge_into_existing] in Hrun. unfold mbind, res_bind in Hrun.
    destruct (get_attr existing_char (lit "name") JNull) as [name|];
      [|discriminate Hrun].
    destruct (py_eq name char_name).
    + destruct existing_char, new_char; try discriminate Hrun.
      injection Hrun as <-. reflexivity.
    + destruct (merge_into_existing py_str rest char_name new_char)
        as [rest'|] eqn:Hrest; [|discriminate Hrun].
      injection Hrun as <-. simpl. f_equal. apply IH. reflexivity.
Qed.

Lemma merge_character_length (merged existing_names : pyset)
    (new_char : json) (merged' existing_names' : pyset) :
  merge_character py_str (merged, existing_names) new_char
    = Ok (merged', existing_names') ->
  (length merged <= length merged' <= S (length merged))%nat.
Proof.
  unfold merge_character, mbind, res_bind. intros Hrun.
  destruct (get_attr new_char (lit "name") (JStr [])) as [char_name|];
    [|discriminate Hrun].
  destruct (if json_truthy char_name
            then match set_mem char_name existing_names with
                 | Ok seen => Ok (negb seen)
                 | Raise e => Raise e
                 end
            else Ok false) as [[|]|]; [| |discriminate Hrun].
  - destruct (set_add char_name existing_names); [|discriminate Hrun].
    injection Hrun as <- _. rewrite length_app. simpl. lia.
  - destruct (set_mem char_name existing_names) as [[|]|];
      [| |discriminate Hrun].
    + destruct (merge_into_existing py_str merged char_name new_char)
        as [out|] eqn:Hout; [|discriminate Hrun].
      injection Hrun as <- _.
      apply merge_into_existing_length in Hout. lia.
    + injection Hrun as <- _. lia.
Qed.

Lemma merge_characters_length (new_list : list json) :
  ∀ (merged existing_names merged' existing_names' : pyset),
    merge_characters py_str (merged, existing_names) new_list
      = Ok (merged', existing_names') ->
    (length merged <= length merged'
     <= length merged + length new_list)%nat.
Proof.
  induction new_list as [|new_char rest IH];
    intros merged names merged' names' Hrun.
  - injection Hrun as <- _. simpl. lia.
  - cbn [merge_characters] in Hrun. unfold mbind, res_bind in Hrun.
    destruct (merge_character py_str (merged, names) new_char)
      as [[merged1 names1]|] eqn:Hstep; [|discriminate Hrun].
    apply merge_character_length in Hstep. apply IH in Hrun.
    simpl. lia.
Qed.

(** X16.  Whenever [_merge_character_lists] returns, the merged list has
    at least as many entries as the base list and at most as many as
    both lists together: no character of the base list is dropped, and
    each new character adds at most one entry. *)
Theorem merge_character_lists_length (base_list new_list out : list json) :
  _merge_character_lists py_str base_list new_list = Ok out ->
  (length base_list <= length out
   <= length base_list + length new_list)%nat.
Proof.
  unfold _merge_character_lists. intros Hrun.
  destruct base_list as [|b base]; [injection Hrun as <-; simpl; lia|].
  destruct new_list as [|c new]; [injection Hrun as <-; simpl; lia|].
  cbn [truthy negb] in Hrun. unfold mbind, res_bind in Hrun.
  destruct (names_of (b :: base) []) as [existing_names|];
    [|discriminate Hrun].
  destruct (merge_characters py_str (b :: base, existing_names) (c :: new))
    as [[merged names]|] eqn:Hmerge; [|discriminate Hrun].
  injection Hrun as <-. apply merge_characters_length in Hmerge. exact Hmerge.
Qed.

Lemma names_of_named (chars : list json) :
  ∀ acc : pyset,
    Forall (fun char => is_Some (entry_name char)) chars ->
    Forall (fun name => ∃ s, name = JStr s ∧ s ≠ []) acc ->
    ∃ existing_names,
      names_of chars acc = Ok existing_names
      ∧ Forall (fun name => ∃ s, name = JStr s ∧ s ≠ []) existing_names.
Proof.
  induction chars as [|char rest IH]; intros acc Hchars Hacc;
    [exists acc; split; [reflexivity | exact Hacc]|].
  apply Forall_cons in Hchars as [[s Hs] Hrest].
  destruct char as [| | | | |d]; try discriminate Hs.
  unfold entry_name, name_value in Hs.
  destruct (dict_get (lit "name") d) as [[| | |s'| |]|] eqn:Hname;
    try discriminate Hs.
  destruct s' as [|ch s']; [discriminate Hs|].
  cbn [names_of]. unfold mbind, res_bind, get_attr. rewrite Hname.
  cbn [default]. unfold id, set_add. cbn [hashable].
  apply IH; [exact Hrest|].
  destruct (existsb (py_eq (JStr (ch :: s'))) acc); [exact Hacc|].
  apply Forall_app. split; [exact Hacc|]. constructor; [|constructor].
  eexists. split; [reflexivity | discriminate].
Qed.

(** X17.  A new character without a name (no [name] key, or an empty
    one) is dropped by the structural merge: when every entry of a
    non-empty base list is a mapping with a non-empty string name and no
    new character has a name, the result is the base list as it was. *)
Theorem nameless_characters_dropped (base_list new_list : list json) :
  base_list ≠ [] ->
  Forall (fun char => is_Some (entry_name char)) base_list ->
  Forall (fun char => ∃ d, char = JDict d
            ∧ (dict_get (lit "name") d = None
               ∨ dict_get (lit "name") d = Some (JStr []))) new_list ->
  _merge_character_lists py_str base_list new_list = Ok base_list.
Proof.
  intros Hne Hbase Hnew. unfold _merge_character_lists.
  destruct base_list as [|b base]; [congruence|].
  destruct new_list as [|c new]; [reflexivity|]. cbn [truthy negb].
  destruct (names_of_named (b :: base) [] Hbase ltac:(constructor))
    as (existing_names & -> & Hnames).
  unfold mbind, res_bind.
  assert (existsb (py_eq (JStr [])) existing_names = false) as Hunseen.
  { clear -Hnames. induction Hnames as [|name names (s & -> & Hs) _ IH];
      [reflexivity|].
    change (existsb (py_eq (JStr [])) (JStr s :: names))
      with (bool_decide ([] = s) || existsb (py_eq (JStr [])) names).
    rewrite IH, bool_decide_false by congruence. reflexivity. }
  assert (merge_characters py_str (b :: base, existing_names) (c :: new)
          = Ok (b :: base, existing_names)) as ->; [|reflexivity].
  generalize (b :: base) as merged. intros merged.
  induction Hnew as [|char chars (d & -> & Hd) _ IH]; [reflexivity|].
  cbn [merge_characters]. unfold mbind, res_bind.
  assert (merge_character py_str (merged, existing_names) (JDict d)
          = Ok (merged, existing_names)) as ->; [|exact IH].
  unfold merge_character, mbind, res_bind, get_attr.
  assert (default (JStr []) (dict_get (lit "name") d) = JStr []) as ->
    by (destruct Hd as [-> | ->]; reflexivity).
  cbn [json_truthy truthy]. unfold set_mem. cbn [hashable].
  rewrite Hunseen. reflexivity.
Qed.

End CharacterLists.

Lemma merge_character_lists_length_witness :
  (length [JDict [jkey "name" (jstr "A")]]
   <= length [JDict [jkey "name" (jstr "A")]; JDict [jkey "name" (jstr "B")]]
   <= length [JDict [jkey "name" (jstr "A")]]
      + length [JDict [jkey "name" (jstr "A")];
                JDict [jkey "name" (jstr "B")]])%nat.
Proof.
  apply (merge_character_lists_length sample_str
           [JDict [jkey "name" (jstr "A")]]
           [JDict [jkey "name" (jstr "A")]; JDict [jkey "name" (jstr "B")]]).
  reflexivity.
Defined.

Lemma nameless_characters_dropped_witness :
  _merge_character_lists sample_str
    [JDict [jkey "name" (jstr "A")]]
    [JDict [jkey "age" (JInt 7)]; JDict [jkey "name" (JStr [])]]
  = Ok [JDict [jkey "name" (jstr "A")]].
Proof.
  apply (nameless_characters_dropped sample_str
           [JDict [jkey "name" (jstr "A")]]
           [JDict [jkey "age" (JInt 7)]; JDict [jkey "name" (JStr [])]]).
  - discriminate.
  - constructor; [|constructor]. exists (lit "A"). reflexivity.
  - constructor; [|constructor; [|constructor]].
    + eexists. split; [reflexivity|]. left. reflexivity.
    + eexists. split; [reflexivity|]. right. reflexivity.
Defined.

(** ** One chunk: [process_single_segment] *)

Lemma vector_context_quiet (store : option similarity_index)
    (content query : pystr) (top_k : Z) (w : world) :
  ∃ (context : pystr) (logs : world),
    extract_with_vector_context store content query top_k w
      = (Ok context, w ++ logs)
    ∧ without_logs logs = [].
Proof.
  destruct store as [similarity_search|]; simpl.
  - unfold catch, mbind, M_bind, lift.
    destruct (similarity_search query top_k) as [results|e]; simpl.
    + exists (join [10%N; 10%N] results), []. rewrite app_nil_r. eauto.
    + exists (slice content 0 2000), [EvLog Warning]. eauto.
  - exists (slice content 0 2000), []. rewrite app_nil_r. eauto.
Qed.

Lemma calls_of_logs (logs : world) :
  without_logs logs = [] -> calls_so_far logs = 0%nat.
Proof.
  intros H. rewrite <- calls_so_far_without_logs, H. reflexivity.
Qed.

(** X18.  The task of one chunk never raises: it returns [None] or a
    value, after at most three calls of the completion service.  For the
    character extraction the value is always a list; and a template name
    other than [worldview], [character] and [plot] gives [None] without
    any call of the service. *)
Theorem process_single_segment_total (json_loads : pystr -> option json)
    (prompt_definitions : res prompt_templates) (self : KnowledgeParser)
    (adapter : completion_service)
    (extraction_type prompt_template_name context_query : pystr)
    (segment_data : segment) (w : world) :
  ∃ (result : json) (produced : world),
    process_single_segment json_loads prompt_definitions self adapter
      extraction_type prompt_template_name context_query segment_data w
    = (Ok result, w ++ produced)
    ∧ (calls_so_far produced <= 3)%nat
    ∧ (extraction_type = CHARACTERS ->
       result = JNull ∨ is_list result = true)
    ∧ (prompt_template_name ≠ lit "worldview" ->
       prompt_template_name ≠ lit "character" ->
       prompt_template_name ≠ lit "plot" ->
       result = JNull ∧ without_logs produced = []).
Proof.
  unfold process_single_segment.
  destruct (vector_context_quiet (vector_store self) (text segment_data)
              context_query 8 (w ++ [EvLog Info]))
    as (context & logs & Hcontext & Hlogs).
  pose proof (calls_of_logs logs Hlogs) as Hcalls.
  assert (∀ (tail : world),
            without_logs tail = [] ->
            ∃ produced,
              (w ++ [EvLog Info]) ++ logs ++ tail = w ++ produced
              ∧ (calls_so_far produced <= 3)%nat
              ∧ without_logs produced = []) as Hquiet.
  { intros tail Htail. exists ([EvLog Info] ++ logs ++ tail).
    split; [rewrite <- app_assoc; reflexivity|].
    rewrite !calls_so_far_app, !without_logs_app, Hcalls, Hlogs, Htail.
    rewrite (calls_of_logs tail Htail). split; [simpl; lia | reflexivity]. }
  unfold log, emit.
  unfold mbind at 1. unfold M_bind at 1. cbv beta iota.
  unfold catch. unfold mbind at 1. unfold M_bind at 1. rewrite Hcontext.
  unfold mbind at 1. unfold M_bind at 1. unfold lift at 1.
  destruct prompt_definitions as [templates|e].
  2:{ destruct (Hquiet [EvLog Error] eq_refl) as (produced & Hw & Hc & Hl).
      exists JNull, produced. unfold mbind, M_bind, mret, M_ret.
      rewrite <- Hw, <- !app_assoc. eauto 10. }
  destruct (bool_decide (prompt_template_name = lit "worldview")
            || bool_decide (prompt_template_name = lit "character")
            || bool_decide (prompt_template_name = lit "plot")) eqn:Hknown.
  2:{ destruct (Hquiet [EvLog Error] eq_refl) as (produced & Hw & Hc & Hl).
      exists JNull, produced. unfold mbind, M_bind, mret, M_ret.
      rewrite <- Hw, <- !app_assoc. eauto 10. }
  assert (¬ (prompt_template_name ≠ lit "worldview"
             ∧ prompt_template_name ≠ lit "character"
             ∧ prompt_template_name ≠ lit "plot")) as Hname.
  { intros (H1 & H2 & H3).
    rewrite !bool_decide_false in Hknown by assumption.
    discriminate Hknown. }
  match goal with
  | |- context [lift (?template ?arg)] =>
      destruct (template arg) as [prompt|e] eqn:Hprompt
  end.
  2:{ destruct (Hquiet [EvLog Error] eq_refl) as (produced & Hw & Hc & Hl).
      exists JNull, produced. unfold mbind, M_bind, mret, M_ret, lift.
      rewrite <- Hw, <- !app_assoc. eauto 10. }
  unfold mbind at 1. unfold M_bind at 1. unfold lift at 1.
  unfold mbind at 1. unfold M_bind at 1.
  destruct (invoke_with_cleaning_spec adapter prompt default_max_retries
              ((w ++ [EvLog Info]) ++ logs))
    as (result & made & k & -> & Hk & Hmade & _).
  change (Z.to_nat default_max_retries) with 3%nat in Hk.
  assert (∀ (v : json) (tail : world),
            without_logs tail = [] ->
            (extraction_type = CHARACTERS -> v = JNull ∨ is_list v = true) ->
            ∃ (result0 : json) (produced : world),
              (Ok v, (((w ++ [EvLog Info]) ++ logs) ++ made) ++ tail)
              = (Ok result0, w ++ produced)
              ∧ (calls_so_far produced <= 3)%nat
              ∧ (extraction_type = CHARACTERS ->
                 result0 = JNull ∨ is_list result0 = true)
              ∧ (prompt_template_name ≠ lit "worldview" ->
                 prompt_template_name ≠ lit "character" ->
                 prompt_template_name ≠ lit "plot" ->
                 result0 = JNull ∧ without_logs produced = [])) as Hleaf.
  { intros v tail Htail Hv.
    exists v, ([EvLog Info] ++ logs ++ made ++ tail).
    split; [rewrite <- !app_assoc; reflexivity|].
    split; [|split; [exact Hv | intros; exfalso; apply Hname; auto]].
    rewrite !calls_so_far_app, Hcalls, Hmade, (calls_of_logs tail Htail).
    simpl. lia. }
  unfold log, emit, mbind, M_bind, mret, M_ret.
  destruct (negb (truthy (strip result)));
    [apply (Hleaf JNull [EvLog Warning]); auto|].
  destruct (json_loads result) as [segment_data_result|].
  - destruct (bool_decide_reflect (extraction_type = CHARACTERS)) as [Hc|Hc].
    + destruct segment_data_result;
        first [ apply (Hleaf JNull [EvLog Warning]); auto
              | apply (Hleaf _ [EvLog Info]); auto ].
    + apply (Hleaf _ [EvLog Info]); [reflexivity | intros; contradiction].
  - destruct (bool_decide_reflect (extraction_type = WORLDVIEW)) as [Hw|Hw];
      [apply (Hleaf _ [EvLog Warning]);
       [reflexivity | intros ->; discriminate Hw]|].
    destruct (bool_decide_reflect (extraction_type = CHARACTERS)) as [Hc|Hc];
      [apply (Hleaf _ [EvLog Warning]); auto|].
    destruct (bool_decide (extraction_type = PLOT));
      apply (Hleaf _ [EvLog Warning]); try reflexivity;
      intros; contradiction.
Qed.

(** ** [analyze_relationships] and [generate_structure] *)


(** X20.  [generate_structure] returns only for inputs of the right
    shapes: a world view or a plot outline that is not a mapping (a list,
    as a merge reply can be) makes it raise [AttributeError].  When it
    returns, the structure holds the four inputs under their keys, with
    the empty mapping in place of missing relationships. *)
Theorem generate_structure_shapes (worldview characters plot_outline
    relationships : json) :
  (is_dict worldview = false ->
   generate_structure worldview characters plot_outline relationships
   = Raise AttributeError)
  ∧ ∀ result,
      generate_structure worldview characters plot_outline relationships
      = Ok result ->
      is_dict worldview = true ∧ is_dict plot_outline = true
      ∧ (json_truthy relationships = true -> is_dict relationships = true)
      ∧ get_attr result (lit "worldview") JNull = Ok worldview
      ∧ get_attr result (lit "characters") JNull = Ok characters
      ∧ get_attr result (lit "plot_outline") JNull = Ok plot_outline
      ∧ get_attr result (lit "relationships") JNull
        = Ok (if json_truthy relationships then relationships
              else JDict []).
Proof.
  split.
  - intros Hw. destruct worldview; try discriminate Hw; reflexivity.
  - intros result Hrun. unfold generate_structure in Hrun.
    unfold mbind, res_bind in Hrun.
    destruct worldview as [| | | | |wd]; try discriminate Hrun.
    cbn [get_attr] in Hrun.
    destruct (py_len (default (JList []) (dict_get (lit "elements") wd)));
      [|discriminate Hrun].
    destruct (py_len characters); [|discriminate Hrun].
    destruct plot_outline as [| | | | |pd]; try discriminate Hrun.
    cbn [get_attr] in Hrun.
    destruct (py_len (default (JList []) (dict_get (lit "plot_points") pd)));
      [|discriminate Hrun].
    assert (json_truthy relationships = true -> is_dict relationships = true)
      as Hrel.
    { intros Ht. rewrite Ht in Hrun.
      destruct relationships; try discriminate Hrun; reflexivity. }
    destruct (if json_truthy relationships
              then match get_attr relationships (lit "relationships")
                           (JList []) with
                   | Ok rels => py_len rels
                   | Raise e => Raise e
                   end
              else Ok 0); [|discriminate Hrun].
    injection Hrun as <-. repeat split; try reflexivity. exact Hrel.
Qed.

(** ** The extractions end to end, and the sizes they depend on *)

Lemma preprocess_text_blank (content : pystr) :
  visible content = [] -> preprocess_text content = [].
Proof.
  intros H. apply truthy_strip_false in H. unfold preprocess_text.
  rewrite H. cbn [negb]. rewrite orb_true_r. reflexivity.
Qed.

Lemma preprocess_text_visible (content : pystr) :
  visible content ≠ [] -> truthy (preprocess_text content) = true.
Proof.
  intros Hne. unfold preprocess_text.
  assert (truthy (strip content) = true) as ->.
  { destruct (truthy (strip content)) eqn:E; [reflexivity|].
    apply truthy_strip_false in E. congruence. }
  assert (truthy content = true) as ->.
  { destruct content; [|reflexivity]. exfalso. apply Hne. reflexivity. }
  cbn [negb orb]. destruct (split_ws_words content) as [Hwords Hconcat].
  destruct (join [32%N] (split_ws content)) eqn:E; [|reflexivity].
  exfalso. apply Hne.
  rewrite <- Hconcat, <- (visible_join (split_ws content)) by exact Hwords.
  rewrite E. reflexivity.
Qed.

Section Pipeline.

Variable jieba_cut : pystr -> res (list pystr).
Variable py_str : json -> pystr.
Variable json_loads : pystr -> option json.
Variable json_dumps : list json -> pystr.
Variable _build_merge_prompt : pystr -> pystr -> pystr.
Variable prompt_definitions : res prompt_templates.
Variable self : KnowledgeParser.

Local Abbreviation ai_merge :=
  (_ai_merge_group py_str json_loads json_dumps _build_merge_prompt self).
Local Abbreviation groups :=
  (merge_groups py_str json_loads json_dumps _build_merge_prompt self).
Local Abbreviation levels :=
  (merge_levels py_str json_loads json_dumps _build_merge_prompt self).
Local Abbreviation hierarchical :=
  (_hierarchical_merge_results py_str json_loads json_dumps
     _build_merge_prompt self).
Local Abbreviation run_with f :=
  (f jieba_cut py_str json_loads json_dumps _build_merge_prompt
     prompt_definitions self).

Lemma hierarchical_worldview_returns (results : list json)
    (extraction_type : pystr) (w : world) :
  extraction_type ≠ CHARACTERS ->
  ∃ v w', hierarchical (length results) results
            (worldview_merge_func py_str) extraction_type
            default_group_size w = (Ok (Some v), w').
Proof.
  intros Hne. destruct results as [|a [|b rest]]; [simpl; eauto..|].
  unfold _hierarchical_merge_results. cbn [truthy negb].
  apply merge_levels_worldview_returns;
    [unfold default_group_size; lia | exact Hne | lia].
Qed.

(** X21.  With a positive number of workers, the world view and the plot
    extractions never raise and always return a value, whatever the
    tokenizer, the completion service and the scheduling of the workers
    do. *)
Theorem extract_worldview_total (content : pystr) (w : world) :
  0 < max_concurrent_requests self ->
  (∃ v w', run_with extract_worldview content w = (Ok (Some v), w'))
  ∧ (∃ v w', run_with extract_plot_outline content w = (Ok (Some v), w')).
Proof.
  intros Hpool.
  destruct (split_numbered jieba_cut (preprocess_text content)
              default_segment_size ltac:(unfold default_segment_size; lia))
    as (segs & Hsegs & _).
  split.
  - unfold extract_worldview. cbv zeta.
    unfold log, emit, lift, mbind, M_bind, mret, M_ret.
    destruct (truthy (preprocess_text content)); cbn [negb]; [|eauto].
    rewrite Hsegs. unfold _process_segment_concurrently, dispatch.
    destruct (max_concurrent_requests self <=? 0) eqn:E;
      [apply Z.leb_le in E; lia|].
    match goal with
    | |- context [truthy ?r] => generalize r; intros results
    end.
    destruct (truthy results); cbn [negb]; [|eauto].
    match goal with
    | |- context [_hierarchical_merge_results _ _ _ _ _ _ _ _ _ _ ?w0] =>
        destruct (hierarchical_worldview_returns results WORLDVIEW w0
                    ltac:(discriminate)) as (v & w' & ->)
    end.
    eauto.
  - unfold extract_plot_outline. cbv zeta.
    unfold log, emit, lift, mbind, M_bind, mret, M_ret.
    destruct (truthy (preprocess_text content)); cbn [negb]; [|eauto].
    rewrite Hsegs. unfold _process_segment_concurrently, dispatch.
    destruct (max_concurrent_requests self <=? 0) eqn:E;
      [apply Z.leb_le in E; lia|].
    match goal with
    | |- context [truthy ?r] => generalize r; intros results
    end.
    destruct (truthy results); cbn [negb]; [|eauto].
    match goal with
    | |- context [_hierarchical_merge_results _ _ _ _ _ _ _ _ _ _ ?w0] =>
        destruct (hierarchical_worldview_returns results PLOT w0
                    ltac:(discriminate)) as (v & w' & ->)
    end.
    eauto.
Qed.

(** X22.  A parser configured with zero or fewer workers cannot extract
    anything: on a text that is not blank each of the three extractions
    raises [ValueError] (from the worker pool), and all it has done by
    then is write log lines: the completion service is never called. *)
Theorem extraction_needs_workers (content : pystr) (w : world) :
  max_concurrent_requests self <= 0 ->
  visible content ≠ [] ->
  (∃ logs, run_with extract_worldview content w
           = (Raise ValueError, w ++ logs)
           ∧ without_logs logs = [])
  ∧ (∃ logs, run_with extract_characters content w
             = (Raise ValueError, w ++ logs)
             ∧ without_logs logs = [])
  ∧ (∃ logs, run_with extract_plot_outline content w
             = (Raise ValueError, w ++ logs)
             ∧ without_logs logs = []).
Proof.
  intros Hpool Hvisible.
  destruct (split_numbered jieba_cut (preprocess_text content)
              default_segment_size ltac:(unfold default_segment_size; lia))
    as (segs & Hsegs & _).
  pose proof (preprocess_text_visible content Hvisible) as Htext.
  apply Z.leb_le in Hpool.
  unfold extract_worldview, extract_characters, extract_plot_outline.
  cbv zeta. unfold log, emit, lift, mbind, M_bind, mret, M_ret.
  rewrite Htext, Hsegs. cbn [negb].
  unfold _process_segment_concurrently, dispatch. rewrite Hpool.
  repeat split; exists [EvLog Info]; split; reflexivity.
Qed.

(** X23.  A text without any non-whitespace character costs nothing:
    each extraction returns its empty value (a mapping, or a list for
    the characters) without tokenizing, without starting a worker and
    without any call of the completion service. *)
Theorem blank_content_extracts_nothing (content : pystr) (w : world) :
  visible content = [] ->
  run_with extract_worldview content w
  = (Ok (Some (JDict [])), w ++ [EvLog Info; EvLog Warning])
  ∧ run_with extract_characters content w = (Ok (Some (JList [])), w ++ [EvLog Info])
  ∧ run_with extract_plot_outline content w
    = (Ok (Some (JDict [])), w ++ [EvLog Info; EvLog Warning]).
Proof.
  intros Hblank. apply preprocess_text_blank in Hblank.
  unfold extract_worldview, extract_characters, extract_plot_outline.
  cbv zeta. unfold log, emit, lift, mbind, M_bind, mret, M_ret.
  rewrite Hblank. cbn [truthy negb]. rewrite <- !app_assoc.
  repeat split.
Qed.

Lemma merge_groups_of_one (current_results : list json)
    (merge_func : json -> json -> res json) (extraction_type : pystr) :
  Forall (fun r => is_none r = false) current_results ->
  ∀ (k : nat) (i : nat) (next_level_results : list json) (w : world),
    (i + k <= length current_results)%nat ->
    groups current_results merge_func extraction_type 1
      (range_from k (Z.of_nat i) 1) next_level_results w
    = (Ok (next_level_results ++ take k (drop i current_results)), w).
Proof.
  intros Hall. induction k as [|k IH]; intros i next w Hlen.
  - simpl. rewrite app_nil_r. reflexivity.
  - destruct (drop i current_results) as [|x rest] eqn:Hdrop.
    { apply (f_equal length) in Hdrop. rewrite length_drop in Hdrop.
      simpl in Hdrop. lia. }
    assert (is_none x = false) as Hx.
    { eapply (proj1 (Forall_forall _ _) Hall).
      apply (list_elem_of_lookup_2 _ i). rewrite <- (Nat.add_0_r i).
      rewrite <- lookup_drop, Hdrop. reflexivity. }
    assert (drop (S i) current_results = rest) as Hrest.
    { replace (S i) with (i + 1)%nat by lia.
      rewrite <- drop_drop, Hdrop. reflexivity. }
    cbn [range_from merge_groups].
    rewrite slice_span by lia.
    rewrite Nat2Z.id. change (Z.to_nat 1) with 1%nat. rewrite Hdrop.
    cbn [take]. rewrite take_0. unfold mbind at 1. unfold M_bind at 1.
    change (ai_merge [x] merge_func extraction_type w) with (Ok x, w).
    cbv beta iota. rewrite Hx. cbn [negb].
    replace (Z.of_nat i + 1) with (Z.of_nat (S i)) by lia.
    rewrite IH by lia. rewrite Hrest, <- app_assoc. reflexivity.
Qed.

(** X24.  With groups of one the merge loop makes no progress: for two
    or more results none of which is [None], every level hands the same
    list to the next, and the loop is still running after any number of
    levels. *)
Theorem merge_with_groups_of_one_runs_on (results : list json)
    (merge_func : json -> json -> res json) (extraction_type : pystr)
    (fuel : nat) (w : world) :
  (2 <= length results)%nat ->
  Forall (fun r => is_none r = false) results ->
  ∃ w', hierarchical fuel results merge_func extraction_type 1 w
        = (Ok None, w').
Proof.
  intros Hlen Hall.
  assert (hierarchical fuel results merge_func extraction_type 1 w
          = levels fuel results merge_func extraction_type 1 w) as ->.
  { unfold _hierarchical_merge_results.
    destruct results as [|a [|b rest]]; simpl in Hlen; try lia.
    reflexivity. }
  revert w. induction fuel as [|fuel IH]; intros w.
  - cbn [merge_levels].
    assert ((1 <? len results) = true) as ->
      by (apply Z.ltb_lt; unfold len; lia).
    eexists. reflexivity.
  - rewrite (merge_levels_step py_str json_loads json_dumps
               _build_merge_prompt self merge_func extraction_type 1 fuel
               results (range_from (length results) 0 1)).
    + pose proof (merge_groups_of_one results merge_func extraction_type
                    Hall (length results) 0 [] (w ++ [EvLog Info])
                    ltac:(lia)) as Hsame.
      change (Z.of_nat 0) with 0 in Hsame. rewrite Hsame.
      cbn [app drop]. rewrite firstn_all. apply IH.
    + unfold len. lia.
    + unfold py_range. cbn [Z.eqb Z.ltb Z.compare].
      rewrite Z.div_1_r. do 2 f_equal. unfold len. lia.
Qed.

(** X25.  A group size of zero makes the merge of two or more results
    raise [ValueError]; a negative group size makes it form no group at
    all, so that every result is lost and the category's empty value
    comes back. *)
Theorem merge_with_nonpositive_groups (results : list json)
    (merge_func : json -> json -> res json) (extraction_type : pystr)
    (group_size : Z) (fuel : nat) (w : world) :
  (2 <= length results)%nat ->
  (group_size = 0 ->
   hierarchical (S fuel) results merge_func extraction_type group_size w
   = (Raise ValueError, w ++ [EvLog Info]))
  ∧ (group_size < 0 ->
     hierarchical (S fuel) results merge_func extraction_type group_size w
     = (Ok (Some (empty_value extraction_type)),
        w ++ [EvLog Info; EvLog Info; EvLog Info])).
Proof.
  intros Hlen.
  assert (hierarchical (S fuel) results merge_func extraction_type
            group_size w
          = levels (S fuel) results merge_func extraction_type
              group_size w) as ->.
  { unfold _hierarchical_merge_results.
    destruct results as [|a [|b rest]]; simpl in Hlen; try lia.
    reflexivity. }
  assert ((1 <? len results) = true) as Hlong
    by (apply Z.ltb_lt; unfold len; lia).
  split; intros Hg.
  - subst group_size. cbn [merge_levels]. rewrite Hlong.
    unfold log, emit, lift, mbind, M_bind. reflexivity.
  - rewrite (merge_levels_step py_str json_loads json_dumps
               _build_merge_prompt self merge_func extraction_type
               group_size fuel results []).
    + cbn [merge_groups]. unfold mret, M_ret.
      rewrite merge_levels_done by (unfold len; simpl; lia).
      rewrite <- !app_assoc. reflexivity.
    + apply Z.ltb_lt, Hlong.
    + unfold py_range.
      destruct (group_size =? 0) eqn:E0; [apply Z.eqb_eq in E0; lia|].
      destruct (0 <? group_size) eqn:E1; [apply Z.ltb_lt in E1; lia|].
      rewrite Z2Nat.nonpos; [reflexivity|].
      apply Z.lt_succ_r, Z.div_lt_upper_bound; unfold len; lia.
Qed.

End Pipeline.

Lemma extract_worldview_total_witness :
  (∃ v w',
     extract_worldview ws_cut sample_str sample_loads sample_dumps
       sample_merge_prompt sample_templates
       (sample_parser (lit "{}") (lit "{}") 2) (lit "a b") []
     = (Ok (Some v), w'))
  ∧ (∃ v w',
       extract_plot_outline ws_cut sample_str sample_loads sample_dumps
         sample_merge_prompt sample_templates
         (sample_parser (lit "{}") (lit "{}") 2) (lit "a b") []
       = (Ok (Some v), w')).
Proof.
  apply (extract_worldview_total ws_cut sample_str sample_loads sample_dumps
           sample_merge_prompt sample_templates
           (sample_parser (lit "{}") (lit "{}") 2) (lit "a b") []).
  reflexivity.
Defined.

Lemma extraction_needs_workers_witness :
  (∃ logs,
     extract_worldview ws_cut sample_str sample_loads sample_dumps
       sample_merge_prompt sample_templates
       (sample_parser (lit "{}") (lit "{}") 0) (lit "a b") []
     = (Raise ValueError, [] ++ logs)
     ∧ without_logs logs = [])
  ∧ (∃ logs,
       extract_characters ws_cut sample_str sample_loads sample_dumps
         sample_merge_prompt sample_templates
         (sample_parser (lit "{}") (lit "{}") 0) (lit "a b") []
       = (Raise ValueError, [] ++ logs)
       ∧ without_logs logs = [])
  ∧ (∃ logs,
       extract_plot_outline ws_cut sample_str sample_loads sample_dumps
         sample_merge_prompt sample_templates
         (sample_parser (lit "{}") (lit "{}") 0) (lit "a b") []
       = (Raise ValueError, [] ++ logs)
       ∧ without_logs logs = []).
Proof.
  apply (extraction_needs_workers ws_cut sample_str sample_loads sample_dumps
           sample_merge_prompt sample_templates
           (sample_parser (lit "{}") (lit "{}") 0) (lit "a b") []).
  - simpl. lia.
  - vm_compute. discriminate.
Defined.

Lemma blank_content_extracts_nothing_witness :
  extract_worldview ws_cut sample_str sample_loads sample_dumps
    sample_merge_prompt sample_templates
    (sample_parser (lit "{}") (lit "{}") 2) (lit "  ") []
  = (Ok (Some (JDict [])), [] ++ [EvLog Info; EvLog Warning])
  ∧ extract_characters ws_cut sample_str sample_loads sample_dumps
      sample_merge_prompt sample_templates
      (sample_parser (lit "{}") (lit "{}") 2) (lit "  ") []
    = (Ok (Some (JList [])), [] ++ [EvLog Info])
  ∧ extract_plot_outline ws_cut sample_str sample_loads sample_dumps
      sample_merge_prompt sample_templates
      (sample_parser (lit "{}") (lit "{}") 2) (lit "  ") []
    = (Ok (Some (JDict [])), [] ++ [EvLog Info; EvLog Warning]).
Proof.
  apply (blank_content_extracts_nothing ws_cut sample_str sample_loads
           sample_dumps sample_merge_prompt sample_templates
           (sample_parser (lit "{}") (lit "{}") 2) (lit "  ") []).
  reflexivity.
Defined.

Lemma merge_with_groups_of_one_runs_on_witness :
  ∃ w',
    _hierarchical_merge_results sample_str sample_loads sample_dumps
      sample_merge_prompt (sample_parser (lit "{}") (lit "{}") 2) 7
      [JDict []; JDict [jkey "era" (jstr "old")]]
      (worldview_merge_func sample_str) WORLDVIEW 1 []
    = (Ok None, w').
Proof.
  apply (merge_with_groups_of_one_runs_on sample_str sample_loads
           sample_dumps sample_merge_prompt
           (sample_parser (lit "{}") (lit "{}") 2)
           [JDict []; JDict [jkey "era" (jstr "old")]]
           (worldview_merge_func sample_str) WORLDVIEW 7 []).
  - simpl. lia.
  - repeat constructor.
Defined.

Lemma merge_with_nonpositive_groups_witness :
  (0 = 0 ->
   _hierarchical_merge_results sample_str sample_loads sample_dumps
     sample_merge_prompt (sample_parser (lit "{}") (lit "{}") 2) 2
     [JDict []; JDict [jkey "era" (jstr "old")]]
     (worldview_merge_func sample_str) WORLDVIEW 0 []
   = (Raise ValueError, [] ++ [EvLog Info]))
  ∧ (0 < 0 ->
     _hierarchical_merge_results sample_str sample_loads sample_dumps
       sample_merge_prompt (sample_parser (lit "{}") (lit "{}") 2) 2
       [JDict []; JDict [jkey "era" (jstr "old")]]
       (worldview_merge_func sample_str) WORLDVIEW 0 []
     = (Ok (Some (empty_value WORLDVIEW)),
        [] ++ [EvLog Info; EvLog Info; EvLog Info])).
Proof.
  apply (merge_with_nonpositive_groups sample_str sample_loads sample_dumps
           sample_merge_prompt (sample_parser (lit "{}") (lit "{}") 2)
           [JDict []; JDict [jkey "era" (jstr "old")]]
           (worldview_merge_func sample_str) WORLDVIEW 0 1 []).
  simpl. lia.
Defined.

(** ** The dispatcher on the chunks of the segmenter *)

Lemma record_results_present (task : segment -> res json)
    (completed : list segment) :
  ∀ results_dict : gmap Z json,
    map_Forall (fun _ r => is_none r = false) results_dict ->
    map_Forall (fun _ r => is_none r = false)
      (fold_left (record_result task) completed results_dict).
Proof.
  induction completed as [|segment_data rest IH]; intros results_dict Hd;
    [exact Hd|].
  cbn [fold_left]. apply IH. unfold record_result.
  destruct (task segment_data) as [result|e]; [|exact Hd].
  destruct (is_none result) eqn:E; cbn [negb]; [exact Hd|].
  apply map_Forall_insert_2; assumption.
Qed.

Lemma rebuild_present (results_dict : gmap Z json)
    (segments : list segment) :
  map_Forall (fun _ r => is_none r = false) results_dict ->
  Forall (fun r => is_none r = false) (rebuild results_dict segments)
  ∧ (length (rebuild results_dict segments) <= length segments)%nat.
Proof.
  intros Hd. unfold rebuild.
  induction segments as [|segment_data rest [IH1 IH2]];
    [split; [constructor | reflexivity]|].
  cbn [omap list_omap].
  destruct (results_dict !! order segment_data) as [r|] eqn:Hr.
  - split; [|simpl; lia]. constructor; [|exact IH1]. exact (Hd _ _ Hr).
  - split; [exact IH1 | simpl; lia].
Qed.

(** X26.  Whatever the scheduling of the workers, the dispatcher either
    returns a list that holds no [None] and has at most one result per
    chunk, or raises [ValueError] because the number of workers is not
    positive. *)
Theorem dispatch_results_present (json_loads : pystr -> option json)
    (prompt_definitions : res prompt_templates) (self : KnowledgeParser)
    (segments : list segment)
    (extraction_type prompt_template_name context_query : pystr) :
  match _process_segment_concurrently json_loads prompt_definitions self
          segments extraction_type prompt_template_name context_query with
  | Ok results =>
      0 < max_concurrent_requests self
      ∧ Forall (fun r => is_none r = false) results
      ∧ (length results <= length segments)%nat
  | Raise e => e = ValueError ∧ max_concurrent_requests self <= 0
  end.
Proof.
  unfold _process_segment_concurrently, dispatch.
  destruct (max_concurrent_requests self <=? 0) eqn:E.
  - apply Z.leb_le in E. split; [reflexivity | exact E].
  - apply Z.leb_gt in E. split; [exact E|].
    apply rebuild_present, record_results_present, map_Forall_empty.
Qed.

(** X27.  Segmenter and dispatcher fit together: for a positive segment
    size, a positive number of workers and workers that all complete,
    in any order, the chunks of a text are accepted by the dispatcher,
    which returns the results of the tasks that returned something, in
    the order of the chunks. *)
Theorem segment_then_dispatch jieba_cut (json_loads : pystr -> option json)
    (prompt_definitions : res prompt_templates) (self : KnowledgeParser)
    (content : pystr) (segment_size : Z)
    (extraction_type prompt_template_name context_query : pystr) :
  0 < segment_size ->
  0 < max_concurrent_requests self ->
  (∀ l, completion_order self l ≡ₚ l) ->
  ∃ segments,
    split_text_into_segments jieba_cut content segment_size = Ok segments
    ∧ _process_segment_concurrently json_loads prompt_definitions self
        segments extraction_type prompt_template_name context_query
      = Ok (omap (surviving
                    (task_result json_loads prompt_definitions self
                       extraction_type prompt_template_name context_query))
                 segments).
Proof.
  intros Hsize Hpool Hperm.
  destruct (split_numbered jieba_cut content segment_size Hsize)
    as (segments & Hrun & _ & Horders & _).
  exists segments. split; [exact Hrun|].
  unfold _process_segment_concurrently. apply dispatch_spec.
  - exact Hpool.
  - cbn [fst snd] in Horders. rewrite Horders.
    apply StronglySorted_lt_NoDup, StronglySorted_seqZ.
  - apply Hperm.
Qed.

Lemma segment_then_dispatch_witness :
  ∃ segments,
    split_text_into_segments ws_cut (lit "ab cd ef") 3 = Ok segments
    ∧ _process_segment_concurrently sample_loads sample_templates
        (sample_parser list_of_x [] 2) segments WORLDVIEW (lit "worldview")
        WORLDVIEW_QUERY
      = Ok (omap (surviving
                    (task_result sample_loads sample_templates
                       (sample_parser list_of_x [] 2) WORLDVIEW
                       (lit "worldview") WORLDVIEW_QUERY))
                 segments).
Proof.
  apply (segment_then_dispatch ws_cut sample_loads sample_templates
           (sample_parser list_of_x [] 2) (lit "ab cd ef") 3 WORLDVIEW
           (lit "worldview") WORLDVIEW_QUERY).
  - lia.
  - simpl. lia.
  - intros l. simpl. apply reverse_Permutation.
Defined.

(** ** The completion service down *)

Lemma invoke_with_cleaning_down (adapter : completion_service)
    (prompt : pystr) (max_retries : Z) (w : world) :
  (∀ n p, adapter n p = Fail) ->
  ∃ w', invoke_with_cleaning adapter prompt max_retries w = (Ok [], w').
Proof.
  intros Hdown.
  destruct (invoke_with_cleaning_spec adapter prompt max_retries w)
    as (result & produced & k & Hrun & _ & _ & _ & _ & Hres).
  destruct Hres as [(-> & _)|(raw & j & _ & Hreply & _)]; [eauto|].
  rewrite Hdown in Hreply. discriminate Hreply.
Qed.

Lemma process_single_segment_down (json_loads : pystr -> option json)
    (prompt_definitions : res prompt_templates) (self : KnowledgeParser)
    (adapter : completion_service)
    (extraction_type prompt_template_name context_query : pystr)
    (segment_data : segment) (w : world) :
  (∀ n p, adapter n p = Fail) ->
  ∃ w', process_single_segment json_loads prompt_definitions self adapter
          extraction_type prompt_template_name context_query segment_data w
        = (Ok JNull, w').
Proof.
  intros Hdown. unfold process_single_segment.
  destruct (vector_context_quiet (vector_store self) (text segment_data)
              context_query 8 (w ++ [EvLog Info]))
    as (context & logs & Hcontext & _).
  unfold log, emit.
  unfold mbind at 1. unfold M_bind at 1. cbv beta iota.
  unfold catch. unfold mbind at 1. unfold M_bind at 1. rewrite Hcontext.
  unfold mbind at 1. unfold M_bind at 1. unfold lift at 1.
  destruct prompt_definitions as [templates|e];
    [|unfold mbind, M_bind, mret, M_ret; eauto].
  destruct (bool_decide (prompt_template_name = lit "worldview")
            || bool_decide (prompt_template_name = lit "character")
            || bool_decide (prompt_template_name = lit "plot"));
    [|unfold mbind, M_bind, mret, M_ret; eauto].
  match goal with
  | |- context [lift (?template ?arg)] =>
      destruct (template arg) as [prompt|e]
  end; [|unfold mbind, M_bind, mret, M_ret, lift; eauto].
  unfold mbind at 1. unfold M_bind at 1. unfold lift at 1.
  unfold mbind at 1. unfold M_bind at 1.
  destruct (invoke_with_cleaning_down adapter prompt default_max_retries
              ((w ++ [EvLog Info]) ++ logs) Hdown) as [w' ->].
  change (strip []) with (@nil N). cbn [truthy negb].
  unfold mbind, M_bind, mret, M_ret. eauto.
Qed.

Lemma record_results_none (task : segment -> res json)
    (completed : list segment) :
  (∀ segment_data, task segment_data = Ok JNull) ->
  fold_left (record_result task) completed ∅ = ∅.
Proof.
  intros Hnone. induction completed as [|segment_data rest IH];
    [reflexivity|].
  cbn [fold_left]. unfold record_result at 2. rewrite Hnone. exact IH.
Qed.

(** X28.  With the completion service down (every call of every worker
    raises) and a positive number of workers, the three extractions
    still return: on a text that is not blank each gives its empty
    value, none raises, and the main thread has only written log lines:
    no merge request is sent. *)
Theorem extraction_with_service_down jieba_cut (py_str : json -> pystr)
    (json_loads : pystr -> option json) (json_dumps : list json -> pystr)
    (_build_merge_prompt : pystr -> pystr -> pystr)
    (prompt_definitions : res prompt_templates) (self : KnowledgeParser)
    (content : pystr) (w : world) :
  0 < max_concurrent_requests self ->
  (∀ k n p, worker_adapter self k n p = Fail) ->
  visible content ≠ [] ->
  (∃ logs,
     extract_worldview jieba_cut py_str json_loads json_dumps
       _build_merge_prompt prompt_definitions self content w
     = (Ok (Some (JDict [])), w ++ logs)
     ∧ without_logs logs = [])
  ∧ (∃ logs,
       extract_characters jieba_cut py_str json_loads json_dumps
         _build_merge_prompt prompt_definitions self content w
       = (Ok (Some (JList [])), w ++ logs)
       ∧ without_logs logs = [])
  ∧ (∃ logs,
       extract_plot_outline jieba_cut py_str json_loads json_dumps
         _build_merge_prompt prompt_definitions self content w
       = (Ok (Some (JDict [])), w ++ logs)
       ∧ without_logs logs = []).
Proof.
  intros Hpool Hdown Hvisible.
  destruct (split_numbered jieba_cut (preprocess_text content)
              default_segment_size ltac:(unfold default_segment_size; lia))
    as (segs & Hsegs & _).
  pose proof (preprocess_text_visible content Hvisible) as Htext.
  assert (∀ extraction_type prompt_template_name context_query,
            _process_segment_concurrently json_loads prompt_definitions self
              segs extraction_type prompt_template_name context_query
            = Ok []) as Hnone.
  { intros et tn cq. unfold _process_segment_concurrently, dispatch.
    destruct (max_concurrent_requests self <=? 0) eqn:E;
      [apply Z.leb_le in E; lia|].
    rewrite record_results_none.
    - f_equal. unfold rebuild. clear. induction segs as [|s segs IH];
        [reflexivity|].
      cbn [omap list_omap]. rewrite lookup_empty. exact IH.
    - intros segment_data. unfold task_result.
      destruct (process_single_segment_down json_loads prompt_definitions
                  self (worker_adapter self (order segment_data)) et tn cq
                  segment_data [] (Hdown (order segment_data))) as [w' ->].
      reflexivity. }
  unfold extract_worldview, extract_characters, extract_plot_outline.
  cbv zeta. unfold log, emit, lift, mbind, M_bind, mret, M_ret.
  rewrite Htext, Hsegs, !Hnone. cbn [truthy negb]. rewrite <- !app_assoc.
  repeat split; exists [EvLog Info; EvLog Warning]; split; reflexivity.
Qed.

Lemma extraction_with_service_down_witness :
  let self := {| llm_adapter := fun _ _ => Fail;
                 worker_adapter := fun _ _ _ => Fail;
                 vector_store := None;
                 max_concurrent_requests := 2;
                 completion_order := fun l => l |} in
  (∃ logs,
     extract_worldview ws_cut sample_str sample_loads sample_dumps
       sample_merge_prompt sample_templates self (lit "a b") []
     = (Ok (Some (JDict [])), [] ++ logs)
     ∧ without_logs logs = [])
  ∧ (∃ logs,
       extract_characters ws_cut sample_str sample_loads sample_dumps
         sample_merge_prompt sample_templates self (lit "a b") []
       = (Ok (Some (JList [])), [] ++ logs)
       ∧ without_logs logs = [])
  ∧ (∃ logs,
       extract_plot_outline ws_cut sample_str sample_loads sample_dumps
         sample_merge_prompt sample_templates self (lit "a b") []
       = (Ok (Some (JDict [])), [] ++ logs)
       ∧ without_logs logs = []).
Proof.
  apply (extraction_with_service_down ws_cut sample_str sample_loads
           sample_dumps sample_merge_prompt sample_templates
           {| llm_adapter := fun _ _ => Fail;
              worker_adapter := fun _ _ _ => Fail;
              vector_store := None;
              max_concurrent_requests := 2;
              completion_order := fun l => l |} (lit "a b") []).
  - simpl. lia.
  - reflexivity.
  - vm_compute. discriminate.
Defined.
